(** * Vector memory subsystem of Te_Po: a shallow embedding

    The development follows the Python sources

      - [Te_Po/utils/offline_store.py]   (local SQLite fallback store),
      - [Te_Po/utils/openai_client.py]   (embedding provider),
      - [Te_Po/utils/pgvector_client.py] (remote store and backend switch),
      - [Te_Po/utils/supabase_client.py] (retry decorator, Supabase gateway),
      - [Te_Po/routes/memory.py]         (the routes / and /retrieve).

    Python exceptions are values of [exn] carried by [result]; the
    effects of a function (sleeping, talking to the database server)
    are returned as explicit traces or threaded as explicit state. *)

From Stdlib Require Import ZArith List Bool Lia Lra Reals QArith.
From Stdlib Require Import Floats Uint63 Ascii String DecimalString.
From Stdlib.Strings Require Import Byte.
From Stdlib Require Import Permutation Sorted.
From stdpp Require Import base option list strings gmap.

Local Open Scope string_scope.
Local Open Scope list_scope.
Local Open Scope Z_scope.

(** ** Exceptions and results *)

Inductive exn : Type :=
| ValueError (msg : string)
| RuntimeError (msg : string)
| IntegrityError (msg : string)
| HTTPException (status_code : Z) (detail : string).

Inductive result (A : Type) : Type :=
| Ok (a : A)
| Raise (e : exn).
Arguments Ok {A} a.
Arguments Raise {A} e.

(** [x ← r; k] runs [k] on the value of [r] and propagates an exception. *)
#[export] Instance result_ret : MRet result := fun A a => Ok a.
#[export] Instance result_bind : MBind result := fun A B k r =>
  match r with
  | Ok a => k a
  | Raise e => Raise e
  end.

(** ** Python floats

    The sources compute with Python [float]s, which are binary64.  The
    arithmetic the code uses is collected in one interface, so that
    every function below is written once, as in the source.  The
    instance of the code is binary64 (Rocq's primitive floats); what is
    proved of the results of the code is proved at that instance, or
    for every arithmetic with the laws of [IEEEOrder], which binary64
    has.  The real numbers are a second instance, an idealisation on
    which no statement about the results of the code rests. *)

Class PyFloat (F : Type) : Type := {
  f0 : F;                       (* 0.0 *)
  of_int : Z -> F;              (* float(n) *)
  fadd : F -> F -> F;           (* x + y *)
  fmul : F -> F -> F;           (* x * y *)
  fdiv : F -> F -> F;           (* x / y *)
  fpow_half : F -> F;           (* x ** 0.5 *)
  feqb : F -> F -> bool;        (* x == y *)
  fltb : F -> F -> bool;        (* x < y *)
  fleb : F -> F -> bool         (* x <= y *)
}.

(** The order laws of exact arithmetic.  They hold of the reals; on
    binary64 they fail at NaN, and [IEEEOrder] below takes their
    place. *)
Class ExactOrder (F : Type) `{PyFloat F} : Prop := {
  fltb_asym : forall x y : F, fltb x y = true -> fltb y x = false;
  fge_trans : forall x y z : F,
      fltb x y = false -> fltb y z = false -> fltb x z = false;
  fleb_fltb : forall x y : F, fleb x y = negb (fltb y x);
  feqb_fltb : forall x y z : F, feqb x y = true -> fltb x z = fltb y z
}.

(** [x != x]: true of NaN and of nothing else. *)
Definition is_nan {F : Type} `{PyFloat F} (x : F) : bool := negb (feqb x x).

(** The order laws of IEEE 754 comparisons: a comparison with a NaN is
    false; on numbers [<=] is the negation of the converse [<], and
    "not smaller" is transitive; [==] is compatible with [<] and
    [<=]. *)
Class IEEEOrder (F : Type) `{PyFloat F} : Prop := {
  ieee_zero : feqb f0 f0 = true;
  ieee_nan : forall x y : F,
      is_nan x = true \/ is_nan y = true ->
      fltb x y = false /\ fleb x y = false /\ feqb x y = false;
  ieee_lt_asym : forall x y : F, fltb x y = true -> fltb y x = false;
  ieee_le_lt : forall x y : F,
      is_nan x = false -> is_nan y = false -> fleb x y = negb (fltb y x);
  ieee_ge_trans : forall x y z : F,
      is_nan x = false -> is_nan y = false -> is_nan z = false ->
      fltb x y = false -> fltb y z = false -> fltb x z = false;
  ieee_eq_lt : forall x y z : F,
      feqb x y = true -> fltb x z = fltb y z /\ fltb z x = fltb z y
}.

(** binary64, as CPython's [float]; [float(n)] is given for
    [|n| < 2^63].  CPython computes [x ** 0.5] with the [pow] of the C
    library, which is not bound to round correctly and may differ
    from the square root in the last digit: the function is the
    parameter [pow_half]. *)
Definition binary64_with (pow_half : float -> float) : PyFloat float := {|
  f0 := 0%float;
  of_int := fun n =>
    if (n <? 0)%Z then PrimFloat.opp (PrimFloat.of_uint63 (Uint63.of_Z (- n)))
    else PrimFloat.of_uint63 (Uint63.of_Z n);
  fadd := PrimFloat.add;
  fmul := PrimFloat.mul;
  fdiv := PrimFloat.div;
  fpow_half := pow_half;
  feqb := PrimFloat.eqb;
  fltb := PrimFloat.ltb;
  fleb := PrimFloat.leb
|}.

(** The instance on which the examples run: a C library whose
    [pow(x, 0.5)] is the correctly rounded square root.  At 0.0, 1.0
    and infinity the C standard (Annex F) fixes [pow(x, 0.5)] to be
    [x], as the square root is. *)
#[export] Instance binary64 : PyFloat float := binary64_with PrimFloat.sqrt.

(** Exact arithmetic over the reals: no rounding, no overflow, no NaN.
    It is a model of the laws of [ExactOrder]; the code does not
    compute in it. *)
#[export] Instance exact_real : PyFloat R := {
  f0 := 0%R;
  of_int := IZR;
  fadd := Rplus;
  fmul := Rmult;
  fdiv := Rdiv;
  fpow_half := R_sqrt.sqrt;
  feqb := fun x y => if Req_dec_T x y then true else false;
  fltb := fun x y => if Rlt_dec x y then true else false;
  fleb := fun x y => if Rle_dec x y then true else false
}.

(** ** [offline_store.cosine_similarity] *)

Section Similarity.
Context {F : Type} `{PyFloat F}.

(** [sum(...)]: from 0, adding from the left. *)
Definition py_sum (l : list F) : F := fold_left fadd l f0.

(** [sum(x * y for x, y in zip(a, b))] *)
Definition dot (a b : list F) : F :=
  py_sum (map (fun p => fmul (fst p) (snd p)) (combine a b)).

(** [sum(x * x for x in a) ** 0.5] *)
Definition norm (a : list F) : F :=
  fpow_half (py_sum (map (fun x => fmul x x) a)).

Definition is_empty {A : Type} (l : list A) : bool :=
  match l with [] => true | _ => false end.

Definition cosine_similarity (a b : list F) : result F :=
  if is_empty a || is_empty b then Ok f0
  else if negb (length a =? length b)%nat then
    Raise (ValueError "Vectors must be the same length for cosine similarity.")
  else
    let dot_ab := dot a b in
    let norm_a := norm a in
    let norm_b := norm b in
    if feqb norm_a f0 || feqb norm_b f0 then Ok f0
    else Ok (fdiv dot_ab (fmul norm_a norm_b)).
End Similarity.

(** ** Python strings

    A Python [str] is a sequence of code points.  The names, contents
    and queries that the functions below only compare, split and
    strip are modelled by [string], a sequence of code points below
    256; a text that is encoded is a [unicode], a sequence of code
    points of any size, each below 0x110000. *)

Definition unicode : Type := list N.

Definition code (c : ascii) : N := N_of_ascii c.

(** The code points of a [string]. *)
Definition code_points (s : string) : unicode :=
  map code (list_ascii_of_string s).

(** [str.isspace] on one code point below 256: TAB..CR, FS..US, SPACE,
    NEL and NBSP. *)
Definition is_space (c : ascii) : bool :=
  let n := code c in
  ((9 <=? n) && (n <=? 13) || (28 <=? n) && (n <=? 32)
   || (n =? 133) || (n =? 160))%N.

Fixpoint drop_spaces (l : list ascii) : list ascii :=
  match l with
  | [] => []
  | c :: l' => if is_space c then drop_spaces l' else l
  end.

(** [s.strip()] *)
Definition strip_chars (l : list ascii) : list ascii :=
  rev (drop_spaces (rev (drop_spaces l))).

Definition strip (s : string) : string :=
  string_of_list_ascii (strip_chars (list_ascii_of_string s)).

(** [s.split(".")]: the pieces between the dots, empty pieces included;
    the result is never the empty list. *)
Fixpoint split_chars (sep : ascii) (l : list ascii) : list (list ascii) :=
  match l with
  | [] => [[]]
  | c :: l' =>
      if Ascii.eqb c sep then [] :: split_chars sep l'
      else match split_chars sep l' with
           | [] => [[c]]
           | p :: ps => (c :: p) :: ps
           end
  end.

Definition split_dot (s : string) : list string :=
  map string_of_list_ascii (split_chars "."%char (list_ascii_of_string s)).

(** ** The local store: [offline_store.py] *)

Definition _SUPPORTED_TABLES : gset string :=
  {[ "ocr_logs"; "translations"; "embeddings"; "ti_memory"; "task_queue";
     "mauri_logs" ]}.

Definition _normalize_table_name (table : string) : result string :=
  let parts := split_dot table in
  let normalized := strip (List.last parts "") in
  if decide (normalized ∈ _SUPPORTED_TABLES) then Ok normalized
  else Raise (ValueError ("Table '" ++ table ++ "' is not supported offline.")%string).

(** One row of a table, as [_row_to_dict] hands it out: the [embedding]
    column holds the JSON text [_normalize_payload] wrote, decoded back
    to the vector, or NULL; [metadata] is kept as its JSON text;
    [created_at] is the value of [datetime(created_at)], in seconds.
    The [status] column is never read or written by the functions
    below. *)
Record row (F : Type) : Type := Row {
  row_id : string;
  content : string;
  metadata : string;
  embedding : option (list F);
  created_at : Z
}.
Arguments Row {F} _ _ _ _ _.
Arguments row_id {F} _.
Arguments content {F} _.
Arguments metadata {F} _.
Arguments embedding {F} _.
Arguments created_at {F} _.

(** Stable sorting in descending order, by insertion: [lt x y] reads
    "the key of [x] is smaller than the key of [y]"; an element is put
    in front of the first element that is not greater than it, so
    elements that compare equal keep their order. *)
Section StableSort.
Context {A : Type} (lt : A -> A -> bool).

Fixpoint insert_desc (x : A) (l : list A) : list A :=
  match l with
  | [] => [x]
  | y :: l' => if lt x y then y :: insert_desc x l' else x :: l
  end.

Fixpoint sort_desc (l : list A) : list A :=
  match l with
  | [] => []
  | x :: l' => insert_desc x (sort_desc l')
  end.
End StableSort.

(** [l[:k]] and [l[k:]] for a Python [int] [k]; a negative [k] counts
    from the end. *)
Definition slice_to {A : Type} (k : Z) (l : list A) : list A :=
  if k <? 0 then firstn (length l - Z.to_nat (- k)) l
  else firstn (Z.to_nat k) l.

Definition slice_from {A : Type} (k : Z) (l : list A) : list A :=
  if k <? 0 then skipn (length l - Z.to_nat (- k)) l
  else skipn (Z.to_nat k) l.

Section LocalStore.
Context {F : Type}.

(** The database file: the rows of each table in rowid order, which is
    the order of insertion.  [_ensure_database] creates every supported
    table that is missing, so a table without an entry reads as empty. *)
Definition table_rows (db : gmap string (list (row F))) (name : string)
  : list (row F) :=
  default [] (db !! name).

(** [ORDER BY datetime(created_at) DESC].  SQL leaves the order of
    rows with equal keys open; SQLite's sorter returns them in scan
    order, and so does this definition. *)
Definition older (r1 r2 : row F) : bool := created_at r1 <? created_at r2.

Definition order_by_created_at_desc (rows : list (row F)) : list (row F) :=
  sort_desc older rows.

(** [LIMIT n]: a negative [n] means no limit in SQLite. *)
Definition sql_limit (n : Z) (rows : list (row F)) : list (row F) :=
  if n <? 0 then rows else firstn (Z.to_nat n) rows.

(** [if limit:] for [limit: int | None] *)
Definition truthy (limit : option Z) : bool :=
  match limit with
  | None => false
  | Some n => negb (n =? 0)
  end.

Definition fetch_records (db : gmap string (list (row F))) (table : string)
    (limit : option Z) : result (list (row F)) :=
  table_name ← _normalize_table_name table;
  let rows := order_by_created_at_desc (table_rows db table_name) in
  Ok (if truthy limit then sql_limit (default 0 limit) rows else rows).

(** [DELETE FROM table WHERE id = ?] *)
Definition delete_by_id (db : gmap string (list (row F))) (table_name : string)
    (i : string) : gmap string (list (row F)) :=
  <[table_name := List.filter (fun r => negb (String.eqb (row_id r) i))
                    (table_rows db table_name)]> db.

Definition prune_embeddings (db : gmap string (list (row F))) (table : string)
    (keep : Z) : result (gmap string (list (row F))) :=
  records ← fetch_records db table None;
  if Z.of_nat (length records) <=? keep then Ok db
  else
    let to_delete := slice_from keep records in
    table_name ← _normalize_table_name table;
    Ok (fold_left (fun d record => delete_by_id d table_name (row_id record))
          to_delete db).
End LocalStore.

(** A search result: the record enriched with its [similarity]. *)
Record hit (F : Type) : Type := Hit {
  hit_row : row F;
  similarity : F
}.
Arguments Hit {F} _ _.
Arguments hit_row {F} _.
Arguments similarity {F} _.

Section LocalSearch.
Context {F : Type} `{PyFloat F}.

(** The scoring loop of [top_k_embeddings]: a record whose embedding is
    not a sequence is skipped; an exception of [cosine_similarity]
    leaves the loop. *)
Fixpoint score_records (query_vector : list F) (records : list (row F))
  : result (list (F * row F)) :=
  match records with
  | [] => Ok []
  | record :: rest =>
      match embedding record with
      | None => score_records query_vector rest
      | Some v =>
          score ← cosine_similarity query_vector v;
          scored ← score_records query_vector rest;
          Ok ((score, record) :: scored)
      end
  end.

(** [scored.sort(key=lambda item: item[0], reverse=True)]: Python's
    sort compares the keys with [<] and is stable, also with
    [reverse=True].  On scores that are numbers a stable sort in
    descending order has one result, whatever the algorithm, and
    [sort_by_score] computes it by insertion.  With a NaN among the
    scores [<] is not an order and the result of [list.sort] depends
    on the pairs its merge sort compares.  What is proved of the order
    of the hits is therefore proved for scores without NaN; the one
    list with a NaN score that is sorted below is a run, a list in
    which no key is smaller than the next one, which [list.sort]
    detects and returns as it is, as [sort_by_score] does. *)
Definition score_lt (x y : F * row F) : bool := fltb (fst x) (fst y).

Definition sort_by_score (scored : list (F * row F)) : list (F * row F) :=
  sort_desc score_lt scored.

(** [enriched = dict(record); enriched["similarity"] = float(score)] *)
Definition enrich (item : F * row F) : hit F := Hit (snd item) (fst item).

Definition top_k_embeddings (db : gmap string (list (row F))) (table : string)
    (query_vector : list F) (top_k : Z) : result (list (hit F)) :=
  records ← fetch_records db table None;
  scored ← score_records query_vector records;
  Ok (map enrich (slice_to top_k (sort_by_score scored))).
End LocalSearch.

(** ** Vocabulary of the statements *)

(** [precedes a b l]: an occurrence of [a] comes before an occurrence
    of [b] in [l]. *)
Definition precedes {A : Type} (a b : A) (l : list A) : Prop :=
  exists l1 l2 l3, l = l1 ++ a :: l2 ++ b :: l3.

(** [not_less lt x y]: [x] is not smaller than [y]; a list sorted in
    descending order is [StronglySorted (not_less lt)]. *)
Definition not_less {A : Type} (lt : A -> A -> bool) (x y : A) : Prop :=
  lt x y = false.

(** The rows that survive deleting the given ids one after the other. *)
Definition delete_ids {F : Type} (ids : list string) (rows : list (row F))
  : list (row F) :=
  List.filter (fun r => negb (existsb (String.eqb (row_id r)) ids)) rows.


(** ** SHA-256

    [hashlib.sha256(data).digest()], after FIPS 180-4.  Words are
    integers below 2^32; bytes are [Byte.byte]. *)

Definition w32 (x : Z) : Z := Z.land x 0xffffffff.

Definition rotr (n x : Z) : Z :=
  Z.lor (Z.shiftr x n) (w32 (Z.shiftl x (32 - n))).

Definition Ch (x y z : Z) : Z :=
  Z.lxor (Z.land x y) (Z.land (Z.lnot x) z).

Definition Maj (x y z : Z) : Z :=
  Z.lxor (Z.land x y) (Z.lxor (Z.land x z) (Z.land y z)).

Definition Sigma0 (x : Z) : Z :=
  Z.lxor (rotr 2 x) (Z.lxor (rotr 13 x) (rotr 22 x)).

Definition Sigma1 (x : Z) : Z :=
  Z.lxor (rotr 6 x) (Z.lxor (rotr 11 x) (rotr 25 x)).

Definition sigma0 (x : Z) : Z :=
  Z.lxor (rotr 7 x) (Z.lxor (rotr 18 x) (Z.shiftr x 3)).

Definition sigma1 (x : Z) : Z :=
  Z.lxor (rotr 17 x) (Z.lxor (rotr 19 x) (Z.shiftr x 10)).

(** The constants of the standard are fractional parts of roots of
    primes: the first 32 bits of the fractional part of the cube root
    of each of the first 64 primes, and of the square root of each of
    the first 8. *)
Definition is_prime (n : nat) : bool :=
  forallb (fun d => negb (n mod d =? 0)%nat) (seq 2 (n - 2)).

Definition first_primes : list Z :=
  map Z.of_nat (List.filter is_prime (seq 2 310)).

(** The integer cube root, bit by bit from the top. *)
Fixpoint cube_root_bits (bits : nat) (n r : Z) : Z :=
  match bits with
  | O => r
  | S b =>
      let c := Z.lor r (Z.shiftl 1 (Z.of_nat b)) in
      if c * c * c <=? n then cube_root_bits b n c else cube_root_bits b n r
  end.

Definition sha256_K : list Z :=
  map (fun p => w32 (cube_root_bits 40 (Z.shiftl p 96) 0)) first_primes.

Record sha256_state : Type := Sha256State {
  sa : Z; sb : Z; sc : Z; sd : Z; se : Z; sf : Z; sg : Z; sh : Z
}.

Definition sha256_init : sha256_state :=
  let h i := w32 (Z.sqrt (Z.shiftl (nth i first_primes 0) 64)) in
  Sha256State (h 0%nat) (h 1%nat) (h 2%nat) (h 3%nat)
              (h 4%nat) (h 5%nat) (h 6%nat) (h 7%nat).

Definition byte_val (b : byte) : Z := Z.of_N (Byte.to_N b).

Definition byte_of_Z (x : Z) : byte :=
  default x00 (Byte.of_N (Z.to_N (Z.land x 0xff))).

(** Padding: the byte 0x80, zero bytes up to 56 modulo 64, and the
    length of the message in bits as eight bytes, most significant
    first. *)
Definition sha256_pad (msg : list byte) : list byte :=
  let len := length msg in
  let zeros := ((119 - len mod 64) mod 64)%nat in
  let bits := 8 * Z.of_nat len in
  msg ++ [x80] ++ repeat x00 zeros
      ++ map (fun i => byte_of_Z (Z.shiftr bits (8 * Z.of_nat (7 - i))))
           (seq 0 8).

Fixpoint be_words (l : list byte) : list Z :=
  match l with
  | b0 :: b1 :: b2 :: b3 :: rest =>
      Z.lor (Z.shiftl (byte_val b0) 24)
        (Z.lor (Z.shiftl (byte_val b1) 16)
           (Z.lor (Z.shiftl (byte_val b2) 8) (byte_val b3)))
      :: be_words rest
  | _ => []
  end.

(** The message schedule, most recent word first. *)
Fixpoint sha256_schedule (n : nat) (rw : list Z) : list Z :=
  match n with
  | O => rw
  | S n' =>
      let w := w32 (sigma1 (nth 1 rw 0) + nth 6 rw 0
                    + sigma0 (nth 14 rw 0) + nth 15 rw 0) in
      sha256_schedule n' (w :: rw)
  end.

Definition sha256_round (s : sha256_state) (kw : Z * Z) : sha256_state :=
  let t1 := sh s + Sigma1 (se s) + Ch (se s) (sf s) (sg s) + fst kw + snd kw in
  let t2 := Sigma0 (sa s) + Maj (sa s) (sb s) (sc s) in
  Sha256State (w32 (t1 + t2)) (sa s) (sb s) (sc s)
              (w32 (sd s + t1)) (se s) (sf s) (sg s).

Definition sha256_compress (s : sha256_state) (block : list Z) : sha256_state :=
  let w := rev (sha256_schedule 48 (rev block)) in
  let r := fold_left sha256_round (combine sha256_K w) s in
  Sha256State (w32 (sa s + sa r)) (w32 (sb s + sb r)) (w32 (sc s + sc r))
              (w32 (sd s + sd r)) (w32 (se s + se r)) (w32 (sf s + sf r))
              (w32 (sg s + sg r)) (w32 (sh s + sh r)).

Fixpoint sha256_blocks (n : nat) (s : sha256_state) (ws : list Z)
  : sha256_state :=
  match n with
  | O => s
  | S n' =>
      sha256_blocks n' (sha256_compress s (firstn 16 ws)) (skipn 16 ws)
  end.

Definition be_bytes (w : Z) : list byte :=
  [byte_of_Z (Z.shiftr w 24); byte_of_Z (Z.shiftr w 16);
   byte_of_Z (Z.shiftr w 8); byte_of_Z w].

Definition sha256 (msg : list byte) : list byte :=
  let ws := be_words (sha256_pad msg) in
  let s := sha256_blocks (length ws / 16) sha256_init ws in
  be_bytes (sa s) ++ be_bytes (sb s) ++ be_bytes (sc s) ++ be_bytes (sd s)
    ++ be_bytes (se s) ++ be_bytes (sf s) ++ be_bytes (sg s) ++ be_bytes (sh s).

(** ** UTF-8

    [text.encode("utf-8")]: one byte for a code point below 0x80, two
    below 0x800, three below 0x10000 and four from there on.  The
    codec is strict: a surrogate (0xD800 to 0xDFFF) is not encoded. *)
Definition is_surrogate (c : N) : bool := ((0xD800 <=? c) && (c <=? 0xDFFF))%N.

Definition continuation (n : Z) : byte := byte_of_Z (Z.lor 0x80 (Z.land n 0x3f)).

Definition utf8_code_point (c : N) : list byte :=
  let n := Z.of_N c in
  if n <? 0x80 then [byte_of_Z n]
  else if n <? 0x800 then
    [byte_of_Z (Z.lor 0xc0 (Z.shiftr n 6)); continuation n]
  else if n <? 0x10000 then
    [byte_of_Z (Z.lor 0xe0 (Z.shiftr n 12)); continuation (Z.shiftr n 6);
     continuation n]
  else
    [byte_of_Z (Z.lor 0xf0 (Z.shiftr n 18)); continuation (Z.shiftr n 12);
     continuation (Z.shiftr n 6); continuation n].

(** [str(n)] and the four hexadecimal digits of a surrogate. *)
Definition decimal (n : N) : string := NilZero.string_of_uint (N.to_uint n).

Definition hex_digit (d : N) : ascii :=
  ascii_of_N (if (d <? 10)%N then 48 + d else 87 + d).

Definition hex4 (c : N) : string :=
  string_of_list_ascii
    (map (fun shift => hex_digit (N.land (N.shiftr c shift) 15)) [12; 8; 4; 0]%N).

(** The surrogates at the head of a text. *)
Fixpoint surrogate_run (t : unicode) : nat :=
  match t with
  | c :: t' => if is_surrogate c then S (surrogate_run t') else O
  | [] => O
  end.

(** [str(e)] for the [UnicodeEncodeError] of the codec, a
    [ValueError]: it names the first surrogate and its position, or
    the positions of the first run of surrogates. *)
Definition surrogates_not_allowed (pos : N) (c : N) (run : nat) : exn :=
  ValueError
    (if (run =? 1)%nat then
       "'utf-8' codec can't encode character '\u" ++ hex4 c
       ++ "' in position " ++ decimal pos ++ ": surrogates not allowed"
     else
       "'utf-8' codec can't encode characters in position " ++ decimal pos
       ++ "-" ++ decimal (pos + N.of_nat run - 1)
       ++ ": surrogates not allowed")%string.

Fixpoint utf8_encode_from (pos : N) (t : unicode) : result (list byte) :=
  match t with
  | [] => Ok []
  | c :: t' =>
      if is_surrogate c
      then Raise (surrogates_not_allowed pos c (surrogate_run t))
      else
        rest ← utf8_encode_from (pos + 1) t';
        Ok (utf8_code_point c ++ rest)
  end.

Definition utf8_encode (t : unicode) : result (list byte) :=
  utf8_encode_from 0 t.

(** [insert_record] and [store_embedding] of the local store.  The id
    that [uuid.uuid4()] draws and the value of [CURRENT_TIMESTAMP] are
    arguments; a second row with the same primary key is refused. *)
Definition insert_record {F : Type} (db : gmap string (list (row F)))
    (table : string) (item : row F)
  : result (gmap string (list (row F)) * row F) :=
  table_name ← _normalize_table_name table;
  if existsb (fun r => String.eqb (row_id r) (row_id item))
       (table_rows db table_name)
  then Raise (IntegrityError "UNIQUE constraint failed")
  else Ok (<[table_name := table_rows db table_name ++ [item]]> db, item).

Definition store_embedding {F : Type} (db : gmap string (list (row F)))
    (table content : string) (embedding : list F) (metadata : option string)
    (uuid4 : string) (now : Z)
  : result (gmap string (list (row F)) * string) :=
  inserted ← insert_record db table
                (Row uuid4 content (default "{}" metadata) (Some embedding) now);
  Ok (fst inserted, row_id (snd inserted)).

(** ** Settings

    The fields of [Settings] that the functions below read. *)
Record Settings : Type := {
  openai_api_key : option string;
  offline_mode : bool;
  database_url : option string;
  memory_table : option string;
  embedding_model : string;
  supabase_table_memory : string
}.

(** [not s] for an optional string. *)
Definition falsy_str (s : option string) : bool :=
  match s with
  | None => true
  | Some s' => String.eqb s' ""
  end.

(** ** The services outside the process

    The embeddings endpoint of OpenAI and the PostgreSQL server answer
    as they please; a failed call raises. *)
Record Services (F : Type) : Type := {
  (* client.embeddings.create(model, input).data[0].embedding *)
  openai_embeddings : string -> unicode -> result (list F);
  (* the row that INSERT ... RETURNING id yields: cursor.fetchone() *)
  pg_fetchone : list string -> string -> list F -> string
                -> result (option string);
  (* the rows of the nearest-neighbour SELECT: cursor.fetchall(),
     as (id, content, metadata, created_at, similarity) *)
  pg_fetchall : list string -> list F -> Z
                -> result (list (string * string * string * Z * F))
}.
Arguments openai_embeddings {F} _ _ _.
Arguments pg_fetchone {F} _ _ _ _ _.
Arguments pg_fetchall {F} _ _ _ _.

(** ** [openai_client.generate_embedding] *)

Definition get_openai_client (settings : Settings) : result unit :=
  if falsy_str (openai_api_key settings)
  then Raise (RuntimeError "OpenAI API key is not configured.")
  else Ok tt.

Section Embedding.
Context {F : Type} `{PyFloat F}.

Definition generate_embedding (svc : Services F) (settings : Settings)
    (text : unicode) : result (list F) :=
  if offline_mode settings then
    data ← utf8_encode text;
    let digest := sha256 data in
    Ok (map (fun byte => fdiv (of_int (byte_val byte)) (of_int 255))
          (firstn 32 digest))
  else
    _ ← get_openai_client settings;
    openai_embeddings svc (embedding_model settings) text.
End Embedding.

(** ** The remote store: [pgvector_client.py] *)

Definition is_alpha_or_underscore (c : ascii) : bool :=
  let n := code c in
  ((65 <=? n) && (n <=? 90) || (97 <=? n) && (n <=? 122) || (n =? 95))%N.

Definition is_word_char (c : ascii) : bool :=
  let n := code c in
  is_alpha_or_underscore c || ((48 <=? n) && (n <=? 57))%N.

(** [[A-Za-z0-9_]*$]: [$] matches at the end of the string and in
    front of a newline that ends the string. *)
Fixpoint word_chars_to_end (l : list ascii) : bool :=
  match l with
  | [] => true
  | c :: l' =>
      if is_word_char c then word_chars_to_end l'
      else Ascii.eqb c "010"%char && is_empty l'
  end.

(** [_TABLE_NAME_PATTERN.match(part)] for
    [^[A-Za-z_][A-Za-z0-9_]*$] *)
Definition _TABLE_NAME_PATTERN (part : string) : bool :=
  match list_ascii_of_string part with
  | [] => false
  | c :: l => is_alpha_or_underscore c && word_chars_to_end l
  end.

Definition not_permitted (name : string) : exn :=
  ValueError ("Identifier '" ++ name ++ "' is not permitted.")%string.

Definition _identifier_parts (name : string) : result (list string) :=
  let parts :=
    map strip
      (List.filter (fun part => negb (String.eqb (strip part) ""))
         (split_dot name)) in
  if is_empty parts || (2 <? length parts)%nat then Raise (not_permitted name)
  else if forallb _TABLE_NAME_PATTERN parts then Ok parts
  else Raise (not_permitted name).

(** The statements a client method sends to the server. *)
Inductive sql_statement (F : Type) : Type :=
| InsertEmbedding (table : list string) (content : string)
    (embedding : list F) (metadata : string)
| SelectNearest (table : list string) (embedding : list F) (limit : Z).
Arguments InsertEmbedding {F} _ _ _ _.
Arguments SelectNearest {F} _ _ _.

(** The methods of the class [PGVectorClient]; each returns its result
    and the statements that were sent. *)
Module PGVectorClient.
Section Methods.
Context {F : Type} `{PyFloat F}.

Definition insert_embedding (svc : Services F) (table content : string)
    (embedding : list F) (metadata : option string)
  : result string * list (sql_statement F) :=
  match _identifier_parts table with
  | Raise e => (Raise e, [])
  | Ok identifier =>
      let metadata_json := default "{}" metadata in
      (row ← pg_fetchone svc identifier content embedding metadata_json;
       match row with
       | None => Raise (RuntimeError "Failed to persist embedding record.")
       | Some i => Ok i
       end,
       [InsertEmbedding identifier content embedding metadata_json])
  end.

(** The dictionaries that [search_embeddings] builds have no
    [embedding] key. *)
Definition search_embeddings (svc : Services F) (table : string)
    (embedding : list F) (top_k : Z)
  : result (list (hit F)) * list (sql_statement F) :=
  match _identifier_parts table with
  | Raise e => (Raise e, [])
  | Ok identifier =>
      (rows ← pg_fetchall svc identifier embedding top_k;
       Ok (map (fun '(i, c, m, t, s) => Hit (Row i c m None t) s) rows),
       [SelectNearest identifier embedding top_k])
  end.
End Methods.
End PGVectorClient.

Section Remote.
Context {F : Type} `{PyFloat F}.

Definition get_pgvector_client (settings : Settings) : result unit :=
  if falsy_str (database_url settings)
  then Raise (RuntimeError "Database URL is not configured for pgvector.")
  else Ok tt.

(** The module-level [search_embeddings]: the switch between the two
    stores. *)
Definition search_embeddings (svc : Services F) (settings : Settings)
    (db : gmap string (list (row F))) (table : string)
    (query_vector : list F) (top_k : Z) : result (list (hit F)) :=
  if offline_mode settings then top_k_embeddings db table query_vector top_k
  else
    _ ← get_pgvector_client settings;
    fst (PGVectorClient.search_embeddings svc table query_vector top_k).
End Remote.

(** ** The route [POST /retrieve]: [routes/memory.py] *)

Record MemoryRetrieveRequest (F : Type) : Type := {
  query : string;
  top_k : Z;
  min_similarity : option F
}.
Arguments query {F} _.
Arguments top_k {F} _.
Arguments min_similarity {F} _.

Record MemoryRetrieveResult (F : Type) : Type := {
  res_id : string;
  res_content : string;
  res_metadata : string;
  res_created_at : Z;
  res_similarity : F
}.
Arguments res_id {F} _.
Arguments res_content {F} _.
Arguments res_metadata {F} _.
Arguments res_created_at {F} _.
Arguments res_similarity {F} _.

Section Route.
Context {F : Type} `{PyFloat F}.

(** The [Field] constraints of the request model: [min_length=1],
    [ge=1, le=25], [ge=0.0, le=1.0]. *)
Definition valid_request (payload : MemoryRetrieveRequest F) : bool :=
  negb (String.eqb (query payload) "")
  && (1 <=? top_k payload) && (top_k payload <=? 25)
  && match min_similarity payload with
     | None => true
     | Some m => fleb f0 m && fleb m (of_int 1)
     end.

(** [float(item.get("similarity") or 0.0)] *)
Definition item_similarity (item : hit F) : F :=
  if feqb (similarity item) f0 then f0 else similarity item.

(** The test of the filter loop: the item is skipped when a threshold
    is set and its similarity is below the threshold. *)
Definition clears (threshold : option F) (item : hit F) : bool :=
  match threshold with
  | None => true
  | Some min_sim => negb (fltb (item_similarity item) min_sim)
  end.

(** The [MemoryRetrieveResult] built from an item; the metadata, which
    the handler coerces to a dictionary, is kept as its text. *)
Definition to_result (item : hit F) : MemoryRetrieveResult F :=
  {| res_id := row_id (hit_row item);
     res_content := content (hit_row item);
     res_metadata := metadata (hit_row item);
     res_created_at := created_at (hit_row item);
     res_similarity := item_similarity item |}.

Definition memory_table_name (settings : Settings) : string :=
  if negb (falsy_str (memory_table settings))
  then default "" (memory_table settings)
  else if negb (String.eqb (supabase_table_memory settings) "")
       then supabase_table_memory settings
       else "ti_memory".

Definition retrieve_memories (svc : Services F) (settings : Settings)
    (db : gmap string (list (row F))) (payload : MemoryRetrieveRequest F)
  : result (list (MemoryRetrieveResult F)) :=
  if String.eqb (strip (query payload)) "" then
    Raise (HTTPException 400 "Query text is required.")
  else
    let table := memory_table_name settings in
    match (embedding ← generate_embedding svc settings
                         (code_points (query payload));
           search_embeddings svc settings db table embedding (top_k payload))
    with
    | Raise (ValueError msg) => Raise (HTTPException 400 msg)
    | Raise _ => Raise (HTTPException 502 "Vector search is unavailable.")
    | Ok results =>
        Ok (map to_result
              (List.filter (clears (min_similarity payload)) results))
    end.

(** The endpoint: a request that violates the model is answered 422
    and never reaches the handler. *)
Definition post_retrieve (svc : Services F) (settings : Settings)
    (db : gmap string (list (row F))) (payload : MemoryRetrieveRequest F)
  : result (list (MemoryRetrieveResult F)) :=
  if valid_request payload then retrieve_memories svc settings db payload
  else Raise (HTTPException 422 "Unprocessable Entity").
End Route.

(** The pieces of an identifier that [_identifier_parts] keeps: the
    pieces between the dots that are not blank. *)
Definition nonblank_parts (name : string) : list string :=
  List.filter (fun part => negb (String.eqb (strip part) "")) (split_dot name).

(** The allow-pattern in the words of the specification: an identifier
    is outside of it when it contains a character other than
    [A-Za-z0-9_] and the dot, or more than one dot. *)
Definition outside_allow_pattern (name : string) : Prop :=
  (exists c, In c (list_ascii_of_string name)
             /\ c <> "."%char /\ is_word_char c = false)
  \/ (1 < count_occ ascii_dec (list_ascii_of_string name) "."%char)%nat.

(** The server honours [LIMIT]: the nearest-neighbour query never
    answers more rows than asked for. *)
Definition pg_limit_respected {F : Type} (svc : Services F) : Prop :=
  forall table embedding k rows,
    0 <= k -> pg_fetchall svc table embedding k = Ok rows ->
    Z.of_nat (length rows) <= k.

(** ** The retry decorator: [supabase_client.retry]

    The wrapped function acts on a world [W] (the network, the server)
    and returns or raises.  What the decorator itself does to the
    outside is recorded in a trace: the calls of [time.sleep], with
    the seconds slept, and the two kinds of log record.  Delays are
    exact rationals; [0.5 * 2 ** attempt] is computed without rounding
    in binary64 as well. *)

Inductive effect : Type :=
| Sleep (seconds : Q)
| LogWarning (attempt times : Z) (wait_time : Q) (e : exn)
| LogError (times : Z) (e : exn).

(** How a call of the decorated function ends.  With [times <= 0] the
    loop body never runs and the function falls off its end. *)
Inductive outcome (A : Type) : Type :=
| Returned (a : A)
| Raised (e : exn)
| ReturnedNone.
Arguments Returned {A} a.
Arguments Raised {A} e.
Arguments ReturnedNone {A}.

Section Retry.
Context {W A : Type}.

(** The loop [for attempt in range(times)], from [attempt] on, with
    [remaining] iterations to go. *)
Fixpoint retry_loop (times : Z) (delay : Q) (fn : W -> result A * W)
    (remaining : nat) (attempt : Z) (last_exception : option exn)
    (w : W) (trace : list effect) : outcome A * W * list effect :=
  match remaining with
  | O =>
      (match last_exception with
       | Some e => Raised e
       | None => ReturnedNone
       end, w, trace)
  | S remaining' =>
      match fn w with
      | (Ok a, w') => (Returned a, w', trace)
      | (Raise e, w') =>
          if attempt <? times - 1 then
            let wait_time := (delay * inject_Z (2 ^ attempt))%Q in
            retry_loop times delay fn remaining' (attempt + 1) (Some e) w'
              (trace ++ [LogWarning (attempt + 1) times wait_time e;
                         Sleep wait_time])
          else
            retry_loop times delay fn remaining' (attempt + 1) (Some e) w'
              (trace ++ [LogError times e])
      end
  end.

Definition retry (times : Z) (delay : Q) (fn : W -> result A * W) (w : W)
  : outcome A * W * list effect :=
  retry_loop times delay fn (Z.to_nat times) 0 None w [].

(** [consecutive_failures fn w es w']: called again and again from
    [w], [fn] raises the exceptions [es], in this order, and leaves
    the world [w']. *)
Inductive consecutive_failures (fn : W -> result A * W)
  : W -> list exn -> W -> Prop :=
| failures_none (w : W) : consecutive_failures fn w [] w
| failures_more (w w1 w' : W) (e : exn) (es : list exn) :
    fn w = (Raise e, w1) ->
    consecutive_failures fn w1 es w' ->
    consecutive_failures fn w (e :: es) w'.
End Retry.

(** The seconds slept, in order. *)
Fixpoint sleeps (trace : list effect) : list Q :=
  match trace with
  | [] => []
  | Sleep s :: trace' => s :: sleeps trace'
  | _ :: trace' => sleeps trace'
  end.

(** [backoff delay attempt n]: the delays
    [delay * 2 ** attempt, ..., delay * 2 ** (attempt + n - 1)]. *)
Fixpoint backoff (delay : Q) (attempt : Z) (n : nat) : list Q :=
  match n with
  | O => []
  | S n' => (delay * inject_Z (2 ^ attempt))%Q :: backoff delay (attempt + 1) n'
  end.

(** ** Data for the worked examples *)

Definition offline_settings : Settings :=
  {| openai_api_key := None;
     offline_mode := true;
     database_url := None;
     memory_table := None;
     embedding_model := "text-embedding-3-small";
     supabase_table_memory := "ti_memory" |}.

(** Services that are up and have nothing stored. *)
Definition quiet_services (F : Type) : Services F :=
  {| openai_embeddings := fun _ _ => Raise (RuntimeError "no provider");
     pg_fetchone := fun _ _ _ _ => Ok None;
     pg_fetchall := fun _ _ _ => Ok [] |}.

(** Three memories, stored one after the other at the times 100, 200
    and 300; the first two have the same vector. *)
Definition demo_rows {F : Type} (zero one : F) : list (row F) :=
  [ Row "a" "kia ora" "{}" (Some [one; zero]) 100;
    Row "b" "kia ora" "{}" (Some [one; zero]) 200;
    Row "c" "hello" "{}" (Some [zero; one]) 300 ].

Definition demo_db : gmap string (list (row float)) :=
  {[ "ti_memory" := demo_rows 0%float 1%float ]}.

(** A function that fails on its first two calls and answers the
    number of the call from then on; the world is the count of calls. *)
Definition flaky (calls : nat) : result nat * nat :=
  if (calls <? 2)%nat
  then (Raise (RuntimeError "connection reset"), S calls)
  else (Ok calls, S calls).

(** Three texts, embedded offline and stored in this order, in the
    arithmetic [F]. *)
Section Memories.
Context {F : Type} `{PyFloat F}.

Definition offline_vector (text : string) : list F :=
  match generate_embedding (quiet_services F) offline_settings
          (code_points text) with
  | Ok v => v
  | Raise _ => []
  end.

Definition memorise (db : gmap string (list (row F)))
    (item : string * string * Z) : gmap string (list (row F)) :=
  match store_embedding db "ti_memory" (snd (fst item))
          (offline_vector (snd (fst item))) None (fst (fst item)) (snd item)
  with
  | Ok stored => fst stored
  | Raise _ => db
  end.

Definition memory_db : gmap string (list (row F)) :=
  fold_left memorise
    [("m1", "kia ora", 100); ("m2", "hello", 200); ("m3", "kia ora koutou", 300)]
    (∅ : gmap string (list (row F))).
End Memories.






(** Three memories stored within one second. *)
Definition same_second_db : gmap string (list (row float)) :=
  fold_left memorise
    [("a", "first", 100); ("b", "second", 100); ("c", "third", 100)]
    (∅ : gmap string (list (row float))).

(** ** Further vocabulary for the local store *)

(** The record has a vector: [top_k_embeddings] scores it. *)
Definition has_vector {F : Type} (r : row F) : bool :=
  match embedding r with
  | Some _ => true
  | None => false
  end.

(** The record's vector and the query are both non-empty and differ in
    length. *)
Definition mismatched {F : Type} (q : list F) (r : row F) : bool :=
  match embedding r with
  | Some v => negb (is_empty q) && negb (is_empty v)
              && negb (length q =? length v)%nat
  | None => false
  end.

(** The message of the length check of [cosine_similarity]. *)
Definition length_mismatch : exn :=
  ValueError "Vectors must be the same length for cosine similarity.".

(** ** Further vocabulary for identifiers *)

(** A part that can be quoted as an identifier without surprise: a
    letter or an underscore, followed by letters, digits and
    underscores only. *)
Definition clean_part (part : string) : bool :=
  match list_ascii_of_string part with
  | [] => false
  | c :: l => is_alpha_or_underscore c && forallb is_word_char l
  end.

(** The table named by a statement. *)
Definition statement_table {F : Type} (stmt : sql_statement F) : list string :=
  match stmt with
  | InsertEmbedding table _ _ _ => table
  | SelectNearest table _ _ => table
  end.

(** ** Further vocabulary for the retry decorator *)

(** The seconds slept in all. *)
Definition total_sleep (trace : list effect) : Q :=
  fold_right Qplus 0%Q (sleeps trace).

(** ** Further vocabulary for the route *)

(** What the handler of [/retrieve] makes of an exception of the
    embedding provider or of the store. *)
Definition http_error (e : exn) : exn :=
  match e with
  | ValueError msg => HTTPException 400 msg
  | _ => HTTPException 502 "Vector search is unavailable."
  end.

(** ** The Supabase gateway: [supabase_client.py]

    The module keeps one client per project in two globals, reads the
    credentials from the environment and talks to the server through
    the client's query builder.  The globals are threaded as a value
    of [Clients], the server is a world [W] on which [execute] acts,
    and what the retry decorator does to the outside is returned as a
    trace; the module's own log records are left out. *)

(** [c.lower()] on the ASCII letters.  No other character becomes a
    letter of ["den"] or ["tepuna"] under [str.lower]. *)
Definition lower_char (c : ascii) : ascii :=
  let n := code c in
  if ((65 <=? n) && (n <=? 90))%N then ascii_of_N (n + 32) else c.

Definition lower (s : string) : string :=
  string_of_list_ascii (map lower_char (list_ascii_of_string s)).

(** [s.split(".", 1)] for an [s] that holds a dot. *)
Fixpoint split_first_dot (l : list ascii) : option (list ascii * list ascii) :=
  match l with
  | [] => None
  | c :: l' =>
      if Ascii.eqb c "."%char then Some ([], l')
      else match split_first_dot l' with
           | Some (p, t) => Some (c :: p, t)
           | None => None
           end
  end.

Module supabase_client.

(** A row as the server hands it out: a JSON object, as its list of
    keys and values. *)
Definition Rec : Type := list (string * string).

Inductive data_value : Type :=
| Rows (rows : list Rec)
| Single (record : Rec).

Record SupabaseResponse : Type := {
  data : option data_value;
  count : Z;
  error : option string;
  ok : bool
}.

(** The constructor of the dataclass, [__post_init__] included. *)
Definition response (data : option data_value) (count : Z)
    (error : option string) (ok : bool) : SupabaseResponse :=
  {| data := data; count := count; error := error;
     ok := if falsy_str error then ok else false |}.

Record Client : Type := {
  supabase_url : string;
  supabase_key : string
}.

(** The globals [_den_client] and [_tepuna_client]. *)
Record Clients : Type := {
  _den_client : option Client;
  _tepuna_client : option Client
}.

(** What a query builder sends on [execute()]. *)
Inductive request : Type :=
| SelectRows (client : Client) (table select : string) (limit : Z)
| InsertRow (client : Client) (table : string) (record : Rec)
| SelectLatest (client : Client) (table : string).

Section Operations.
Context {W : Type}.
Variable getenv : string -> option string.
Variable create_client : string -> string -> result Client.
(* [....execute().data]; a failed request raises *)
Variable execute : request -> W -> result (list Rec) * W.
(* [str(e)] *)
Variable str : exn -> string.

Definition get_supabase_client (project : string) (g : Clients)
  : option Client * Clients :=
  if String.eqb (lower project) "den" then
    match _den_client g with
    | Some client => (Some client, g)
    | None =>
        let url := getenv "DEN_URL" in
        let key := getenv "DEN_API_KEY" in
        if falsy_str url || falsy_str key then (None, g)
        else
          match create_client (default "" url) (default "" key) with
          | Ok client =>
              (Some client,
               {| _den_client := Some client;
                  _tepuna_client := _tepuna_client g |})
          | Raise _ => (None, g)
          end
    end
  else if String.eqb (lower project) "tepuna" then
    match _tepuna_client g with
    | Some client => (Some client, g)
    | None =>
        let url := getenv "TEPUNA_URL" in
        let key := getenv "TEPUNA_API_KEY" in
        if falsy_str url || falsy_str key then (None, g)
        else
          match create_client (default "" url) (default "" key) with
          | Ok client =>
              (Some client,
               {| _den_client := _den_client g;
                  _tepuna_client := Some client |})
          | Raise _ => (None, g)
          end
    end
  else (None, g).

(** [x or []] for a list. *)
Definition or_empty {A : Type} (l : list A) : list A :=
  match l with
  | [] => []
  | _ => l
  end.

Definition _query_table_impl (client : Client) (table select : string)
    (limit : Z) : W -> outcome (list Rec * Z) * W * list effect :=
  retry 3 (1 # 2)
    (fun w =>
       let '(r, w') := execute (SelectRows client table select limit) w in
       (rows ← r; Ok (rows, Z.of_nat (length rows)), w')).

Definition _insert_record_impl (client : Client) (table : string)
    (record : Rec) : W -> outcome (list Rec) * W * list effect :=
  retry 3 (1 # 2) (execute (InsertRow client table record)).

Definition _fetch_records_impl (client : Client) (table select : string)
    (limit : Z) : W -> outcome (list Rec) * W * list effect :=
  retry 3 (1 # 2)
    (fun w =>
       let '(r, w') := execute (SelectRows client table select limit) w in
       (rows ← r; Ok (or_empty rows), w')).

Definition _fetch_latest_impl (client : Client) (table : string)
  : W -> outcome (option Rec) * W * list effect :=
  retry 3 (1 # 2)
    (fun w =>
       let '(r, w') := execute (SelectLatest client table) w in
       (rows ← r; Ok (head (or_empty rows)), w')).

(** The four operations return the response, the globals, the world
    and the trace of the decorator.  A decorated function that falls
    off its end hands out [None], on which the caller fails or goes
    on as Python does. *)
Definition query_table (project table select : string) (limit : Z)
    (g : Clients) (w : W)
  : SupabaseResponse * Clients * W * list effect :=
  let '(client, g') := get_supabase_client project g in
  match client with
  | None =>
      (response None 0
         (Some ("Client for project '" ++ project ++ "' not available")%string)
         true, g', w, [])
  | Some client =>
      let failed (msg : string) :=
        response None 0
          (Some ("Query failed on " ++ project ++ "." ++ table ++ ": "
                 ++ msg)%string) false in
      match _query_table_impl client table select limit w with
      | (Returned (rows, n), w', trace) =>
          (response (Some (Rows rows)) n None true, g', w', trace)
      | (Raised e, w', trace) => (failed (str e), g', w', trace)
      | (ReturnedNone, w', trace) =>
          (failed "cannot unpack non-iterable NoneType object", g', w', trace)
      end
  end.

Definition insert_record (project table : string) (record : Rec)
    (g : Clients) (w : W)
  : SupabaseResponse * Clients * W * list effect :=
  let '(client, g') := get_supabase_client project g in
  match client with
  | None =>
      (response None 0
         (Some ("Client for project '" ++ project ++ "' not available")%string)
         true, g', w, [])
  | Some client =>
      match _insert_record_impl client table record w with
      | (Returned rows, w', trace) =>
          (response (Some (Rows rows)) (if is_empty rows then 0 else 1)
             None true, g', w', trace)
      | (Raised e, w', trace) =>
          (response None 0
             (Some ("Insert failed on " ++ project ++ "." ++ table ++ ": "
                    ++ str e)%string) false, g', w', trace)
      | (ReturnedNone, w', trace) => (response None 0 None true, g', w', trace)
      end
  end.

Definition fetch_records (project table select : string) (limit : Z)
    (g : Clients) (w : W)
  : SupabaseResponse * Clients * W * list effect :=
  let '(client, g') := get_supabase_client project g in
  let unavailable :=
    response (Some (Rows [])) 0
      (Some ("Cannot fetch from " ++ project ++ "." ++ table
             ++ ": client unavailable or table empty")%string) false in
  match client with
  | None => (unavailable, g', w, [])
  | Some client =>
      if String.eqb table "" then (unavailable, g', w, [])
      else
        let failed (msg : string) :=
          response (Some (Rows [])) 0
            (Some ("Fetch failed on " ++ project ++ "." ++ table ++ ": "
                   ++ msg)%string) false in
        match _fetch_records_impl client table select limit w with
        | (Returned rows, w', trace) =>
            (response (Some (Rows rows)) (Z.of_nat (length rows)) None true,
             g', w', trace)
        | (Raised e, w', trace) => (failed (str e), g', w', trace)
        | (ReturnedNone, w', trace) =>
            (failed "object of type 'NoneType' has no len()", g', w', trace)
        end
  end.

Definition fetch_latest (table_path : string) (g : Clients) (w : W)
  : SupabaseResponse * Clients * W * list effect :=
  let '(project, table) :=
    match split_first_dot (list_ascii_of_string table_path) with
    | Some (p, t) => (string_of_list_ascii p, string_of_list_ascii t)
    | None => ("den", table_path)
    end in
  let '(client, g') := get_supabase_client project g in
  let unavailable :=
    response None 0
      (Some ("Cannot fetch latest from " ++ table_path
             ++ ": client unavailable")%string) false in
  match client with
  | None => (unavailable, g', w, [])
  | Some client =>
      if String.eqb table "" then (unavailable, g', w, [])
      else
        match _fetch_latest_impl client table w with
        | (Returned (Some record), w', trace) =>
            if is_empty record then (response None 0 None true, g', w', trace)
            else (response (Some (Single record)) 1 None true, g', w', trace)
        | (Returned None, w', trace) | (ReturnedNone, w', trace) =>
            (response None 0 None true, g', w', trace)
        | (Raised e, w', trace) =>
            (response None 0
               (Some ("Fetch latest failed on " ++ table_path ++ ": "
                      ++ str e)%string) false, g', w', trace)
        end
  end.

(** The route [GET /] of [routes/memory.py].  Its one argument is
    bound to the first parameter of [fetch_records], the project;
    [fetch_records] hands out a response and raises nothing, so the
    handler of the exception is never entered. *)
Definition list_memories (settings : Settings) (g : Clients) (w : W)
  : SupabaseResponse * Clients * W * list effect :=
  let table :=
    if negb (String.eqb (supabase_table_memory settings) "")
    then supabase_table_memory settings else "ti_memory" in
  fetch_records table "" "*" 100 g w.
End Operations.
End supabase_client.

(** ** Further data for the worked examples *)

(** Settings of the live path, with no credentials at all. *)
Definition live_settings : Settings :=
  {| openai_api_key := None;
     offline_mode := false;
     database_url := None;
     memory_table := None;
     embedding_model := "text-embedding-3-small";
     supabase_table_memory := "ti_memory" |}.

(** An environment with the credentials of the project [den] only, a
    [create_client] that always succeeds, and a server that fails the
    first two requests and answers one row from then on; the world is
    the count of requests. *)
Definition demo_env (name : string) : option string :=
  if String.eqb name "DEN_URL" then Some "https://den.example"
  else if String.eqb name "DEN_API_KEY" then Some "den-key"
  else None.

Definition demo_create_client (url key : string)
  : result supabase_client.Client :=
  Ok {| supabase_client.supabase_url := url;
        supabase_client.supabase_key := key |}.

Definition no_clients : supabase_client.Clients :=
  {| supabase_client._den_client := None;
     supabase_client._tepuna_client := None |}.

Definition den_cached : supabase_client.Clients :=
  snd (supabase_client.get_supabase_client demo_env demo_create_client
         "DEN" no_clients).

Definition flaky_server (req : supabase_client.request) (requests : nat)
  : result (list supabase_client.Rec) * nat :=
  if (requests <? 2)%nat
  then (Raise (RuntimeError "connection reset"), S requests)
  else (Ok [[("id", "1"); ("content", "kia ora")]], S requests).

Definition demo_str (e : exn) : string :=
  match e with
  | ValueError msg | RuntimeError msg | IntegrityError msg => msg
  | HTTPException _ detail => detail
  end.

(** ** The rank of a binary64 number

    A number is ranked by a triple of integers: its class (negative
    infinity, negative, zero, positive, positive infinity), then its
    exponent and its mantissa, negated for a negative number. *)

Definition float_rank (x : spec_float) : Z * Z * Z :=
  match x with
  | S754_nan => (0, 0, 0)
  | S754_zero _ => (0, 0, 0)
  | S754_infinity true => (-2, 0, 0)
  | S754_infinity false => (2, 0, 0)
  | S754_finite true m e => (-1, - e, - Z.pos m)
  | S754_finite false m e => (1, e, Z.pos m)
  end.

Definition rank_compare (r1 r2 : Z * Z * Z) : comparison :=
  match fst (fst r1) ?= fst (fst r2) with
  | Eq =>
      match snd (fst r1) ?= snd (fst r2) with
      | Eq => snd r1 ?= snd r2
      | c => c
      end
  | c => c
  end.

Definition rank_lt (r1 r2 : Z * Z * Z) : Prop :=
  fst (fst r1) < fst (fst r2)
  \/ (fst (fst r1) = fst (fst r2)
      /\ (snd (fst r1) < snd (fst r2)
          \/ (snd (fst r1) = snd (fst r2) /\ snd r1 < snd r2))).

Definition SF_is_nan (x : spec_float) : bool :=
  match x with
  | S754_nan => true
  | _ => false
  end.

(** ** Properties of [cosine_similarity] *)

Section SimilarityFacts.
Context {F : Type} `{PyFloat F}.

Lemma cosine_similarity_empty_l (b : list F) : cosine_similarity [] b = Ok f0.
Proof. reflexivity. Qed.

Lemma cosine_similarity_empty_r (a : list F) : cosine_similarity a [] = Ok f0.
Proof. destruct a; reflexivity. Qed.

(** C6 (amended): two non-empty vectors of different lengths raise the
    [ValueError] of the length check; when one of the two vectors is
    empty the guard in front of the length check answers [0.0]. *)
Theorem cosine_similarity_length_mismatch (a b : list F) :
  length a <> length b ->
  (a <> [] -> b <> [] ->
   cosine_similarity a b =
   Raise (ValueError "Vectors must be the same length for cosine similarity."))
  /\ (a = [] \/ b = [] -> cosine_similarity a b = Ok f0).
Proof.
  intros Hlen. split.
  - intros Ha Hb. unfold cosine_similarity.
    destruct a as [|x a]; [congruence|]. destruct b as [|y b]; [congruence|].
    cbn [is_empty orb].
    destruct (Nat.eqb_spec (length (x :: a)) (length (y :: b))); [contradiction|].
    reflexivity.
  - intros [-> | ->]; [apply cosine_similarity_empty_l | apply cosine_similarity_empty_r].
Qed.
End SimilarityFacts.

(** ** Facts about stable sorting *)


Lemma precedes_cons {A : Type} (a b x : A) (l : list A) :
  precedes a b l -> precedes a b (x :: l).
Proof.
  intros (l1 & l2 & l3 & ->). exists (x :: l1), l2, l3. reflexivity.
Qed.

Lemma precedes_head {A : Type} (a b : A) (l : list A) :
  In b l -> precedes a b (a :: l).
Proof.
  intros Hin. apply in_split in Hin as (l2 & l3 & ->).
  exists [], l2, l3. reflexivity.
Qed.

Lemma precedes_inv {A : Type} (a b x : A) (l : list A) :
  precedes a b (x :: l) -> (a = x /\ In b l) \/ precedes a b l.
Proof.
  intros (l1 & l2 & l3 & Heq). destruct l1 as [|y l1]; simpl in Heq.
  - injection Heq as -> ->. left. split; [reflexivity|].
    apply in_or_app. right. left. reflexivity.
  - injection Heq as -> ->. right. exists l1, l2, l3. reflexivity.
Qed.

Lemma precedes_in_r {A : Type} (a b : A) (l : list A) :
  precedes a b l -> In b l.
Proof.
  intros (l1 & l2 & l3 & ->). apply in_or_app. right. right.
  apply in_or_app. right. left. reflexivity.
Qed.

Lemma precedes_map {A B : Type} (f : A -> B) (a b : A) (l : list A) :
  precedes a b l -> precedes (f a) (f b) (map f l).
Proof.
  intros (l1 & l2 & l3 & ->). exists (map f l1), (map f l2), (map f l3).
  rewrite map_app. simpl. rewrite map_app. reflexivity.
Qed.

Lemma in_firstn {A : Type} (x : A) (n : nat) (l : list A) :
  In x (firstn n l) -> In x l.
Proof.
  intros Hin. rewrite <- (firstn_skipn n l). apply in_or_app. left. exact Hin.
Qed.

Lemma in_skipn {A : Type} (x : A) (n : nat) (l : list A) :
  In x (skipn n l) -> In x l.
Proof.
  intros Hin. rewrite <- (firstn_skipn n l). apply in_or_app. right. exact Hin.
Qed.

Section StableSortFacts.
Context {A : Type} (lt : A -> A -> bool).

Lemma insert_desc_perm (x : A) (l : list A) :
  Permutation (insert_desc lt x l) (x :: l).
Proof.
  induction l as [|y l IH]; simpl; [reflexivity|].
  destruct (lt x y); [|reflexivity].
  rewrite IH. apply perm_swap.
Qed.

Lemma sort_desc_perm (l : list A) : Permutation (sort_desc lt l) l.
Proof.
  induction l as [|x l IH]; simpl; [reflexivity|].
  rewrite insert_desc_perm. apply perm_skip, IH.
Qed.

Lemma sort_desc_length (l : list A) : length (sort_desc lt l) = length l.
Proof. apply Permutation_length, sort_desc_perm. Qed.

Lemma sort_desc_in (x : A) (l : list A) : In x (sort_desc lt l) <-> In x l.
Proof.
  split; apply Permutation_in; [|symmetry]; apply sort_desc_perm.
Qed.

(** Inserting keeps the order of the elements that were there. *)
Lemma insert_desc_precedes_old (x a b : A) (l : list A) :
  precedes a b l -> precedes a b (insert_desc lt x l).
Proof.
  induction l as [|y l IH]; simpl; intros Hp.
  - destruct Hp as (l1 & l2 & l3 & Heq). destruct l1; discriminate Heq.
  - destruct (lt x y).
    + apply precedes_inv in Hp as [[-> Hin] | Hp].
      * apply precedes_head. apply (Permutation_in b (l := x :: l)).
        -- symmetry. apply insert_desc_perm.
        -- right. exact Hin.
      * apply precedes_cons, IH, Hp.
    + apply precedes_cons, Hp.
Qed.

(** The inserted element lands in front of every element that it is
    not smaller than. *)
Lemma insert_desc_precedes_new (x b : A) (l : list A) :
  In b l -> lt x b = false -> precedes x b (insert_desc lt x l).
Proof.
  induction l as [|y l IH]; simpl; intros Hin Hlt; [contradiction|].
  destruct (lt x y) eqn:Hxy.
  - destruct Hin as [-> | Hin]; [congruence|].
    apply precedes_cons, IH; assumption.
  - apply precedes_head. exact Hin.
Qed.

(** Stability: sorting never moves an element behind a later element
    that is not greater than it. *)
Lemma sort_desc_stable (a b : A) (l : list A) :
  precedes a b l -> lt a b = false -> precedes a b (sort_desc lt l).
Proof.
  induction l as [|x l IH]; intros Hp Hlt.
  - destruct Hp as (l1 & l2 & l3 & Heq). destruct l1; discriminate Heq.
  - simpl. apply precedes_inv in Hp as [[-> Hin] | Hp].
    + apply insert_desc_precedes_new; [|exact Hlt].
      apply sort_desc_in, Hin.
    + apply insert_desc_precedes_old, IH; assumption.
Qed.

(** With a strict weak order the result is sorted. *)

Hypothesis lt_asym : forall x y, lt x y = true -> lt y x = false.
Hypothesis ge_trans : forall x y z,
  lt x y = false -> lt y z = false -> lt x z = false.

Lemma insert_desc_sorted (x : A) (l : list A) :
  StronglySorted (not_less lt) l -> StronglySorted (not_less lt) (insert_desc lt x l).
Proof.
  induction 1 as [|y l Hs IH Hy]; simpl.
  - constructor; constructor.
  - destruct (lt x y) eqn:Hxy.
    + constructor; [exact IH|].
      eapply Permutation_Forall.
      * symmetry. apply insert_desc_perm.
      * constructor; [apply lt_asym, Hxy | exact Hy].
    + constructor; [constructor; assumption|].
      constructor; [exact Hxy|].
      eapply List.Forall_impl; [|exact Hy].
      intros z Hz. eapply ge_trans; [exact Hxy | exact Hz].
Qed.

Lemma sort_desc_sorted (l : list A) : StronglySorted (not_less lt) (sort_desc lt l).
Proof.
  induction l as [|x l IH]; simpl; [constructor | apply insert_desc_sorted, IH].
Qed.

(** In a sorted list an element comes before every strictly smaller one. *)
Lemma sorted_precedes (a b : A) (l : list A) :
  StronglySorted (not_less lt) l -> In a l -> In b l -> lt b a = true ->
  precedes a b l.
Proof.
  induction 1 as [|y l Hs IH Hy]; intros Ha Hb Hlt; [contradiction|].
  destruct Ha as [-> | Ha].
  - destruct Hb as [-> | Hb].
    + pose proof (lt_asym _ _ Hlt). congruence.
    + apply precedes_head, Hb.
  - destruct Hb as [-> | Hb].
    + rewrite List.Forall_forall in Hy. specialize (Hy a Ha).
      unfold not_less in Hy. congruence.
    + apply precedes_cons, IH; assumption.
Qed.

(** On a sorted list, keeping the elements that are not below a
    threshold commutes with taking a prefix. *)
Lemma sorted_filter_firstn (keep : A -> bool) (n : nat) (l : list A) :
  StronglySorted (not_less lt) l ->
  (forall x y, not_less lt x y -> keep y = true -> keep x = true) ->
  List.filter keep (firstn n l) = firstn n (List.filter keep l).
Proof.
  intros Hs Hup. revert n. induction Hs as [|y l Hs IH Hy]; intros n.
  - destruct n; reflexivity.
  - destruct n as [|n]; [reflexivity|]. simpl.
    destruct (keep y) eqn:Hk.
    + simpl. f_equal. apply IH.
    + assert (Hnone : forall l', Forall (not_less lt y) l' -> List.filter keep l' = []).
      { induction 1 as [|z l' Hz _ IH']; simpl; [reflexivity|].
        destruct (keep z) eqn:Hkz; [|exact IH'].
        rewrite (Hup _ _ Hz Hkz) in Hk. discriminate Hk. }
      rewrite (Hnone l Hy).
      rewrite (Hnone (firstn n l)).
      * destruct n; reflexivity.
      * apply List.Forall_forall. intros z Hz. rewrite List.Forall_forall in Hy.
        apply Hy. eapply in_firstn; eauto.
Qed.
End StableSortFacts.


(** ** Sorting keys that are numbers

    Where the comparison is an order only on the elements that
    satisfy [P], as [<] of binary64 is on the numbers, a list of such
    elements is sorted by [sort_desc], and every list that is a stable
    sort of it in descending order is the list [sort_desc] returns. *)

Lemma precedes_total {A : Type} (a b : A) (l : list A) :
  In a l -> In b l -> a <> b -> precedes a b l \/ precedes b a l.
Proof.
  induction l as [|x l IH]; intros Ha Hb Hne; [contradiction|].
  destruct Ha as [-> | Ha], Hb as [-> | Hb].
  - contradiction.
  - left. apply precedes_head, Hb.
  - right. apply precedes_head, Ha.
  - destruct (IH Ha Hb Hne) as [Hp | Hp]; [left | right];
      apply precedes_cons, Hp.
Qed.

Lemma precedes_in_l {A : Type} (a b : A) (l : list A) :
  precedes a b l -> In a l.
Proof.
  intros (l1 & l2 & l3 & ->). apply in_or_app. right. left. reflexivity.
Qed.

Lemma precedes_nodup {A : Type} (a b : A) (l : list A) :
  List.NoDup l -> precedes a b l -> a <> b /\ ~ precedes b a l.
Proof.
  induction 1 as [|x l Hx Hnd IH]; intros Hp.
  - destruct Hp as (l1 & l2 & l3 & Heq). destruct l1; discriminate Heq.
  - apply precedes_inv in Hp as [[-> Hb] | Hp].
    + split; [intros <-; contradiction|].
      intros Hq. apply precedes_inv in Hq as [[-> Hin] | Hq].
      * contradiction.
      * apply precedes_in_r in Hq. contradiction.
    + destruct (IH Hp) as [Hne Hnot]. split; [exact Hne|].
      intros Hq. apply precedes_inv in Hq as [[-> Hin] | Hq].
      * apply precedes_in_r in Hp. contradiction.
      * contradiction.
Qed.

Lemma sorted_pairs {A : Type} (R : A -> A -> Prop) (a b : A) (l : list A) :
  StronglySorted R l -> precedes a b l -> R a b.
Proof.
  induction 1 as [|x l Hs IH Hx]; intros Hp.
  - destruct Hp as (l1 & l2 & l3 & Heq). destruct l1; discriminate Heq.
  - apply precedes_inv in Hp as [[-> Hb] | Hp].
    + rewrite List.Forall_forall in Hx. apply Hx, Hb.
    + apply IH, Hp.
Qed.

(** Two lists with the same elements, each ordered by one relation
    that never holds both ways, are one list. *)
Lemma ordered_perm_unique {A : Type} (R : A -> A -> Prop) (l1 l2 : list A) :
  (forall a b, R a b -> R b a -> False) ->
  (forall a b, precedes a b l1 -> R a b) ->
  (forall a b, precedes a b l2 -> R a b) ->
  Permutation l1 l2 -> l1 = l2.
Proof.
  intros Hasym. revert l2. induction l1 as [|a l1 IH]; intros l2 H1 H2 Hperm.
  - apply Permutation_nil in Hperm. symmetry. exact Hperm.
  - destruct l2 as [|b l2].
    { symmetry in Hperm. apply Permutation_nil in Hperm. discriminate Hperm. }
    assert (Hab : a = b).
    { assert (Ha : In a (b :: l2))
        by (eapply Permutation_in; [exact Hperm | left; reflexivity]).
      assert (Hb : In b (a :: l1))
        by (eapply Permutation_in; [symmetry; exact Hperm | left; reflexivity]).
      destruct Ha as [-> | Ha]; [reflexivity|].
      destruct Hb as [-> | Hb]; [reflexivity|].
      exfalso. apply (Hasym a b).
      - apply H1, precedes_head, Hb.
      - apply H2, precedes_head, Ha. }
    subst b. f_equal. apply IH.
    + intros x y Hp. apply H1, precedes_cons, Hp.
    + intros x y Hp. apply H2, precedes_cons, Hp.
    + eapply Permutation_cons_inv. exact Hperm.
Qed.

Section StableSortOn.
Context {A : Type} (lt : A -> A -> bool) (P : A -> Prop).
Hypothesis lt_asym : forall x y, lt x y = true -> lt y x = false.
Hypothesis ge_trans_on : forall x y z, P x -> P y -> P z ->
  lt x y = false -> lt y z = false -> lt x z = false.

Lemma insert_desc_sorted_on (x : A) (l : list A) :
  P x -> Forall P l ->
  StronglySorted (not_less lt) l ->
  StronglySorted (not_less lt) (insert_desc lt x l).
Proof.
  intros Hx Hl. induction 1 as [|y l Hs IH Hy]; simpl.
  - constructor; constructor.
  - apply Forall_cons_iff in Hl as [HPy HPl].
    destruct (lt x y) eqn:Hxy.
    + constructor; [exact (IH HPl)|].
      eapply Permutation_Forall.
      * symmetry. apply insert_desc_perm.
      * constructor; [apply lt_asym, Hxy | exact Hy].
    + constructor; [constructor; assumption|].
      constructor; [exact Hxy|].
      apply List.Forall_forall. intros z Hz.
      rewrite List.Forall_forall in Hy, HPl.
      eapply (ge_trans_on x y z); auto. apply Hy, Hz.
Qed.

Lemma sort_desc_sorted_on (l : list A) :
  Forall P l -> StronglySorted (not_less lt) (sort_desc lt l).
Proof.
  induction 1 as [|x l Hx Hl IH]; simpl; [constructor|].
  apply insert_desc_sorted_on; [exact Hx | | exact IH].
  eapply Permutation_Forall; [symmetry; apply sort_desc_perm | exact Hl].
Qed.

(** On a sorted list of such elements, keeping the elements that are
    not below a threshold commutes with taking a prefix. *)
Lemma sorted_filter_firstn_on (keep : A -> bool) (n : nat) (l : list A) :
  Forall P l ->
  StronglySorted (not_less lt) l ->
  (forall x y, P x -> P y -> not_less lt x y -> keep y = true -> keep x = true) ->
  List.filter keep (firstn n l) = firstn n (List.filter keep l).
Proof.
  intros HP Hs Hup. revert n HP. induction Hs as [|y l Hs IH Hy]; intros n HP.
  - destruct n; reflexivity.
  - apply Forall_cons_iff in HP as [HPy HPl].
    destruct n as [|n]; [reflexivity|]. simpl.
    destruct (keep y) eqn:Hk.
    + simpl. f_equal. apply IH, HPl.
    + assert (Hnone : forall l', Forall P l' -> Forall (not_less lt y) l' ->
                                 List.filter keep l' = []).
      { intros l' HP'. induction 1 as [|z l' Hz _ IH']; simpl; [reflexivity|].
        apply Forall_cons_iff in HP' as [HPz HP'].
        destruct (keep z) eqn:Hkz; [|exact (IH' HP')].
        rewrite (Hup _ _ HPy HPz Hz Hkz) in Hk. discriminate Hk. }
      rewrite (Hnone l HPl Hy).
      rewrite (Hnone (firstn n l)).
      * destruct n; reflexivity.
      * apply List.Forall_forall. intros z Hz. rewrite List.Forall_forall in HPl.
        apply HPl. eapply in_firstn; eauto.
      * apply List.Forall_forall. intros z Hz. rewrite List.Forall_forall in Hy.
        apply Hy. eapply in_firstn; eauto.
Qed.

(** A list that is sorted and stable is ordered by the key and, among
    equal keys, by the place in the input. *)
Lemma stable_sort_pairs (l out : list A) (a b : A) :
  List.NoDup l -> Permutation out l ->
  StronglySorted (not_less lt) out ->
  (forall x y, precedes x y l -> lt x y = false -> precedes x y out) ->
  precedes a b out ->
  lt a b = false /\ (lt b a = true \/ precedes a b l).
Proof.
  intros Hnd Hperm Hsorted Hstable Hp.
  assert (Hnd' : List.NoDup out)
    by (eapply Permutation_NoDup; [symmetry; exact Hperm | exact Hnd]).
  destruct (precedes_nodup a b out Hnd' Hp) as [Hne Hnot].
  split; [exact (sorted_pairs _ a b out Hsorted Hp)|].
  destruct (lt b a) eqn:Hba; [left; reflexivity | right].
  destruct (precedes_total a b l) as [Hl | Hl]; try exact Hne.
  - eapply Permutation_in; [exact Hperm | eapply precedes_in_l; exact Hp].
  - eapply Permutation_in; [exact Hperm | eapply precedes_in_r; exact Hp].
  - exact Hl.
  - exfalso. apply Hnot, Hstable; assumption.
Qed.

(** The stable sort in descending order is unique. *)
Lemma stable_sort_unique (l out : list A) :
  List.NoDup l -> Forall P l -> Permutation out l ->
  StronglySorted (not_less lt) out ->
  (forall x y, precedes x y l -> lt x y = false -> precedes x y out) ->
  out = sort_desc lt l.
Proof.
  intros Hnd HP Hperm Hsorted Hstable.
  apply (ordered_perm_unique
           (fun a b => lt a b = false /\ (lt b a = true \/ precedes a b l))).
  - intros a b [Hab [Hba | Hp]] [Hba' [Hab' | Hq]]; try congruence.
    destruct (precedes_nodup a b l Hnd Hp) as [_ Hnot]. contradiction.
  - intros a b Hp. eapply stable_sort_pairs; eassumption.
  - intros a b Hp.
    apply (stable_sort_pairs l (sort_desc lt l)); try assumption.
    + apply sort_desc_perm.
    + apply sort_desc_sorted_on, HP.
    + intros x y. apply sort_desc_stable.
  - rewrite Hperm. symmetry. apply sort_desc_perm.
Qed.
End StableSortOn.

(** ** Facts about the local store *)

Lemma filter_all_true {A : Type} (f : A -> bool) (l : list A) :
  (forall x, In x l -> f x = true) -> List.filter f l = l.
Proof.
  induction l as [|x l IH]; simpl; intros Hall; [reflexivity|].
  rewrite (Hall x (or_introl eq_refl)). f_equal. apply IH.
  intros y Hy. apply Hall. right. exact Hy.
Qed.

Lemma filter_all_false {A : Type} (f : A -> bool) (l : list A) :
  (forall x, In x l -> f x = false) -> List.filter f l = [].
Proof.
  induction l as [|x l IH]; simpl; intros Hall; [reflexivity|].
  rewrite (Hall x (or_introl eq_refl)). apply IH.
  intros y Hy. apply Hall. right. exact Hy.
Qed.

Lemma filter_perm {A : Type} (f : A -> bool) (l l' : list A) :
  Permutation l l' -> Permutation (List.filter f l) (List.filter f l').
Proof.
  induction 1 as [|x l l' _ IH|x y l|l l' l'' _ IH1 _ IH2]; simpl.
  - reflexivity.
  - destruct (f x); [apply perm_skip|]; exact IH.
  - destruct (f x), (f y); try reflexivity. apply perm_swap.
  - etransitivity; eassumption.
Qed.

Lemma filter_filter {A : Type} (f g : A -> bool) (l : list A) :
  List.filter f (List.filter g l) = List.filter (fun x => g x && f x) l.
Proof.
  induction l as [|x l IH]; simpl; [reflexivity|].
  destruct (g x); simpl; [destruct (f x)|]; rewrite ?IH; reflexivity.
Qed.

Section LocalStoreFacts.
Context {F : Type}.
Implicit Types (db : gmap string (list (row F))) (rows : list (row F)).

Lemma older_asym (x y : row F) : older x y = true -> older y x = false.
Proof. unfold older. intros Hxy. apply Z.ltb_lt in Hxy. apply Z.ltb_ge. lia. Qed.

Lemma not_older_trans (x y z : row F) :
  older x y = false -> older y z = false -> older x z = false.
Proof. unfold older. rewrite !Z.ltb_ge. lia. Qed.

Lemma order_by_created_at_desc_perm rows :
  Permutation (order_by_created_at_desc rows) rows.
Proof. apply sort_desc_perm. Qed.

Lemma order_by_created_at_desc_sorted rows :
  StronglySorted (not_less older) (order_by_created_at_desc rows).
Proof. apply sort_desc_sorted; [apply older_asym | apply not_older_trans]. Qed.

(** Rows inserted at strictly increasing times are fetched in the
    reverse of their insertion order. *)
Lemma insert_desc_smallest {A : Type} (lt : A -> A -> bool) (x : A) (l : list A) :
  Forall (fun y => lt x y = true) l -> insert_desc lt x l = l ++ [x].
Proof.
  induction 1 as [|y l Hy _ IH]; simpl; [reflexivity|].
  rewrite Hy, IH. reflexivity.
Qed.

Lemma order_by_created_at_desc_increasing rows :
  StronglySorted (fun r1 r2 => created_at r1 < created_at r2) rows ->
  order_by_created_at_desc rows = rev rows.
Proof.
  unfold order_by_created_at_desc.
  induction 1 as [|x l _ IH Hx]; simpl; [reflexivity|].
  rewrite IH. apply insert_desc_smallest.
  apply List.Forall_forall. intros y Hy. apply in_rev in Hy.
  rewrite List.Forall_forall in Hx. apply Z.ltb_lt, Hx, Hy.
Qed.

Lemma fetch_records_supported db (table t : string) (limit : option Z) :
  _normalize_table_name table = Ok t ->
  fetch_records db table limit =
  Ok (if truthy limit
      then sql_limit (default 0 limit) (order_by_created_at_desc (table_rows db t))
      else order_by_created_at_desc (table_rows db t)).
Proof. intros Ht. unfold fetch_records. rewrite Ht. reflexivity. Qed.

End LocalStoreFacts.

Lemma nodup_app_disjoint {A : Type} (l1 l2 : list A) (x : A) :
  List.NoDup (l1 ++ l2) -> In x l1 -> ~ In x l2.
Proof.
  induction l1 as [|y l1 IH]; simpl; intros Hnd Hin; [contradiction|].
  inversion Hnd as [|? ? Hy Hnd']; subst.
  destruct Hin as [-> | Hin]; [|apply IH; assumption].
  intros Hx. apply Hy. apply in_or_app. right. exact Hx.
Qed.

Lemma sorted_firstn_skipn {A : Type} (R : A -> A -> Prop) (k : nat)
    (l : list A) (a b : A) :
  StronglySorted R l -> In a (firstn k l) -> In b (skipn k l) -> R a b.
Proof.
  intros Hs. revert k. induction Hs as [|x l Hs IH Hx]; intros k Ha Hb.
  - destruct k; contradiction.
  - destruct k as [|k]; [contradiction|]. simpl in Ha, Hb.
    destruct Ha as [-> | Ha]; [|eapply IH; eassumption].
    rewrite List.Forall_forall in Hx. apply Hx. eapply in_skipn, Hb.
Qed.

Section PruneFacts.
Context {F : Type}.
Implicit Types (db : gmap string (list (row F))) (rows : list (row F)).

Lemma table_rows_delete_by_id db (t i : string) :
  table_rows (delete_by_id db t i) t =
  List.filter (fun r => negb (String.eqb (row_id r) i)) (table_rows db t).
Proof.
  unfold delete_by_id. unfold table_rows at 1.
  rewrite lookup_insert_eq. reflexivity.
Qed.

Lemma table_rows_delete_by_id_other db (t t' i : string) :
  t' <> t -> table_rows (delete_by_id db t i) t' = table_rows db t'.
Proof.
  intros Hne. unfold delete_by_id. unfold table_rows at 1 3.
  rewrite lookup_insert_ne by congruence. reflexivity.
Qed.

Lemma table_rows_fold_delete (ds : list (row F)) db (t : string) :
  table_rows
    (fold_left (fun d record => delete_by_id d t (row_id record)) ds db) t =
  delete_ids (map row_id ds) (table_rows db t).
Proof.
  revert db. induction ds as [|r ds IH]; intros db; simpl.
  - unfold delete_ids. simpl. symmetry. apply filter_all_true. reflexivity.
  - rewrite IH, table_rows_delete_by_id. unfold delete_ids.
    rewrite filter_filter. apply List.filter_ext. intros x. simpl.
    rewrite negb_orb. reflexivity.
Qed.

Lemma table_rows_fold_delete_other (ds : list (row F)) db (t t' : string) :
  t' <> t ->
  table_rows
    (fold_left (fun d record => delete_by_id d t (row_id record)) ds db) t' =
  table_rows db t'.
Proof.
  intros Hne. revert db. induction ds as [|r ds IH]; intros db; simpl.
  - reflexivity.
  - rewrite IH. apply table_rows_delete_by_id_other, Hne.
Qed.

Lemma delete_ids_keep (ids : list string) (r : row F) :
  negb (existsb (String.eqb (row_id r)) ids) = true <-> ~ In (row_id r) ids.
Proof.
  rewrite negb_true_iff, <- not_true_iff_false, existsb_exists.
  split; intros Hn Hin; apply Hn.
  - exists (row_id r). split; [exact Hin | apply String.eqb_refl].
  - destruct Hin as (i & Hi & Heq). apply String.eqb_eq in Heq. congruence.
Qed.

(** Deleting the ids of the second part of a list without duplicate
    ids leaves the first part, and conversely. *)
Lemma delete_ids_app_r (l1 l2 : list (row F)) (ids : list string) :
  List.NoDup (map row_id (l1 ++ l2)) ->
  (forall i, In i ids <-> In i (map row_id l2)) ->
  delete_ids ids (l1 ++ l2) = l1.
Proof.
  intros Hnd Hids. unfold delete_ids. rewrite List.filter_app.
  rewrite map_app in Hnd.
  rewrite filter_all_true, filter_all_false; [apply app_nil_r| |].
  - intros x Hx. apply negb_false_iff, not_false_iff_true.
    intros Hk. apply negb_true_iff in Hk. apply delete_ids_keep in Hk.
    apply Hk, Hids, in_map, Hx.
  - intros x Hx. apply delete_ids_keep. intros Hin. apply Hids in Hin.
    eapply nodup_app_disjoint; [exact Hnd | apply in_map, Hx | exact Hin].
Qed.

Lemma delete_ids_app_l (l1 l2 : list (row F)) (ids : list string) :
  List.NoDup (map row_id (l1 ++ l2)) ->
  (forall i, In i ids <-> In i (map row_id l1)) ->
  delete_ids ids (l1 ++ l2) = l2.
Proof.
  intros Hnd Hids. unfold delete_ids. rewrite List.filter_app.
  rewrite map_app in Hnd.
  rewrite filter_all_false, filter_all_true; [reflexivity| |].
  - intros x Hx. apply delete_ids_keep. intros Hin. apply Hids in Hin.
    eapply nodup_app_disjoint; [exact Hnd | exact Hin | apply in_map, Hx].
  - intros x Hx. apply negb_false_iff, not_false_iff_true.
    intros Hk. apply negb_true_iff in Hk. apply delete_ids_keep in Hk.
    apply Hk, Hids, in_map, Hx.
Qed.

(** What [prune_embeddings] does to the table it prunes. *)
Lemma prune_embeddings_rows db (table t : string) (keep : Z) :
  _normalize_table_name table = Ok t ->
  exists db',
    prune_embeddings db table keep = Ok db'
    /\ (forall t', t' <> t -> table_rows db' t' = table_rows db t')
    /\ table_rows db' t =
       if Z.of_nat (length (table_rows db t)) <=? keep then table_rows db t
       else delete_ids
              (map row_id
                 (slice_from keep (order_by_created_at_desc (table_rows db t))))
              (table_rows db t).
Proof.
  intros Ht. unfold prune_embeddings.
  rewrite (fetch_records_supported db table t None Ht). simpl.
  rewrite (Permutation_length (order_by_created_at_desc_perm (table_rows db t))).
  destruct (Z.of_nat (length (table_rows db t)) <=? keep).
  - exists db. repeat split; reflexivity.
  - rewrite Ht. simpl. eexists. split; [reflexivity|]. split.
    + intros t' Hne. apply table_rows_fold_delete_other, Hne.
    + apply table_rows_fold_delete.
Qed.
End PruneFacts.

(** Unique ids are an invariant of the store: [insert_record] refuses
    a row whose id is already in the table. *)
Lemma insert_record_ids_unique {F : Type} (db db' : gmap string (list (row F)))
    (table t : string) (item stored : row F) :
  _normalize_table_name table = Ok t ->
  List.NoDup (map row_id (table_rows db t)) ->
  insert_record db table item = Ok (db', stored) ->
  table_rows db' t = table_rows db t ++ [item]
  /\ List.NoDup (map row_id (table_rows db' t)).
Proof.
  intros Ht Hnd. unfold insert_record. rewrite Ht. simpl.
  destruct (existsb _ (table_rows db t)) eqn:Hex; [discriminate|].
  intros [= <- <-].
  assert (Hrows : table_rows (<[t := table_rows db t ++ [item]]> db) t
                  = table_rows db t ++ [item]).
  { unfold table_rows at 1. rewrite lookup_insert_eq. reflexivity. }
  split; [exact Hrows|]. rewrite Hrows, map_app. simpl.
  apply List.NoDup_app; [exact Hnd | repeat constructor; intros [] |].
  intros i Hin [<- | []]. apply in_map_iff in Hin as (r & Hid & Hr).
  apply not_true_iff_false in Hex. apply Hex. apply existsb_exists.
  exists r. split; [exact Hr|]. apply String.eqb_eq, Hid.
Qed.

Section PruneTheorem.
Context {F : Type}.
Implicit Types (db : gmap string (list (row F))).

(** X23: what [prune_embeddings] keeps.  For every supported table and
    every [keep >= 0], [prune_embeddings(table, keep)] leaves exactly
    [min(keep, recordCount)] rows in the table: they are the first
    [keep] rows of the [created_at]-descending fetch, no removed row
    is younger than a row that stays, and when the rows were inserted
    at strictly increasing times the rows that stay are the last
    [keep] rows inserted.  Row ids are unique (the column is the
    primary key). *)
Theorem prune_embeddings_keeps_most_recent db (table t : string) (keep : Z) :
  _normalize_table_name table = Ok t ->
  0 <= keep ->
  List.NoDup (map row_id (table_rows db t)) ->
  exists db',
    prune_embeddings db table keep = Ok db'
    /\ Z.of_nat (length (table_rows db' t)) =
       Z.min keep (Z.of_nat (length (table_rows db t)))
    /\ Permutation (table_rows db' t)
         (firstn (Z.to_nat keep) (order_by_created_at_desc (table_rows db t)))
    /\ (forall r r', In r (table_rows db' t) -> In r' (table_rows db t) ->
          ~ In r' (table_rows db' t) -> created_at r' <= created_at r)
    /\ (StronglySorted (fun r1 r2 => created_at r1 < created_at r2)
          (table_rows db t) ->
        table_rows db' t =
        skipn (length (table_rows db t) - Z.to_nat keep) (table_rows db t)).
Proof.
  intros Ht Hkeep Hnd.
  destruct (prune_embeddings_rows db table t keep Ht) as (db' & Hp & _ & Hrows).
  exists db'. split; [exact Hp|]. rewrite Hrows. clear Hp Hrows db'.
  set (l := table_rows db t) in *.
  pose proof (order_by_created_at_desc_perm l) as Hperm.
  pose proof (Permutation_length Hperm) as Hlen.
  destruct (Z.leb_spec (Z.of_nat (length l)) keep) as [Hle | Hgt].
  - repeat split.
    + lia.
    + rewrite firstn_all2 by lia. symmetry. exact Hperm.
    + intros r r' _ Hin Hnin. contradiction.
    + intros _. replace (length l - Z.to_nat keep)%nat with 0%nat by lia.
      reflexivity.
  - unfold slice_from.
    replace (keep <? 0) with false by (symmetry; apply Z.ltb_ge; lia).
    set (k := Z.to_nat keep) in *.
    set (records := order_by_created_at_desc l) in *.
    assert (Hndr : List.NoDup (map row_id (firstn k records ++ skipn k records))).
    { rewrite firstn_skipn. eapply Permutation_NoDup; [|exact Hnd].
      apply Permutation_map. symmetry. exact Hperm. }
    assert (Hafter : Permutation (delete_ids (map row_id (skipn k records)) l)
                       (firstn k records)).
    { transitivity (delete_ids (map row_id (skipn k records)) records).
      - apply filter_perm. symmetry. exact Hperm.
      - pose proof (delete_ids_app_r (firstn k records) (skipn k records)
                      (map row_id (skipn k records)) Hndr) as Hdel.
        rewrite firstn_skipn in Hdel. rewrite Hdel; reflexivity. }
    repeat split.
    + rewrite (Permutation_length Hafter), List.length_firstn. lia.
    + exact Hafter.
    + intros r r' Hr Hr' Hnr'.
      assert (Hr1 : In r (firstn k records))
        by (eapply Permutation_in; [exact Hafter | exact Hr]).
      assert (Hr2 : In r' (skipn k records)).
      { assert (Hrec : In r' (firstn k records ++ skipn k records)).
        { rewrite firstn_skipn. eapply Permutation_in; [symmetry; exact Hperm|].
          exact Hr'. }
        apply in_app_or in Hrec as [Hrec | Hrec]; [|exact Hrec].
        exfalso. apply Hnr'. eapply Permutation_in; [symmetry; exact Hafter|].
        exact Hrec. }
      pose proof (sorted_firstn_skipn _ k records r r'
                    (order_by_created_at_desc_sorted l) Hr1 Hr2) as Hord.
      unfold not_less, older in Hord. apply Z.ltb_ge in Hord. exact Hord.
    + intros Hinc. subst records.
      rewrite (order_by_created_at_desc_increasing l Hinc).
      rewrite List.skipn_rev.
      pose proof (delete_ids_app_l (firstn (length l - k) l)
                    (skipn (length l - k) l)
                    (map row_id (rev (firstn (length l - k) l)))) as Hdel.
      rewrite firstn_skipn in Hdel. apply Hdel; [exact Hnd|].
      intros i. rewrite List.map_rev. symmetry. apply in_rev.
Qed.
End PruneTheorem.

(** C8: the claim fails on the code.  [created_at] is
    [CURRENT_TIMESTAMP], which counts whole seconds, and the fetch
    orders by it alone: memories stored within one second come back
    in the order of their insertion, oldest first.  After three
    memories [a], [b], [c] stored in this order within one second,
    [prune_embeddings("ti_memory", 1)] keeps [a], the memory inserted
    first, and deletes [c], the memory inserted last; with [keep = 2]
    it keeps [a] and [b]. *)
Theorem prune_embeddings_same_second_keeps_oldest :
  map (fun r => (row_id r, created_at r)) (table_rows same_second_db "ti_memory")
  = [("a", 100); ("b", 100); ("c", 100)]
  /\ (db' ← prune_embeddings same_second_db "ti_memory" 1;
      Ok (map row_id (table_rows db' "ti_memory"))) = Ok ["a"]
  /\ (db' ← prune_embeddings same_second_db "ti_memory" 2;
      Ok (map row_id (table_rows db' "ti_memory"))) = Ok ["a"; "b"].
Proof. repeat split; vm_compute; reflexivity. Qed.

(** ** binary64: the comparisons

    The comparisons of the primitive floats are specified on
    [spec_float].  A number is ranked by a triple of integers, its
    class, its exponent and its mantissa, signed, and comparing two
    numbers is comparing their triples ([float_rank]). *)

Lemma SFcompare_nan (x y : spec_float) :
  SF_is_nan x = true \/ SF_is_nan y = true -> SFcompare x y = None.
Proof. intros [Hx | Hy]; destruct x, y; try discriminate; reflexivity. Qed.

Lemma SFcompare_rank (x y : spec_float) :
  SF_is_nan x = false -> SF_is_nan y = false ->
  SFcompare x y = Some (rank_compare (float_rank x) (float_rank y)).
Proof.
  intros Hx Hy.
  destruct x as [sx | sx | | sx mx ex], y as [sy | sy | | sy my ey];
    try discriminate; try destruct sx; try destruct sy; try reflexivity;
    unfold SFcompare, rank_compare, float_rank; cbn [fst snd].
  all: change (-1 ?= -1) with Eq; cbv iota.
  all: rewrite (Z.compare_opp ex ey), (Z.compare_antisym ex ey).
  all: destruct (ex ?= ey); reflexivity.
Qed.

Lemma rank_compare_lt (r1 r2 : Z * Z * Z) :
  rank_compare r1 r2 = Lt <-> rank_lt r1 r2.
Proof.
  unfold rank_compare, rank_lt.
  destruct (Z.compare_spec (fst (fst r1)) (fst (fst r2)));
    destruct (Z.compare_spec (snd (fst r1)) (snd (fst r2)));
    destruct (Z.compare_spec (snd r1) (snd r2));
    split; intros Hc; try discriminate; try reflexivity; try lia.
Qed.

Lemma rank_compare_eq (r1 r2 : Z * Z * Z) :
  rank_compare r1 r2 = Eq <-> r1 = r2.
Proof.
  unfold rank_compare. destruct r1 as [[a1 b1] c1], r2 as [[a2 b2] c2].
  cbn [fst snd].
  destruct (Z.compare_spec a1 a2); destruct (Z.compare_spec b1 b2);
    destruct (Z.compare_spec c1 c2);
    split; intros Hc; try discriminate; try reflexivity;
    try (injection Hc; intros; lia); subst; reflexivity.
Qed.

Lemma rank_compare_gt (r1 r2 : Z * Z * Z) :
  rank_compare r1 r2 = Gt <-> rank_lt r2 r1.
Proof.
  unfold rank_compare, rank_lt.
  destruct (Z.compare_spec (fst (fst r1)) (fst (fst r2)));
    destruct (Z.compare_spec (snd (fst r1)) (snd (fst r2)));
    destruct (Z.compare_spec (snd r1) (snd r2));
    split; intros Hc; try discriminate; try reflexivity; try lia.
Qed.

(** The comparisons of binary64, read on the ranks. *)
Lemma float_is_nan_spec (x : float) :
  negb (PrimFloat.eqb x x) = SF_is_nan (Prim2SF x).
Proof.
  rewrite FloatAxioms.eqb_spec. unfold SFeqb.
  destruct (SF_is_nan (Prim2SF x)) eqn:Hnan.
  - rewrite SFcompare_nan by (left; exact Hnan). reflexivity.
  - rewrite SFcompare_rank by exact Hnan.
    rewrite (proj2 (rank_compare_eq _ _) eq_refl). reflexivity.
Qed.

Lemma float_ltb_rank (x y : float) :
  negb (PrimFloat.eqb x x) = false -> negb (PrimFloat.eqb y y) = false ->
  (PrimFloat.ltb x y = true
   <-> rank_lt (float_rank (Prim2SF x)) (float_rank (Prim2SF y))).
Proof.
  rewrite !float_is_nan_spec. intros Hx Hy.
  rewrite FloatAxioms.ltb_spec. unfold SFltb. rewrite SFcompare_rank by assumption.
  rewrite <- rank_compare_lt.
  destruct (rank_compare _ _); split; intros Hc; try discriminate; reflexivity.
Qed.

Lemma float_leb_rank (x y : float) :
  negb (PrimFloat.eqb x x) = false -> negb (PrimFloat.eqb y y) = false ->
  (PrimFloat.leb x y = true
   <-> ~ rank_lt (float_rank (Prim2SF y)) (float_rank (Prim2SF x))).
Proof.
  rewrite !float_is_nan_spec. intros Hx Hy.
  rewrite FloatAxioms.leb_spec. unfold SFleb. rewrite SFcompare_rank by assumption.
  rewrite <- rank_compare_gt.
  destruct (rank_compare _ _); split; intros Hc; try discriminate;
    try reflexivity; try congruence.
Qed.

Lemma float_eqb_rank (x y : float) :
  PrimFloat.eqb x y = true ->
  negb (PrimFloat.eqb x x) = false /\ negb (PrimFloat.eqb y y) = false
  /\ float_rank (Prim2SF x) = float_rank (Prim2SF y).
Proof.
  rewrite !float_is_nan_spec, FloatAxioms.eqb_spec. unfold SFeqb.
  destruct (SF_is_nan (Prim2SF x)) eqn:Hx.
  { rewrite SFcompare_nan by (left; exact Hx). discriminate. }
  destruct (SF_is_nan (Prim2SF y)) eqn:Hy.
  { rewrite SFcompare_nan by (right; exact Hy). discriminate. }
  rewrite SFcompare_rank by assumption.
  destruct (rank_compare _ _) eqn:Hc; try discriminate.
  intros _. repeat split. apply rank_compare_eq, Hc.
Qed.

Lemma float_nan_unordered (x y : float) :
  negb (PrimFloat.eqb x x) = true \/ negb (PrimFloat.eqb y y) = true ->
  PrimFloat.ltb x y = false /\ PrimFloat.leb x y = false
  /\ PrimFloat.eqb x y = false.
Proof.
  rewrite !float_is_nan_spec. intros Hnan.
  rewrite FloatAxioms.ltb_spec, FloatAxioms.leb_spec, FloatAxioms.eqb_spec. unfold SFltb, SFleb, SFeqb.
  rewrite (SFcompare_nan _ _ Hnan). repeat split.
Qed.

Lemma bool_false_iff (b : bool) (P : Prop) : (b = true <-> P) -> ~ P -> b = false.
Proof. intros Hiff Hn. destruct b; [exfalso; apply Hn, Hiff; reflexivity | reflexivity]. Qed.

(** Whatever the C library's [pow], binary64 has the laws of
    [IEEEOrder]. *)
Lemma binary64_ieee (pow_half : float -> float) :
  @IEEEOrder float (binary64_with pow_half).
Proof.
  split; unfold is_nan; cbn [feqb fltb fleb f0 binary64_with].
  - reflexivity.
  - apply float_nan_unordered.
  - intros x y Hlt.
    destruct (negb (PrimFloat.eqb x x)) eqn:Hx.
    { rewrite (proj1 (float_nan_unordered x y (or_introl Hx))) in Hlt.
      discriminate. }
    destruct (negb (PrimFloat.eqb y y)) eqn:Hy.
    { rewrite (proj1 (float_nan_unordered x y (or_intror Hy))) in Hlt.
      discriminate. }
    apply (float_ltb_rank x y Hx Hy) in Hlt.
    apply (bool_false_iff _ _ (float_ltb_rank y x Hy Hx)).
    unfold rank_lt in *. lia.
  - intros x y Hx Hy.
    destruct (PrimFloat.ltb y x) eqn:Hlt.
    + apply (float_ltb_rank y x Hy Hx) in Hlt. cbn [negb].
      apply (bool_false_iff _ _ (float_leb_rank x y Hx Hy)). tauto.
    + cbn [negb]. apply (float_leb_rank x y Hx Hy).
      intros Hr. apply (float_ltb_rank y x Hy Hx) in Hr. congruence.
  - intros x y z Hx Hy Hz Hxy Hyz.
    apply (bool_false_iff _ _ (float_ltb_rank x z Hx Hz)). intros Hxz.
    assert (Hnxy : ~ rank_lt (float_rank (Prim2SF x)) (float_rank (Prim2SF y))).
    { intros Hr. apply (float_ltb_rank x y Hx Hy) in Hr. congruence. }
    assert (Hnyz : ~ rank_lt (float_rank (Prim2SF y)) (float_rank (Prim2SF z))).
    { intros Hr. apply (float_ltb_rank y z Hy Hz) in Hr. congruence. }
    unfold rank_lt in *. lia.
  - intros x y z Heq.
    destruct (float_eqb_rank x y Heq) as (Hx & Hy & Hrank).
    destruct (negb (PrimFloat.eqb z z)) eqn:Hz.
    { rewrite (proj1 (float_nan_unordered x z (or_intror Hz))),
        (proj1 (float_nan_unordered y z (or_intror Hz))),
        (proj1 (float_nan_unordered z x (or_introl Hz))),
        (proj1 (float_nan_unordered z y (or_introl Hz))).
      split; reflexivity. }
    split.
    + destruct (PrimFloat.ltb y z) eqn:Hlt.
      * apply (float_ltb_rank y z Hy Hz) in Hlt.
        apply (float_ltb_rank x z Hx Hz). rewrite Hrank. exact Hlt.
      * apply (bool_false_iff _ _ (float_ltb_rank x z Hx Hz)).
        rewrite Hrank. intros Hr. apply (float_ltb_rank y z Hy Hz) in Hr.
        congruence.
    + destruct (PrimFloat.ltb z y) eqn:Hlt.
      * apply (float_ltb_rank z y Hz Hy) in Hlt.
        apply (float_ltb_rank z x Hz Hx). rewrite Hrank. exact Hlt.
      * apply (bool_false_iff _ _ (float_ltb_rank z x Hz Hx)).
        rewrite Hrank. intros Hr. apply (float_ltb_rank z y Hz Hy) in Hr.
        congruence.
Qed.

#[export] Instance binary64_order : @IEEEOrder float binary64.
Proof. exact (binary64_ieee PrimFloat.sqrt). Qed.

(** Multiplication in binary64 is commutative. *)
Lemma float_mul_comm (x y : float) : PrimFloat.mul x y = PrimFloat.mul y x.
Proof.
  apply Prim2SF_inj. rewrite !FloatAxioms.mul_spec. unfold SF64mul, SFmul.
  destruct (Prim2SF x) as [sx | sx | | sx mx ex],
           (Prim2SF y) as [sy | sy | | sy my ey];
    try reflexivity; rewrite (xorb_comm sx sy); try reflexivity.
  rewrite (Pos.mul_comm mx my), (Z.add_comm ex ey). reflexivity.
Qed.





(** ** The retry decorator *)

Lemma sleeps_app (t1 t2 : list effect) :
  sleeps (t1 ++ t2) = sleeps t1 ++ sleeps t2.
Proof.
  induction t1 as [|ev t1 IH]; simpl; [reflexivity|].
  destruct ev; simpl; rewrite IH; reflexivity.
Qed.

Section RetryFacts.
Context {W A : Type} (times : Z) (delay : Q) (fn : W -> result A * W).

(** A run of failures that all have attempts left is walked through by
    the loop, which sleeps the back-off delays on the way. *)
Lemma retry_loop_failures (w w1 : W) (es : list exn) :
  consecutive_failures fn w es w1 ->
  forall (remaining : nat) (attempt : Z) (last : option exn)
         (trace : list effect),
    attempt + Z.of_nat (length es) <= times - 1 ->
    (length es <= remaining)%nat ->
    exists trace' last',
      retry_loop times delay fn remaining attempt last w trace =
      retry_loop times delay fn (remaining - length es)
        (attempt + Z.of_nat (length es)) last' w1 trace'
      /\ sleeps trace' = sleeps trace ++ backoff delay attempt (length es).
Proof.
  induction 1 as [w | w w1 w' e es Hfn Hrest IH];
    intros remaining attempt last trace Hatt Hrem.
  - exists trace, last. simpl. rewrite Z.add_0_r, Nat.sub_0_r, app_nil_r.
    split; reflexivity.
  - simpl length in *. destruct remaining as [|remaining]; [lia|].
    simpl retry_loop. rewrite Hfn.
    replace (attempt <? times - 1) with true by (symmetry; apply Z.ltb_lt; lia).
    destruct (IH remaining (attempt + 1) (Some e)
                (trace ++ [LogWarning (attempt + 1) times
                             (delay * inject_Z (2 ^ attempt))%Q e;
                           Sleep (delay * inject_Z (2 ^ attempt))%Q]))
      as (trace' & last' & Hloop & Hsleeps); [lia | lia |].
    exists trace', last'. split.
    + rewrite Hloop. f_equal. lia.
    + rewrite Hsleeps, sleeps_app. simpl. rewrite <- app_assoc. reflexivity.
Qed.

Lemma retry_succeeds_after (w w1 w2 : W) (es : list exn) (a : A) :
  consecutive_failures fn w es w1 ->
  fn w1 = (Ok a, w2) ->
  Z.of_nat (length es) < times ->
  exists trace,
    retry times delay fn w = (Returned a, w2, trace)
    /\ sleeps trace = backoff delay 0 (length es).
Proof.
  intros Hfail Hok Hlen. unfold retry.
  destruct (retry_loop_failures w w1 es Hfail (Z.to_nat times) 0 None [])
    as (trace & last & Hloop & Hsleeps); [lia | lia |].
  exists trace. rewrite Hloop. split; [|exact Hsleeps].
  destruct (Z.to_nat times - length es)%nat as [|n] eqn:Hn; [lia|].
  simpl. rewrite Hok. reflexivity.
Qed.

Lemma retry_raises_last (w w1 w2 : W) (es : list exn) (e : exn) :
  consecutive_failures fn w es w1 ->
  fn w1 = (Raise e, w2) ->
  Z.of_nat (length es) = times - 1 ->
  exists trace,
    retry times delay fn w = (Raised e, w2, trace)
    /\ sleeps trace = backoff delay 0 (length es).
Proof.
  intros Hfail Hlast Hlen. unfold retry.
  destruct (retry_loop_failures w w1 es Hfail (Z.to_nat times) 0 None [])
    as (trace & last & Hloop & Hsleeps); [lia | lia |].
  exists (trace ++ [LogError times e]). rewrite Hloop. split.
  - replace (Z.to_nat times - length es)%nat with 1%nat by lia.
    simpl. rewrite Hlast.
    replace (0 + Z.of_nat (length es) <? times - 1) with false
      by (symmetry; apply Z.ltb_ge; lia).
    reflexivity.
  - rewrite sleeps_app, Hsleeps. simpl. apply app_nil_r.
Qed.
End RetryFacts.

(** C4: the retry decorator calls the function; a failure with
    attempts left is followed by a sleep of [delay * 2 ** attempt]
    seconds ([attempt] counted from 0, so the first delay is [delay],
    the next [2 * delay], ...) and another call; once the last
    permitted call has failed the decorator raises that call's
    exception itself.  With three attempts, a function that fails
    twice and then succeeds makes the decorator return its value
    after exactly two sleeps, of [delay] and [2 * delay] seconds. *)
Theorem retry_backoff_then_last_error {W A : Type} (times : Z) (delay : Q)
    (fn : W -> result A * W) (w : W) :
  (forall es w1 a w2,
      consecutive_failures fn w es w1 -> fn w1 = (Ok a, w2) ->
      Z.of_nat (length es) < times ->
      exists trace, retry times delay fn w = (Returned a, w2, trace)
                    /\ sleeps trace = backoff delay 0 (length es))
  /\ (forall es w1 e w2,
         consecutive_failures fn w es w1 -> fn w1 = (Raise e, w2) ->
         Z.of_nat (length es) = times - 1 ->
         exists trace, retry times delay fn w = (Raised e, w2, trace)
                       /\ sleeps trace = backoff delay 0 (length es))
  /\ (forall e1 e2 a w1 w2 w3,
         fn w = (Raise e1, w1) -> fn w1 = (Raise e2, w2) ->
         fn w2 = (Ok a, w3) ->
         exists trace, retry 3 delay fn w = (Returned a, w3, trace)
                       /\ Forall2 Qeq (sleeps trace) [delay; (2 * delay)%Q])
  /\ (forall e1 e2 e3 w1 w2 w3,
         fn w = (Raise e1, w1) -> fn w1 = (Raise e2, w2) ->
         fn w2 = (Raise e3, w3) ->
         exists trace, retry 3 delay fn w = (Raised e3, w3, trace)
                       /\ Forall2 Qeq (sleeps trace) [delay; (2 * delay)%Q]).
Proof.
  assert (Htwo : Forall2 Qeq (backoff delay 0 2) [delay; (2 * delay)%Q]).
  { simpl. repeat constructor.
    - change (inject_Z (2 ^ 0)) with 1%Q. ring.
    - change (inject_Z (2 ^ (0 + 1))) with 2%Q. ring. }
  split; [|split; [|split]].
  - intros es w1 a w2. apply retry_succeeds_after.
  - intros es w1 e w2. apply retry_raises_last.
  - intros e1 e2 a w1 w2 w3 H1 H2 H3.
    destruct (retry_succeeds_after 3 delay fn w w2 w3 [e1; e2] a)
      as (trace & Hrun & Hsl).
    + econstructor; [exact H1|]. econstructor; [exact H2|]. constructor.
    + exact H3.
    + simpl. lia.
    + exists trace. split; [exact Hrun|]. rewrite Hsl. exact Htwo.
  - intros e1 e2 e3 w1 w2 w3 H1 H2 H3.
    destruct (retry_raises_last 3 delay fn w w2 w3 [e1; e2] e3)
      as (trace & Hrun & Hsl).
    + econstructor; [exact H1|]. econstructor; [exact H2|]. constructor.
    + exact H3.
    + simpl. lia.
    + exists trace. split; [exact Hrun|]. rewrite Hsl. exact Htwo.
Qed.

(** ** Exact arithmetic: the reals *)

#[export] Instance exact_real_order : ExactOrder R.
Proof.
  split; simpl.
  - intros x y. destruct (Rlt_dec x y), (Rlt_dec y x); try reflexivity; try discriminate.
    lra.
  - intros x y z.
    destruct (Rlt_dec x y), (Rlt_dec y z), (Rlt_dec x z);
      try reflexivity; try discriminate. lra.
  - intros x y. destruct (Rle_dec x y), (Rlt_dec y x); try reflexivity; lra.
  - intros x y z. destruct (Req_dec_T x y) as [-> |]; [reflexivity | discriminate].
Qed.

(** ** [cosine_similarity] in binary64 *)

Lemma dot_self {F : Type} `{PyFloat F} (a : list F) :
  dot a a = py_sum (map (fun x => fmul x x) a).
Proof.
  unfold dot. f_equal. induction a as [|x a IH]; simpl; [reflexivity|].
  rewrite IH. reflexivity.
Qed.

(** C5: the claim fails in binary64 at both ends of the range.  The
    square of [1e-200] underflows to [0.0], so the norm of the
    non-zero vector [[1e-200]] is computed as [0.0], the guard for
    the zero norm fires and the similarity of the vector with itself
    is [0.0] and not [1.0]; the square of [1e200] overflows, the norm
    is infinite and the similarity of [[1e200]] with itself is NaN.
    Both hold whatever the C library's [pow] is, as long as it maps
    [0.0] to [0.0] and infinity to infinity, as the C standard
    asks. *)
Theorem cosine_similarity_underflow_overflow (pow_half : float -> float) :
  pow_half 0%float = 0%float ->
  pow_half infinity = infinity ->
  let tiny := 0x1.87e92154ef7acp-665%float in
  let huge := 0x1.4e718d7d7625ap+664%float in
  (PrimFloat.ltb 0 tiny = true /\ PrimFloat.ltb huge infinity = true)
  /\ @cosine_similarity float (binary64_with pow_half) [tiny] [tiny]
     = Ok 0%float
  /\ @cosine_similarity float (binary64_with pow_half) [huge] [huge]
     = Ok nan.
Proof.
  intros Hzero Hinf tiny huge. split; [split; vm_compute; reflexivity|].
  unfold cosine_similarity, norm, dot, py_sum.
  cbn [is_empty orb length Nat.eqb negb map combine fold_left fst snd
       fmul fadd fdiv fpow_half feqb f0 binary64_with].
  assert (Htiny : PrimFloat.add 0 (PrimFloat.mul tiny tiny) = 0%float)
    by (vm_compute; reflexivity).
  assert (Hhuge : PrimFloat.add 0 (PrimFloat.mul huge huge) = infinity)
    by (vm_compute; reflexivity).
  rewrite Htiny, Hhuge, Hzero, Hinf. split; vm_compute; reflexivity.
Qed.

(** ** The embedding provider *)

Lemma sha256_length (msg : list byte) : length (sha256 msg) = 32%nat.
Proof. unfold sha256. rewrite !List.length_app. reflexivity. Qed.

Lemma byte_over_255_in_unit_interval (b : byte) :
  PrimFloat.leb 0 (fdiv (of_int (byte_val b)) (of_int 255)) = true
  /\ PrimFloat.leb (fdiv (of_int (byte_val b)) (of_int 255)) 1 = true.
Proof. destruct b; vm_compute; split; reflexivity. Qed.

(** The codec on a text without surrogates. *)
Lemma utf8_encode_from_clean (pos : N) (text : unicode) :
  existsb is_surrogate text = false ->
  utf8_encode_from pos text = Ok (flat_map utf8_code_point text).
Proof.
  revert pos. induction text as [|c text IH]; intros pos; simpl; [reflexivity|].
  destruct (is_surrogate c); [discriminate|]. simpl. intros Hclean.
  rewrite (IH (pos + 1)%N Hclean). reflexivity.
Qed.

Lemma utf8_encode_from_surrogate (pos : N) (text : unicode) :
  existsb is_surrogate text = true ->
  exists msg, utf8_encode_from pos text = Raise (ValueError msg).
Proof.
  revert pos. induction text as [|c text IH]; intros pos; simpl; [discriminate|].
  destruct (is_surrogate c); simpl.
  - intros _. eexists. reflexivity.
  - intros Hs. destruct (IH (pos + 1)%N Hs) as [msg ->]. eexists. reflexivity.
Qed.


Lemma generate_embedding_offline (F : Type) (num : PyFloat F)
    (svc : Services F) (settings : Settings) (text : unicode) :
  offline_mode settings = true ->
  existsb is_surrogate text = false ->
  generate_embedding svc settings text =
  Ok (map (fun b => fdiv (of_int (byte_val b)) (of_int 255))
        (sha256 (flat_map utf8_code_point text))).
Proof.
  intros Hoff Hclean. unfold generate_embedding, utf8_encode.
  rewrite Hoff, (utf8_encode_from_clean 0 text Hclean). cbn [mbind result_bind].
  rewrite firstn_all2 by (rewrite sha256_length; lia). reflexivity.
Qed.

(** C7 (amended): in offline mode [generate_embedding] returns, for
    every text without a surrogate code point, the empty text
    included, a vector of length 32 whose entries are the bytes of the
    SHA-256 digest of the UTF-8 encoding of the text divided by 255;
    it is the same vector whatever the rest of the settings and the
    services are, so a second call returns it again; in binary64
    every entry lies in [0, 1].  On a text with a surrogate the codec
    raises its [ValueError] and no vector is returned.  The digest is
    SHA-256: it has the values of the standard on the empty message,
    on ["abc"] and on the 56-byte message that needs a second
    block. *)
Theorem generate_embedding_offline_deterministic :
  (forall (F : Type) (num : PyFloat F) (svc : Services F)
          (settings : Settings) (text : unicode),
      offline_mode settings = true ->
      existsb is_surrogate text = false ->
      exists v : list F,
        generate_embedding svc settings text = Ok v
        /\ length v = 32%nat
        /\ utf8_encode text = Ok (flat_map utf8_code_point text)
        /\ v = map (fun b => fdiv (of_int (byte_val b)) (of_int 255))
                 (sha256 (flat_map utf8_code_point text))
        /\ (forall svc' settings',
               offline_mode settings' = true ->
               generate_embedding svc' settings' text = Ok v))
  /\ (forall (pow_half : float -> float) (svc : Services float)
             (settings : Settings) (text : unicode) (v : list float),
         offline_mode settings = true ->
         @generate_embedding float (binary64_with pow_half) svc settings text
         = Ok v ->
         Forall (fun x => PrimFloat.leb 0 x = true /\ PrimFloat.leb x 1 = true) v)
  /\ (forall (F : Type) (num : PyFloat F) (svc : Services F)
             (settings : Settings) (text : unicode),
         offline_mode settings = true ->
         existsb is_surrogate text = true ->
         exists msg,
           generate_embedding svc settings text = Raise (ValueError msg))
  /\ (map byte_val (sha256 []) =
        [227; 176; 196; 66; 152; 252; 28; 20; 154; 251; 244; 200;
         153; 111; 185; 36; 39; 174; 65; 228; 100; 155; 147; 76;
         164; 149; 153; 27; 120; 82; 184; 85]
      /\ map byte_val (sha256 (flat_map utf8_code_point (code_points "abc"))) =
           [186; 120; 22; 191; 143; 1; 207; 234; 65; 65; 64; 222;
            93; 174; 34; 35; 176; 3; 97; 163; 150; 23; 122; 156;
            180; 16; 255; 97; 242; 0; 21; 173]
      /\ map byte_val
           (sha256 (flat_map utf8_code_point
                      (code_points
                         "abcdbcdecdefdefgefghfghighijhijkijkljklmklmnlmnomnopnopq"))) =
           [36; 141; 106; 97; 210; 6; 56; 184; 229; 192; 38; 147;
            12; 62; 96; 57; 163; 60; 228; 89; 100; 255; 33; 103;
            246; 236; 237; 212; 25; 219; 6; 193]).
Proof.
  split; [|split; [|split]].
  - intros F num svc settings text Hoff Hclean.
    eexists. split; [apply generate_embedding_offline; assumption|].
    split; [rewrite length_map; apply sha256_length|].
    split; [apply utf8_encode_from_clean, Hclean|].
    split; [reflexivity|].
    intros svc' settings' Hoff'. apply generate_embedding_offline; assumption.
  - intros pow_half svc settings text v Hoff.
    destruct (existsb is_surrogate text) eqn:Hs.
    + unfold generate_embedding, utf8_encode. rewrite Hoff.
      destruct (utf8_encode_from_surrogate 0 text Hs) as [msg ->]. discriminate.
    + rewrite (generate_embedding_offline float (binary64_with pow_half)
                 svc settings text Hoff Hs).
      set (w := map _ _). intros Hv. inversion Hv. subst v. subst w.
      apply List.Forall_forall. intros x Hx.
      apply in_map_iff in Hx as (b & <- & _).
      apply byte_over_255_in_unit_interval.
  - intros F num svc settings text Hoff Hs.
    unfold generate_embedding, utf8_encode. rewrite Hoff.
    destruct (utf8_encode_from_surrogate 0 text Hs) as [msg ->].
    exists msg. reflexivity.
  - repeat split; vm_compute; reflexivity.
Qed.

(** ** Identifiers of the remote store *)

Lemma split_chars_in (sep c : ascii) (l : list ascii) :
  In c l -> Ascii.eqb c sep = false ->
  exists p, In p (split_chars sep l) /\ In c p.
Proof.
  intros Hin Hsep. induction l as [|x l IH]; [contradiction|].
  simpl. destruct (Ascii.eqb x sep) eqn:Hx.
  - destruct Hin as [-> | Hin]; [congruence|].
    destruct (IH Hin) as (p & Hp & Hc). exists p. split; [right|]; assumption.
  - destruct Hin as [-> | Hin].
    + destruct (split_chars sep l) as [|p ps].
      * exists [c]. split; left; reflexivity.
      * exists (c :: p). split; left; reflexivity.
    + destruct (IH Hin) as (p0 & Hp0 & Hc).
      destruct (split_chars sep l) as [|p ps]; [contradiction|].
      destruct Hp0 as [<- | Hp0].
      * exists (x :: p). split; [left; reflexivity | right; exact Hc].
      * exists p0. split; [right; exact Hp0 | exact Hc].
Qed.

Lemma drop_spaces_in (c : ascii) (l : list ascii) :
  In c l -> is_space c = false -> In c (drop_spaces l).
Proof.
  intros Hin Hc. induction l as [|x l IH]; [contradiction|]. simpl.
  destruct (is_space x) eqn:Hx; [|exact Hin].
  destruct Hin as [-> | Hin]; [congruence | apply IH, Hin].
Qed.

Lemma strip_chars_in (c : ascii) (l : list ascii) :
  In c l -> is_space c = false -> In c (strip_chars l).
Proof.
  intros Hin Hc. unfold strip_chars. apply in_rev.
  rewrite rev_involutive. apply drop_spaces_in; [|exact Hc].
  apply -> in_rev. apply drop_spaces_in; assumption.
Qed.

Lemma word_chars_to_end_in (c : ascii) (l : list ascii) :
  word_chars_to_end l = true -> In c l ->
  is_word_char c = true \/ is_space c = true.
Proof.
  induction l as [|x l IH]; intros Hm Hin; [contradiction|].
  simpl in Hm. destruct (is_word_char x) eqn:Hx.
  - destruct Hin as [-> | Hin]; [left; exact Hx | apply IH; assumption].
  - apply andb_true_iff in Hm as [Hnl Hl]. apply Ascii.eqb_eq in Hnl. subst x.
    destruct l; [|discriminate Hl].
    destruct Hin as [<- | []]. right. reflexivity.
Qed.

Lemma table_name_pattern_in (c : ascii) (part : string) :
  _TABLE_NAME_PATTERN part = true -> In c (list_ascii_of_string part) ->
  is_word_char c = true \/ is_space c = true.
Proof.
  unfold _TABLE_NAME_PATTERN. destruct (list_ascii_of_string part) as [|x l].
  - discriminate.
  - intros Hm Hin. apply andb_true_iff in Hm as [Hx Hl].
    destruct Hin as [<- | Hin].
    + left. unfold is_word_char. rewrite Hx. reflexivity.
    + eapply word_chars_to_end_in; eassumption.
Qed.

(** A character that is neither white space, nor a dot, nor one of
    [A-Za-z0-9_] survives into one of the parts that are checked. *)
Lemma bad_char_in_part (name : string) (c : ascii) :
  In c (list_ascii_of_string name) -> is_space c = false ->
  c <> "."%char ->
  exists part, In part (nonblank_parts name)
               /\ In c (list_ascii_of_string (strip part)).
Proof.
  intros Hin Hsp Hdot.
  destruct (split_chars_in "."%char c (list_ascii_of_string name) Hin)
    as (p & Hp & Hc); [apply Ascii.eqb_neq, Hdot|].
  exists (string_of_list_ascii p).
  assert (Hstrip : In c (list_ascii_of_string (strip (string_of_list_ascii p)))).
  { unfold strip. rewrite !list_ascii_of_string_of_list_ascii.
    apply strip_chars_in; assumption. }
  split; [|exact Hstrip].
  unfold nonblank_parts. apply filter_In. split.
  - unfold split_dot. apply in_map, Hp.
  - apply negb_true_iff, String.eqb_neq. intros Heq. rewrite Heq in Hstrip.
    contradiction.
Qed.

Lemma identifier_parts_unfold (name : string) :
  _identifier_parts name =
  if is_empty (nonblank_parts name) || (2 <? length (nonblank_parts name))%nat
  then Raise (not_permitted name)
  else if forallb _TABLE_NAME_PATTERN (map strip (nonblank_parts name))
       then Ok (map strip (nonblank_parts name))
       else Raise (not_permitted name).
Proof.
  unfold _identifier_parts, nonblank_parts. rewrite length_map.
  destruct (List.filter _ (split_dot name)); reflexivity.
Qed.

Lemma drop_spaces_head (l l' : list ascii) (c : ascii) :
  drop_spaces l = c :: l' -> is_space c = false.
Proof.
  induction l as [|x l IH]; simpl; [discriminate|].
  destruct (is_space x) eqn:Hx; [exact IH|]. intros [= <- _]. exact Hx.
Qed.

Lemma strip_chars_last (l l' : list ascii) (c : ascii) :
  strip_chars l = l' ++ [c] -> is_space c = false.
Proof.
  unfold strip_chars. intros Heq.
  apply (f_equal (@rev ascii)) in Heq.
  rewrite rev_involutive, rev_app_distr in Heq. simpl in Heq.
  eapply drop_spaces_head, Heq.
Qed.

Lemma word_chars_to_end_all (l : list ascii) :
  word_chars_to_end l = true ->
  (forall l' c, l = l' ++ [c] -> is_space c = false) ->
  forallb is_word_char l = true.
Proof.
  induction l as [|x l IH]; simpl; intros Hm Hlast; [reflexivity|].
  destruct (is_word_char x) eqn:Hx; simpl.
  - apply IH; [exact Hm|]. intros l' c ->. apply (Hlast (x :: l') c). reflexivity.
  - apply andb_true_iff in Hm as [Hnl Hl]. apply Ascii.eqb_eq in Hnl. subst x.
    destruct l; [|discriminate Hl].
    specialize (Hlast [] _ eq_refl). discriminate Hlast.
Qed.

Lemma forallb_word_chars_to_end (l : list ascii) :
  forallb is_word_char l = true -> word_chars_to_end l = true.
Proof.
  induction l as [|x l IH]; simpl; [reflexivity|].
  intros Hall. apply andb_true_iff in Hall as [Hx Hl]. rewrite Hx. apply IH, Hl.
Qed.

(** A stripped string that matches the pattern is clean: the newline
    that [$] tolerates cannot be there. *)
Lemma stripped_match_is_clean (part : string) :
  _TABLE_NAME_PATTERN (strip part) = true -> clean_part (strip part) = true.
Proof.
  unfold _TABLE_NAME_PATTERN, clean_part, strip.
  rewrite list_ascii_of_string_of_list_ascii.
  destruct (strip_chars (list_ascii_of_string part)) as [|x l] eqn:Hs;
    [discriminate|].
  intros Hm. apply andb_true_iff in Hm as [Hx Hl]. rewrite Hx. simpl.
  apply word_chars_to_end_all; [exact Hl|].
  intros l' c ->. apply (strip_chars_last (list_ascii_of_string part) (x :: l') c).
  exact Hs.
Qed.

Lemma word_char_not_space (c : ascii) : is_word_char c = true -> is_space c = false.
Proof.
  unfold is_word_char, is_alpha_or_underscore, is_space.
  destruct (code c) as [|p] eqn:Hc; [discriminate|].
  intros Hw. rewrite !orb_true_iff, !andb_true_iff, ?N.leb_le, ?N.eqb_eq in Hw.
  apply not_true_iff_false. intros Hs.
  rewrite !orb_true_iff, !andb_true_iff, ?N.leb_le, ?N.eqb_eq in Hs. lia.
Qed.

Lemma word_char_not_dot (c : ascii) : is_word_char c = true -> c <> "."%char.
Proof. intros Hw ->. discriminate Hw. Qed.

Lemma drop_spaces_clean (l : list ascii) :
  forallb is_word_char l = true -> drop_spaces l = l.
Proof.
  destruct l as [|x l]; simpl; [reflexivity|]. intros Hall.
  apply andb_true_iff in Hall as [Hx _].
  rewrite (word_char_not_space x Hx). reflexivity.
Qed.

Lemma forallb_rev {A : Type} (p : A -> bool) (l : list A) :
  forallb p l = true -> forallb p (rev l) = true.
Proof.
  rewrite !forallb_forall. intros Hall x Hx. apply Hall, in_rev, Hx.
Qed.

Lemma strip_clean (part : string) :
  forallb is_word_char (list_ascii_of_string part) = true -> strip part = part.
Proof.
  intros Hall. unfold strip, strip_chars.
  rewrite (drop_spaces_clean _ Hall).
  rewrite (drop_spaces_clean _ (forallb_rev _ _ Hall)).
  rewrite rev_involutive. apply string_of_list_ascii_of_string.
Qed.

Lemma clean_part_word_chars (part : string) :
  clean_part part = true ->
  forallb is_word_char (list_ascii_of_string part) = true /\ part <> "".
Proof.
  unfold clean_part. destruct part as [|c s]; [discriminate|]. simpl.
  intros Hc. apply andb_true_iff in Hc as [Hx Hl]. split; [|discriminate].
  unfold is_word_char at 1. rewrite Hx. exact Hl.
Qed.

Lemma clean_part_matches (part : string) :
  clean_part part = true -> _TABLE_NAME_PATTERN part = true.
Proof.
  unfold clean_part, _TABLE_NAME_PATTERN.
  destruct (list_ascii_of_string part) as [|c l]; [discriminate|].
  intros Hc. apply andb_true_iff in Hc as [Hx Hl]. rewrite Hx.
  apply forallb_word_chars_to_end, Hl.
Qed.

Lemma clean_part_no_dot (part : string) :
  clean_part part = true -> ~ In "."%char (list_ascii_of_string part).
Proof.
  intros Hc Hin. destruct (clean_part_word_chars part Hc) as [Hall _].
  rewrite forallb_forall in Hall. specialize (Hall _ Hin). discriminate Hall.
Qed.

Lemma identifier_parts_clean (name : string) (parts : list string) :
  _identifier_parts name = Ok parts ->
  (length parts = 1 \/ length parts = 2)%nat
  /\ Forall (fun part => clean_part part = true) parts.
Proof.
  rewrite identifier_parts_unfold.
  destruct (is_empty (nonblank_parts name)
            || (2 <? length (nonblank_parts name))%nat) eqn:Hcount; [discriminate|].
  destruct (forallb _TABLE_NAME_PATTERN (map strip (nonblank_parts name))) eqn:Hall;
    [|discriminate].
  intros [= <-]. apply orb_false_iff in Hcount as [Hne Hlen].
  apply Nat.ltb_ge in Hlen. rewrite length_map. split.
  - destruct (nonblank_parts name) as [|p ps]; [discriminate Hne|]. simpl in *. lia.
  - apply List.Forall_forall. intros part Hin.
    rewrite forallb_forall in Hall. specialize (Hall part Hin).
    apply in_map_iff in Hin as (p & <- & _). apply stripped_match_is_clean, Hall.
Qed.

Section RemoteFacts.
Context {F : Type} `{PyFloat F}.

(** C9 (amended): the identifier is split at the dots, white space is
    removed from both ends of each piece and the pieces that are then
    empty are dropped.  An identifier is refused with the
    [ValueError] of [_identifier_parts] when one of the pieces that
    are left holds a character that is not one of [A-Za-z0-9_], white
    space inside a piece included, or is not a letter or underscore
    followed by letters, digits and underscores, or when no piece or
    more than two pieces are left; so is every identifier with a
    character that is neither white space, nor a dot, nor one of
    [A-Za-z0-9_].  [insert_embedding] and [search_embeddings] of the
    remote store then return that error without sending a statement.
    Every other identifier is accepted, as the list of its pieces. *)
Theorem identifier_rejected_before_query (svc : Services F) (name : string) :
  ((exists part c, In part (nonblank_parts name)
                   /\ In c (list_ascii_of_string (strip part))
                   /\ is_word_char c = false)
   \/ (exists part, In part (nonblank_parts name)
                    /\ clean_part (strip part) = false)
   \/ (exists c, In c (list_ascii_of_string name) /\ is_space c = false
                 /\ c <> "."%char /\ is_word_char c = false)
   \/ nonblank_parts name = []
   \/ (2 < length (nonblank_parts name))%nat ->
   _identifier_parts name = Raise (not_permitted name)
   /\ (forall content embedding metadata,
          PGVectorClient.insert_embedding svc name content embedding metadata =
          (Raise (not_permitted name), []))
   /\ (forall embedding top_k,
          PGVectorClient.search_embeddings svc name embedding top_k =
          (Raise (not_permitted name), [])))
  /\ (nonblank_parts name <> [] ->
      (length (nonblank_parts name) <= 2)%nat ->
      Forall (fun part => clean_part (strip part) = true) (nonblank_parts name) ->
      _identifier_parts name = Ok (map strip (nonblank_parts name))).
Proof.
  assert (Hunclean : forall part,
             In part (nonblank_parts name) -> clean_part (strip part) = false ->
             forallb _TABLE_NAME_PATTERN (map strip (nonblank_parts name))
             = false).
  { intros part Hpart Hc. apply not_true_iff_false. intros Hall.
    rewrite forallb_forall in Hall.
    specialize (Hall (strip part) (in_map strip _ _ Hpart)).
    rewrite (stripped_match_is_clean part Hall) in Hc. discriminate Hc. }
  assert (Hchar : forall part c,
             In part (nonblank_parts name) ->
             In c (list_ascii_of_string (strip part)) ->
             is_word_char c = false -> clean_part (strip part) = false).
  { intros part c Hpart Hc Hw. apply not_true_iff_false. intros Hclean.
    destruct (clean_part_word_chars _ Hclean) as [Hall _].
    rewrite forallb_forall in Hall. rewrite (Hall c Hc) in Hw. discriminate Hw. }
  split.
  - intros Hbad.
    assert (Hrej : _identifier_parts name = Raise (not_permitted name)).
    { rewrite identifier_parts_unfold.
      destruct (is_empty (nonblank_parts name)
                || (2 <? length (nonblank_parts name))%nat) eqn:Hcount;
        [reflexivity|].
      apply orb_false_iff in Hcount as [Hne Hlen].
      destruct Hbad as [(part & c & Hpart & Hc & Hw)
                       | [(part & Hpart & Hclean)
                         | [(c & Hin & Hsp & Hdot & Hw) | [Hnil | Hmany]]]].
      - rewrite (Hunclean part Hpart (Hchar part c Hpart Hc Hw)). reflexivity.
      - rewrite (Hunclean part Hpart Hclean). reflexivity.
      - destruct (bad_char_in_part name c Hin Hsp Hdot) as (part & Hpart & Hc).
        rewrite (Hunclean part Hpart (Hchar part c Hpart Hc Hw)). reflexivity.
      - rewrite Hnil in Hne. discriminate Hne.
      - apply Nat.ltb_ge in Hlen. lia. }
    split; [exact Hrej|]. split.
    + intros content embedding metadata. unfold PGVectorClient.insert_embedding.
      rewrite Hrej. reflexivity.
    + intros embedding top_k. unfold PGVectorClient.search_embeddings.
      rewrite Hrej. reflexivity.
  - intros Hne Hlen Hclean. rewrite identifier_parts_unfold.
    replace (is_empty (nonblank_parts name)) with false
      by (destruct (nonblank_parts name); [contradiction | reflexivity]).
    replace (2 <? length (nonblank_parts name))%nat with false
      by (symmetry; apply Nat.ltb_ge; exact Hlen).
    cbn [orb].
    replace (forallb _TABLE_NAME_PATTERN (map strip (nonblank_parts name)))
      with true; [reflexivity|].
    symmetry. apply forallb_forall. intros part Hin.
    apply in_map_iff in Hin as (p & <- & Hp).
    rewrite List.Forall_forall in Hclean. apply clean_part_matches, Hclean, Hp.
Qed.
End RemoteFacts.

(** ** Ranking in the local store *)

Section SearchFacts.
Context {F : Type} `{PyFloat F}.
Implicit Types (db : gmap string (list (row F))).

Lemma top_k_embeddings_supported db (table t : string) (q : list F) (k : Z) :
  _normalize_table_name table = Ok t ->
  top_k_embeddings db table q k =
  (scored ← score_records q (order_by_created_at_desc (table_rows db t));
   Ok (map enrich (slice_to k (sort_by_score scored)))).
Proof.
  intros Ht. unfold top_k_embeddings.
  rewrite (fetch_records_supported db table t None Ht). reflexivity.
Qed.

Lemma score_records_in (q : list F) (records : list (row F))
    (scored : list (F * row F)) (s : F) (r : row F) :
  score_records q records = Ok scored -> In (s, r) scored ->
  In r records
  /\ exists v, embedding r = Some v /\ cosine_similarity q v = Ok s.
Proof.
  revert scored. induction records as [|r0 rest IH]; intros scored; simpl.
  - intros [= <-] [].
  - destruct (embedding r0) as [v|] eqn:Hemb.
    + destruct (cosine_similarity q v) as [s0|] eqn:Hcos; [|discriminate].
      simpl. destruct (score_records q rest) as [scored'|]; [|discriminate].
      simpl. intros [= <-] [Heq | Hin].
      * injection Heq as -> ->. split; [left; reflexivity|].
        exists v. split; assumption.
      * destruct (IH scored' eq_refl Hin) as [Hr Hv]. split; [right|]; assumption.
    + intros Hs Hin. destruct (IH scored Hs Hin) as [Hr Hv].
      split; [right|]; assumption.
Qed.

Lemma score_records_complete (q : list F) (records : list (row F))
    (scored : list (F * row F)) (r : row F) (v : list F) :
  score_records q records = Ok scored -> In r records ->
  embedding r = Some v ->
  exists s, cosine_similarity q v = Ok s /\ In (s, r) scored.
Proof.
  revert scored. induction records as [|r0 rest IH]; intros scored; simpl.
  - intros _ [].
  - destruct (embedding r0) as [v0|] eqn:Hemb.
    + destruct (cosine_similarity q v0) as [s0|] eqn:Hcos; [|discriminate].
      simpl. destruct (score_records q rest) as [scored'|]; [|discriminate].
      simpl. intros [= <-] [-> | Hin] Hv.
      * exists s0. split; [congruence | left; reflexivity].
      * destruct (IH scored' eq_refl Hin Hv) as (s & Hs & Hin').
        exists s. split; [exact Hs | right; exact Hin'].
    + intros Hs [-> | Hin] Hv; [congruence|]. apply (IH scored Hs Hin Hv).
Qed.

(** The scored list is in fetch order: the younger record first. *)
Lemma score_records_sorted (q : list F) (records : list (row F))
    (scored : list (F * row F)) :
  StronglySorted (not_less older) records ->
  score_records q records = Ok scored ->
  StronglySorted (not_less (fun x y => older (snd x) (snd y))) scored.
Proof.
  intros Hs. revert scored.
  induction Hs as [|r0 rest Hs IH Hr0]; intros scored; simpl.
  - intros [= <-]. constructor.
  - destruct (embedding r0) as [v|] eqn:Hemb; [|apply IH].
    destruct (cosine_similarity q v) as [s0|] eqn:Hcos; [|discriminate].
    simpl. destruct (score_records q rest) as [scored'|] eqn:Hrest; [|discriminate].
    simpl. intros [= <-]. constructor; [apply IH; reflexivity|].
    apply List.Forall_forall. intros [s r] Hin.
    destruct (score_records_in q rest scored' s r Hrest Hin) as [Hr _].
    rewrite List.Forall_forall in Hr0. apply (Hr0 r Hr).
Qed.

(** The records of the scored list are records of the fetch, each
    once. *)
Lemma score_records_nodup (q : list F) (records : list (row F))
    (scored : list (F * row F)) :
  List.NoDup records ->
  score_records q records = Ok scored -> List.NoDup scored.
Proof.
  intros Hnd. revert scored.
  induction Hnd as [|r0 rest Hr0 Hnd IH]; intros scored; simpl.
  - intros [= <-]. constructor.
  - destruct (embedding r0) as [v|] eqn:Hemb; [|apply IH].
    destruct (cosine_similarity q v) as [s0|] eqn:Hcos; [|discriminate].
    simpl. destruct (score_records q rest) as [scored'|] eqn:Hrest; [|discriminate].
    simpl. intros [= <-]. constructor; [|apply IH; reflexivity].
    intros Hin.
    destruct (score_records_in q rest scored' s0 r0 Hrest Hin) as [Hr _].
    contradiction.
Qed.

Lemma nodup_of_ids (rows : list (row F)) :
  List.NoDup (map row_id rows) -> List.NoDup rows.
Proof. apply List.NoDup_map_inv. Qed.

(** On numbers, "not smaller" is "greater or equal". *)
Lemma score_ge `{!IEEEOrder F} (x y : F) :
  is_nan x = false -> is_nan y = false ->
  (fltb x y = false <-> fleb y x = true).
Proof.
  intros Hx Hy. rewrite (ieee_le_lt y x Hy Hx).
  destruct (fltb x y); simpl; split; congruence.
Qed.

Lemma sorted_by_score_ge `{!IEEEOrder F} (l : list (F * row F)) :
  Forall (fun x => is_nan (fst x) = false) l ->
  (StronglySorted (not_less score_lt) l
   <-> StronglySorted (fun x y => fleb (fst y) (fst x) = true) l).
Proof.
  intros Hnum. split; intros Hs.
  - induction Hs as [|x l Hs IH Hx]; constructor.
    + apply IH. apply Forall_cons_iff in Hnum. tauto.
    + apply Forall_cons_iff in Hnum as [Hnx Hnl].
      rewrite List.Forall_forall in *. intros y Hy.
      apply score_ge; auto. apply Hx, Hy.
  - induction Hs as [|x l Hs IH Hx]; constructor.
    + apply IH. apply Forall_cons_iff in Hnum. tauto.
    + apply Forall_cons_iff in Hnum as [Hnx Hnl].
      rewrite List.Forall_forall in *. intros y Hy.
      unfold not_less, score_lt. apply score_ge; auto.
Qed.

(** C2 (amended): [top_k_embeddings] fetches all records of the table,
    newest first, scores every record that has a vector, sorts by
    score in descending order with a stable sort and truncates to
    [k].  When no score is NaN: the sorted list has the scored records,
    every score is greater than or equal to the scores behind it, and
    of two records with equal scores (more generally, when the
    younger one's score is not smaller) the one inserted later is
    placed ahead; the list is the only stable sort in descending order
    of the scored records, whatever the sorting algorithm. *)
Theorem top_k_embeddings_ties_keep_fetch_order `{!IEEEOrder F} db
    (table t : string) (q : list F) (k : Z) (scored : list (F * row F)) :
  _normalize_table_name table = Ok t ->
  score_records q (order_by_created_at_desc (table_rows db t)) = Ok scored ->
  Forall (fun x => is_nan (fst x) = false) scored ->
  top_k_embeddings db table q k =
    Ok (map enrich (slice_to k (sort_by_score scored)))
  /\ (forall r v, In r (table_rows db t) -> embedding r = Some v ->
        exists s, cosine_similarity q v = Ok s
                  /\ In (s, r) (sort_by_score scored))
  /\ Permutation (sort_by_score scored) scored
  /\ StronglySorted (fun x y => fleb (fst y) (fst x) = true)
       (sort_by_score scored)
  /\ (forall s1 r1 s2 r2,
        In (s1, r1) scored -> In (s2, r2) scored ->
        created_at r1 < created_at r2 -> fleb s1 s2 = true ->
        precedes (s2, r2) (s1, r1) (sort_by_score scored))
  /\ (List.NoDup (map row_id (table_rows db t)) ->
      forall out : list (F * row F),
        Permutation out scored ->
        StronglySorted (fun x y => fleb (fst y) (fst x) = true) out ->
        (forall x y, precedes x y scored -> fleb (fst y) (fst x) = true ->
                     precedes x y out) ->
        out = sort_by_score scored).
Proof.
  intros Ht Hscored Hnum.
  assert (Hnum' : forall x, In x scored -> is_nan (fst x) = false)
    by (apply List.Forall_forall, Hnum).
  assert (Hsorted : StronglySorted (not_less score_lt) (sort_by_score scored)).
  { apply (sort_desc_sorted_on score_lt (fun x => is_nan (fst x) = false)).
    - intros x y. apply ieee_lt_asym.
    - intros x y z. apply ieee_ge_trans.
    - exact Hnum. }
  split; [|split; [|split; [|split; [|split]]]].
  - rewrite (top_k_embeddings_supported db table t q k Ht), Hscored. reflexivity.
  - intros r v Hin Hemb.
    destruct (score_records_complete q _ scored r v Hscored) as (s & Hs & Hin');
      [|exact Hemb|].
    + eapply Permutation_in; [symmetry; apply order_by_created_at_desc_perm|].
      exact Hin.
    + exists s. split; [exact Hs|]. apply sort_desc_in, Hin'.
  - apply sort_desc_perm.
  - apply sorted_by_score_ge; [|exact Hsorted].
    eapply Permutation_Forall; [symmetry; apply sort_desc_perm | exact Hnum].
  - intros s1 r1 s2 r2 H1 H2 Hlt Hge. apply sort_desc_stable.
    + apply (sorted_precedes (fun x y => older (snd x) (snd y))).
      * intros x y. apply older_asym.
      * eapply score_records_sorted; [|exact Hscored].
        apply order_by_created_at_desc_sorted.
      * exact H2.
      * exact H1.
      * apply Z.ltb_lt. exact Hlt.
    + unfold score_lt. simpl.
      apply score_ge; [apply (Hnum' _ H2) | apply (Hnum' _ H1) | exact Hge].
  - intros Hids out Hperm Hout Hstable.
    apply (stable_sort_unique score_lt (fun x => is_nan (fst x) = false)).
    + intros x y. apply ieee_lt_asym.
    + intros x y z. apply ieee_ge_trans.
    + eapply score_records_nodup; [|exact Hscored].
      eapply Permutation_NoDup;
        [symmetry; apply order_by_created_at_desc_perm|].
      apply nodup_of_ids, Hids.
    + exact Hnum.
    + exact Hperm.
    + apply sorted_by_score_ge; [|exact Hout].
      eapply Permutation_Forall; [symmetry; exact Hperm | exact Hnum].
    + intros x y Hp Hlt. apply Hstable; [exact Hp|].
      apply score_ge; [| |exact Hlt].
      * apply Hnum'. eapply precedes_in_l, Hp.
      * apply Hnum'. eapply precedes_in_r, Hp.
Qed.
End SearchFacts.

(** ** The route *)

Lemma filter_map_comm {A B : Type} (f : A -> B) (p : B -> bool) (l : list A) :
  List.filter p (map f l) = map f (List.filter (fun x => p (f x)) l).
Proof.
  induction l as [|x l IH]; simpl; [reflexivity|].
  destruct (p (f x)); simpl; rewrite IH; reflexivity.
Qed.

Lemma filter_length_le {A : Type} (p : A -> bool) (l : list A) :
  (length (List.filter p l) <= length l)%nat.
Proof.
  induction l as [|x l IH]; simpl; [lia|]. destruct (p x); simpl; lia.
Qed.

Lemma slice_to_nonneg {A : Type} (k : Z) (l : list A) :
  0 <= k -> slice_to k l = firstn (Z.to_nat k) l.
Proof.
  intros Hk. unfold slice_to.
  replace (k <? 0) with false by (symmetry; apply Z.ltb_ge; lia). reflexivity.
Qed.

Section RouteFacts.
Context {F : Type} `{PyFloat F}.
Implicit Types (db : gmap string (list (row F))).

(** [cosine_similarity] behind its two guards. *)
Lemma cosine_similarity_nonempty (a b : list F) :
  a <> [] -> b <> [] -> length a = length b ->
  cosine_similarity a b =
  if feqb (norm a) f0 || feqb (norm b) f0 then Ok f0
  else Ok (fdiv (dot a b) (fmul (norm a) (norm b))).
Proof.
  intros Ha Hb Hlen. unfold cosine_similarity.
  destruct a; [contradiction|]. destruct b; [contradiction|].
  cbn [is_empty orb]. rewrite Hlen, Nat.eqb_refl. reflexivity.
Qed.

(** Both stores answer at most [top_k] hits. *)
Lemma top_k_embeddings_length db (table : string) (q : list F) (k : Z)
    (hits : list (hit F)) :
  0 <= k -> top_k_embeddings db table q k = Ok hits ->
  Z.of_nat (length hits) <= k.
Proof.
  intros Hk. unfold top_k_embeddings.
  destruct (fetch_records db table None) as [records|]; [|discriminate].
  simpl. destruct (score_records q records) as [scored|]; [|discriminate].
  simpl. intros [= <-]. rewrite length_map, slice_to_nonneg by exact Hk.
  pose proof (firstn_le_length (Z.to_nat k) (sort_by_score scored)). lia.
Qed.

Lemma search_embeddings_length (svc : Services F) (settings : Settings) db
    (table : string) (q : list F) (k : Z) (hits : list (hit F)) :
  pg_limit_respected svc -> 0 <= k ->
  search_embeddings svc settings db table q k = Ok hits ->
  Z.of_nat (length hits) <= k.
Proof.
  intros Hlimit Hk. unfold search_embeddings.
  destruct (offline_mode settings); [apply top_k_embeddings_length, Hk|].
  destruct (get_pgvector_client settings); [|discriminate]. simpl.
  unfold PGVectorClient.search_embeddings.
  destruct (_identifier_parts table) as [identifier|]; [|discriminate]. simpl.
  destruct (pg_fetchall svc identifier q k) as [rows|] eqn:Hrows; [|discriminate].
  simpl. intros [= <-]. rewrite length_map. eapply Hlimit; eassumption.
Qed.

(** What the handler makes of the answer of the store. *)
Lemma retrieve_memories_of_search (svc : Services F) (settings : Settings) db
    (payload : MemoryRetrieveRequest F) :
  String.eqb (strip (query payload)) "" = false ->
  retrieve_memories svc settings db payload =
  match (embedding ← generate_embedding svc settings
                       (code_points (query payload));
         search_embeddings svc settings db (memory_table_name settings)
           embedding (top_k payload))
  with
  | Raise (ValueError msg) => Raise (HTTPException 400 msg)
  | Raise _ => Raise (HTTPException 502 "Vector search is unavailable.")
  | Ok results =>
      Ok (map to_result (List.filter (clears (min_similarity payload)) results))
  end.
Proof. intros Hq. unfold retrieve_memories. rewrite Hq. reflexivity. Qed.


(** The similarity the handler reads off an item compares as the
    similarity of the item. *)
Lemma item_similarity_nan `{!IEEEOrder F} (h : hit F) :
  is_nan (item_similarity h) = is_nan (similarity h).
Proof.
  unfold item_similarity. destruct (feqb (similarity h) f0) eqn:Hz;
    [|reflexivity].
  unfold is_nan at 1. rewrite ieee_zero. simpl.
  destruct (is_nan (similarity h)) eqn:Hnan; [|reflexivity].
  destruct (ieee_nan (similarity h) f0 (or_introl Hnan)) as (_ & _ & Heq).
  congruence.
Qed.

Lemma item_similarity_fltb `{!IEEEOrder F} (h : hit F) (m : F) :
  fltb (item_similarity h) m = fltb (similarity h) m.
Proof.
  unfold item_similarity. destruct (feqb (similarity h) f0) eqn:Hz;
    [|reflexivity].
  symmetry. apply (ieee_eq_lt _ _ m Hz).
Qed.

(** With a threshold that is a number, an item whose similarity is a
    number clears the threshold exactly when its similarity is
    greater than or equal to the threshold. *)
Lemma clears_number `{!IEEEOrder F} (m : F) (h : hit F) :
  is_nan m = false -> is_nan (similarity h) = false ->
  clears (Some m) h = fleb m (similarity h).
Proof.
  intros Hm Hs. unfold clears. rewrite item_similarity_fltb.
  symmetry. apply ieee_le_lt; assumption.
Qed.

(** An item whose similarity is NaN clears every threshold. *)
Lemma clears_nan `{!IEEEOrder F} (m : F) (h : hit F) :
  is_nan (similarity h) = true ->
  clears (Some m) h = true /\ fleb m (similarity h) = false.
Proof.
  intros Hs. unfold clears. rewrite item_similarity_fltb.
  destruct (ieee_nan (similarity h) m (or_introl Hs)) as (-> & _ & _).
  destruct (ieee_nan m (similarity h) (or_intror Hs)) as (_ & -> & _).
  split; reflexivity.
Qed.

(** The bounds of the request model make the threshold a number. *)
Lemma valid_request_threshold `{!IEEEOrder F} (payload : MemoryRetrieveRequest F)
    (m : F) :
  valid_request payload = true -> min_similarity payload = Some m ->
  is_nan m = false /\ 1 <= top_k payload <= 25.
Proof.
  unfold valid_request. rewrite !andb_true_iff. intros [[[_ Hk1] Hk2] Hm] Hmin.
  rewrite Hmin in Hm. apply andb_true_iff in Hm as [Hm _].
  split; [|split; [apply Z.leb_le, Hk1 | apply Z.leb_le, Hk2]].
  destruct (is_nan m) eqn:Hnan; [|reflexivity].
  destruct (ieee_nan f0 m (or_intror Hnan)) as (_ & Hle & _). congruence.
Qed.
End RouteFacts.

(** ** The route in binary64: a similarity that is NaN

    The C library's [pow] is a parameter.  What is assumed of it holds
    of every C library: [pow(inf, 0.5)] is infinity and [pow(0.0, 0.5)]
    is [0.0] (C standard, Annex F), and the norm it gives to the
    vector of the query ["kia ora"], the square root of about 8.46, is
    positive. *)
Section NaNSimilarity.
Variable pow_half : float -> float.
Hypothesis pow_half_infinity : pow_half infinity = infinity.
Hypothesis query_norm_positive :
  PrimFloat.ltb 0 (@norm float (binary64_with pow_half)
                     (offline_vector "kia ora")) = true.



Hypothesis pow_half_zero : pow_half 0%float = 0%float.


End NaNSimilarity.

(** ** Worked examples *)

Example cosine_run :
  cosine_similarity [3%float; 4%float] [3%float; 4%float] = Ok 1%float.
Proof. vm_compute. reflexivity. Qed.

(** ["é".encode("utf-8") == b"\xc3\xa9"], and the euro sign and an
    emoji, of three and four bytes. *)
Example utf8_encode_run :
  (b ← utf8_encode [233%N]; Ok (map byte_val b)) = Ok [195; 169]
  /\ (b ← utf8_encode [0x20AC%N]; Ok (map byte_val b)) = Ok [226; 130; 172]
  /\ (b ← utf8_encode [0x1F600%N]; Ok (map byte_val b))
     = Ok [240; 159; 152; 128].
Proof. repeat split; vm_compute; reflexivity. Qed.

Lemma normalize_ti_memory : _normalize_table_name "ti_memory" = Ok "ti_memory".
Proof. vm_compute. reflexivity. Qed.

Lemma demo_ids_unique :
  List.NoDup (map row_id (table_rows demo_db "ti_memory")).
Proof.
  vm_compute. repeat constructor; simpl; intuition discriminate.
Qed.

Lemma cosine_similarity_length_mismatch_witness :
  cosine_similarity [1%float] [1%float; 2%float] =
  Raise (ValueError "Vectors must be the same length for cosine similarity.").
Proof.
  apply (cosine_similarity_length_mismatch [1%float] [1%float; 2%float]);
    simpl; congruence.
Defined.

(** C6 as stated fails: an empty vector against a non-empty one is a
    pair of different lengths, and the call returns [0.0]. *)
Lemma cosine_similarity_empty_mismatch_returns :
  ~ (forall a b : list float,
        length a <> length b -> exists e, cosine_similarity a b = Raise e).
Proof.
  intros Hall. destruct (Hall [] [1%float]) as [e He]; [simpl; congruence|].
  discriminate He.
Qed.

(** [cosine_similarity([1e-200], [1e-200])] is [0.0] and
    [cosine_similarity([1e200], [1e200])] is NaN. *)
Lemma cosine_similarity_underflow_overflow_witness :
  cosine_similarity [0x1.87e92154ef7acp-665%float] [0x1.87e92154ef7acp-665%float]
  = Ok 0%float
  /\ cosine_similarity [0x1.4e718d7d7625ap+664%float]
       [0x1.4e718d7d7625ap+664%float]
     = Ok nan.
Proof.
  exact (proj2 (cosine_similarity_underflow_overflow PrimFloat.sqrt
                  eq_refl eq_refl)).
Defined.

(** The vector of ["kia ora"]: the bytes of its digest, each divided
    by 255. *)
Lemma generate_embedding_offline_witness :
  exists v : list float,
    generate_embedding (quiet_services float) offline_settings
      (code_points "kia ora") = Ok v
    /\ length v = 32%nat
    /\ v = map (fun n => PrimFloat.div (PrimFloat.of_uint63 n) 255)
             [231; 43; 184; 156; 1; 22; 29; 137; 65; 98; 113; 116; 44; 163;
              231; 189; 227; 206; 162; 216; 98; 28; 45; 176; 61; 29; 56; 135;
              36; 27; 48; 137]%uint63.
Proof.
  destruct (proj1 generate_embedding_offline_deterministic float binary64
              (quiet_services float) offline_settings (code_points "kia ora")
              eq_refl eq_refl)
    as (v & Hv & Hlen & _ & Hbytes & _).
  exists v. split; [exact Hv|]. split; [exact Hlen|].
  rewrite Hbytes. vm_compute. reflexivity.
Defined.

(** C7 as stated fails: a text that is one lone surrogate is not
    empty, and the strict UTF-8 codec refuses it; [generate_embedding]
    raises the [UnicodeEncodeError] of the codec, a [ValueError], and
    returns no vector. *)
Lemma generate_embedding_surrogate_raises :
  generate_embedding (quiet_services float) offline_settings [0xD800%N]
  = Raise (ValueError
             "'utf-8' codec can't encode character '\ud800' in position 0: surrogates not allowed")
  /\ ~ (forall text : unicode,
          text <> [] ->
          exists v : list float,
            generate_embedding (quiet_services float) offline_settings text
            = Ok v
            /\ length v = 32%nat).
Proof.
  split; [vm_compute; reflexivity|].
  intros Hall. destruct (Hall [0xD800%N]) as (v & Hv & _); [discriminate|].
  vm_compute in Hv. discriminate Hv.
Qed.


Lemma prune_embeddings_witness :
  exists db',
    prune_embeddings demo_db "ti_memory" 2 = Ok db'
    /\ map row_id (table_rows db' "ti_memory") = ["b"; "c"].
Proof.
  destruct (prune_embeddings_keeps_most_recent demo_db "ti_memory" "ti_memory" 2
              normalize_ti_memory ltac:(lia) demo_ids_unique)
    as (db' & Hprune & _ & _ & _ & Hlast).
  exists db'. split; [exact Hprune|]. rewrite Hlast.
  - vm_compute. reflexivity.
  - vm_compute. repeat constructor.
Defined.

(** The retry decorator around [flaky]: two failures, two sleeps, of
    0.5 and 1 second, and the value of the third call. *)
Lemma retry_flaky_witness :
  exists trace,
    retry 3 (1 # 2) flaky 0%nat = (Returned 2%nat, 3%nat, trace)
    /\ Forall2 Qeq (sleeps trace) [(1 # 2)%Q; (2 * (1 # 2))%Q].
Proof.
  apply (proj1 (proj2 (proj2 (retry_backoff_then_last_error 3 (1 # 2) flaky 0%nat)))
           (RuntimeError "connection reset") (RuntimeError "connection reset")
           2%nat 1%nat 2%nat 3%nat); reflexivity.
Defined.

Example retry_flaky_run :
  sleeps (snd (retry 3 (1 # 2) flaky 0%nat)) = [(1 # 2)%Q; (2 # 2)%Q].
Proof. vm_compute. reflexivity. Qed.

(** An identifier with a blank inside a part is refused and nothing
    is sent. *)
Lemma identifier_rejected_witness :
  PGVectorClient.search_embeddings (quiet_services float) "ti memory"
    [1%float] 5 =
  (Raise (not_permitted "ti memory"), []).
Proof.
  apply (proj1 (identifier_rejected_before_query (quiet_services float)
                  "ti memory")).
  left. exists "ti memory", " "%char. repeat split.
  - vm_compute. auto.
  - vm_compute. auto 20.
Defined.

(** C9 as stated fails: white space around a part is stripped and
    empty parts are dropped before the parts are checked, so an
    identifier with a leading blank and an identifier with two dots
    are accepted. *)
Lemma identifier_outside_pattern_accepted :
  (outside_allow_pattern " ti_memory"
   /\ _identifier_parts " ti_memory" = Ok ["ti_memory"])
  /\ (outside_allow_pattern "public..ti_memory"
      /\ _identifier_parts "public..ti_memory" = Ok ["public"; "ti_memory"]).
Proof.
  split; split; try (vm_compute; reflexivity).
  - left. exists " "%char. repeat split.
    + simpl. auto.
    + discriminate.
  - right. vm_compute. lia.
Qed.

(** The two records with equal scores: [b], stored later, is ranked
    ahead of [a]. *)
Lemma top_k_embeddings_ties_witness :
  top_k_embeddings demo_db "ti_memory" [1%float; 0%float] 1 =
  Ok [Hit (Row "b" "kia ora" "{}" (Some [1%float; 0%float]) 200) 1%float].
Proof.
  assert (Hscored :
    score_records [1%float; 0%float]
      (order_by_created_at_desc (table_rows demo_db "ti_memory")) =
    Ok [(0%float, Row "c" "hello" "{}" (Some [0%float; 1%float]) 300);
        (1%float, Row "b" "kia ora" "{}" (Some [1%float; 0%float]) 200);
        (1%float, Row "a" "kia ora" "{}" (Some [1%float; 0%float]) 100)])
    by (vm_compute; reflexivity).
  destruct (top_k_embeddings_ties_keep_fetch_order demo_db "ti_memory"
              "ti_memory" [1%float; 0%float] 1 _ normalize_ti_memory Hscored
              ltac:(repeat constructor))
    as [Htop _].
  rewrite Htop. vm_compute. reflexivity.
Defined.

(** C2 as stated fails: [a] is inserted before [b], both score 1.0
    against the query, and [b] is placed ahead of [a] and is the one
    that is kept when the result is truncated to one record. *)
Lemma later_record_wins_ties :
  (exists db1,
      store_embedding ∅ "ti_memory" "kia ora" [1%float; 0%float] None "a" 100
        = Ok (db1, "a")
      /\ exists db2,
        store_embedding db1 "ti_memory" "kia ora" [1%float; 0%float] None "b" 200
          = Ok (db2, "b")
        /\ store_embedding db2 "ti_memory" "hello" [0%float; 1%float] None "c" 300
           = Ok (demo_db, "c"))
  /\ (x ← top_k_embeddings demo_db "ti_memory" [1%float; 0%float] 2;
      Ok (map (fun h => (row_id (hit_row h), similarity h)) x))
     = Ok [("b", 1%float); ("a", 1%float)]
  /\ (x ← top_k_embeddings demo_db "ti_memory" [1%float; 0%float] 1;
      Ok (map (fun h => row_id (hit_row h)) x))
     = Ok ["b"].
Proof.
  split; [|split]; try (vm_compute; reflexivity).
  eexists. split; [vm_compute; reflexivity|].
  eexists. split; vm_compute; reflexivity.
Qed.



(** The same request in binary64: the stored text itself and the
    closest of the other two clear the ranking; with the threshold
    0.9 only the text itself is returned. *)
Example post_retrieve_run :
  (x ← post_retrieve (quiet_services float) offline_settings memory_db
         {| query := "kia ora"; top_k := 2; min_similarity := None |};
   Ok (map res_id x)) = Ok ["m1"; "m3"]
  /\ (x ← post_retrieve (quiet_services float) offline_settings memory_db
            {| query := "kia ora"; top_k := 2;
               min_similarity := Some (PrimFloat.div 9 10) |};
      Ok (map res_id x)) = Ok ["m1"].
Proof. split; vm_compute; reflexivity. Qed.

(** An empty query is refused by the request model and a blank one by
    the handler; neither reaches the embedding provider. *)
Example blank_query_rejected :
  post_retrieve (quiet_services float) offline_settings memory_db
    {| query := ""; top_k := 5; min_similarity := None |}
  = Raise (HTTPException 422 "Unprocessable Entity")
  /\ post_retrieve (quiet_services float) offline_settings memory_db
       {| query := "   "; top_k := 5; min_similarity := None |}
     = Raise (HTTPException 400 "Query text is required.").
Proof. split; vm_compute; reflexivity. Qed.

(** A stored vector of another length than the query's is a
    [ValueError] of [cosine_similarity], answered 400. *)
Example dimension_mismatch_is_400 :
  post_retrieve (quiet_services float) offline_settings demo_db
    {| query := "kia ora"; top_k := 5; min_similarity := None |}
  = Raise (HTTPException 400
             "Vectors must be the same length for cosine similarity.").
Proof. vm_compute. reflexivity. Qed.

(** ** More about the local store *)

Lemma split_chars_nonempty (sep : ascii) (l : list ascii) :
  split_chars sep l <> [].
Proof.
  destruct l as [|c l]; simpl; [discriminate|].
  destruct (Ascii.eqb c sep); [discriminate|].
  destruct (split_chars sep l); discriminate.
Qed.

Lemma split_chars_no_sep (sep : ascii) (l : list ascii) :
  ~ In sep l -> split_chars sep l = [l].
Proof.
  induction l as [|c l IH]; intros Hnot; simpl; [reflexivity|].
  destruct (Ascii.eqb_spec c sep) as [-> | Hne].
  - exfalso. apply Hnot. left. reflexivity.
  - rewrite IH; [reflexivity|]. intros Hin. apply Hnot. right. exact Hin.
Qed.

Lemma split_chars_app_sep (sep : ascii) (p n : list ascii) :
  split_chars sep (p ++ sep :: n) = split_chars sep p ++ split_chars sep n.
Proof.
  induction p as [|c p IH]; simpl.
  - rewrite Ascii.eqb_refl. reflexivity.
  - destruct (Ascii.eqb c sep); rewrite IH; [reflexivity|].
    pose proof (split_chars_nonempty sep p) as Hne.
    destruct (split_chars sep p) as [|p0 ps]; [contradiction|]. reflexivity.
Qed.

Lemma list_ascii_of_string_app (s1 s2 : string) :
  list_ascii_of_string (s1 ++ s2)%string =
  list_ascii_of_string s1 ++ list_ascii_of_string s2.
Proof. induction s1 as [|c s1 IH]; simpl; [reflexivity|]. rewrite IH. reflexivity. Qed.

Lemma last_app_nonempty {A : Type} (l1 l2 : list A) (d : A) :
  l2 <> [] -> List.last (l1 ++ l2) d = List.last l2 d.
Proof.
  intros Hne. induction l1 as [|x l1 IH]; simpl; [reflexivity|].
  destruct (l1 ++ l2) eqn:Happ; [|exact IH].
  apply app_eq_nil in Happ as [_ ->]. contradiction.
Qed.

(** The part of a table name in front of its last dot plays no role. *)
Lemma last_part_of_qualified (prefix name : string) :
  ~ In "."%char (list_ascii_of_string name) ->
  List.last (split_dot (prefix ++ "." ++ name)%string) "" = name.
Proof.
  intros Hnodot. unfold split_dot.
  rewrite list_ascii_of_string_app.
  change (list_ascii_of_string ("." ++ name)%string)
    with ("."%char :: list_ascii_of_string name).
  rewrite split_chars_app_sep, map_app.
  rewrite (split_chars_no_sep "."%char (list_ascii_of_string name) Hnodot).
  rewrite last_app_nonempty by discriminate. simpl.
  apply string_of_list_ascii_of_string.
Qed.

Lemma last_part_of_plain (name : string) :
  ~ In "."%char (list_ascii_of_string name) ->
  List.last (split_dot name) "" = name.
Proof.
  intros Hnodot. unfold split_dot. rewrite (split_chars_no_sep _ _ Hnodot).
  simpl. apply string_of_list_ascii_of_string.
Qed.

Lemma supported_table_cases (n : string) :
  n ∈ _SUPPORTED_TABLES ->
  n = "ocr_logs" \/ n = "translations" \/ n = "embeddings"
  \/ n = "ti_memory" \/ n = "task_queue" \/ n = "mauri_logs".
Proof.
  unfold _SUPPORTED_TABLES. rewrite !elem_of_union, !elem_of_singleton. tauto.
Qed.

Lemma normalize_supported (table n : string) :
  _normalize_table_name table = Ok n ->
  n ∈ _SUPPORTED_TABLES /\ _normalize_table_name n = Ok n.
Proof.
  unfold _normalize_table_name at 1.
  destruct (decide (strip (List.last (split_dot table) "") ∈ _SUPPORTED_TABLES))
    as [Hin|]; [|discriminate].
  intros [= <-]. split; [exact Hin|].
  destruct (supported_table_cases _ Hin) as [-> | [-> | [-> | [-> | [-> | ->]]]]];
    vm_compute; reflexivity.
Qed.

Section QualifiedNames.
Context {F : Type} `{PyFloat F}.
Implicit Types (db : gmap string (list (row F))).

(** X1: a schema prefix in front of a table name is ignored by the
    local store: when [name] has no dot and is accepted,
    [prefix.name] is accepted as the same table, the accepted name is
    one of the supported tables and is accepted again as itself, and
    fetching, searching and pruning under the qualified name do what
    they do under the plain name. *)
Theorem qualified_table_name_is_same_table db (prefix name n : string) :
  ~ In "."%char (list_ascii_of_string name) ->
  _normalize_table_name name = Ok n ->
  _normalize_table_name (prefix ++ "." ++ name)%string = Ok n
  /\ n ∈ _SUPPORTED_TABLES
  /\ _normalize_table_name n = Ok n
  /\ (forall limit,
         fetch_records db (prefix ++ "." ++ name)%string limit =
         fetch_records db name limit)
  /\ (forall q k,
         top_k_embeddings db (prefix ++ "." ++ name)%string q k =
         top_k_embeddings db name q k)
  /\ (forall keep,
         prune_embeddings db (prefix ++ "." ++ name)%string keep =
         prune_embeddings db name keep).
Proof.
  intros Hnodot Hname.
  assert (Hq : _normalize_table_name (prefix ++ "." ++ name)%string = Ok n).
  { revert Hname. unfold _normalize_table_name.
    rewrite (last_part_of_qualified prefix name Hnodot).
    rewrite (last_part_of_plain name Hnodot).
    destruct (decide (strip name ∈ _SUPPORTED_TABLES)); [|discriminate].
    intros H0. exact H0. }
  destruct (normalize_supported name n Hname) as [Hin Hidem].
  repeat split; try assumption.
  - intros limit. unfold fetch_records. rewrite Hq, Hname. reflexivity.
  - intros q k. unfold top_k_embeddings, fetch_records.
    rewrite Hq, Hname. reflexivity.
  - intros keep. unfold prune_embeddings, fetch_records.
    rewrite Hq, Hname. reflexivity.
Qed.
End QualifiedNames.


Lemma strongly_sorted_firstn {A : Type} (R : A -> A -> Prop) (n : nat) (l : list A) :
  StronglySorted R l -> StronglySorted R (firstn n l).
Proof.
  intros Hs. revert n. induction Hs as [|x l _ IH Hx]; intros [|n]; simpl;
    try constructor.
  - apply IH.
  - apply List.Forall_forall. intros y Hy. rewrite List.Forall_forall in Hx.
    apply Hx. eapply in_firstn, Hy.
Qed.

Lemma strongly_sorted_map {A B : Type} (f : A -> B) (R : B -> B -> Prop)
    (l : list A) :
  StronglySorted (fun x y => R (f x) (f y)) l -> StronglySorted R (map f l).
Proof.
  induction 1 as [|x l _ IH Hx]; simpl; constructor; [exact IH|].
  apply List.Forall_forall. intros y Hy. apply in_map_iff in Hy as (z & <- & Hz).
  rewrite List.Forall_forall in Hx. apply Hx, Hz.
Qed.

Section FetchFacts.
Context {F : Type}.
Implicit Types (db : gmap string (list (row F))).


Lemma sort_desc_snoc_greatest {A : Type} (lt : A -> A -> bool) (x : A)
    (l : list A) :
  Forall (fun y => lt y x = true) l ->
  sort_desc lt (l ++ [x]) = x :: sort_desc lt l.
Proof.
  induction 1 as [|y l Hy _ IH]; simpl; [reflexivity|].
  rewrite IH. simpl. rewrite Hy. reflexivity.
Qed.

(** X3: storing and fetching.  With an id that is not yet in the
    table, [store_embedding] returns that id, appends the record to
    the table and leaves the other tables alone; the record is then
    among the fetched records, and it is the first of them when it is
    younger than every record of the table.  With an id that is in the
    table already the store refuses the record. *)
Theorem store_embedding_then_fetch db (table t content : string) (v : list F)
    (meta : option string) (i : string) (now : Z) :
  _normalize_table_name table = Ok t ->
  let record := Row i content (default "{}" meta) (Some v) now in
  ((forall r, In r (table_rows db t) -> row_id r <> i) ->
   exists db',
     store_embedding db table content v meta i now = Ok (db', i)
     /\ table_rows db' t = table_rows db t ++ [record]
     /\ (forall t', t' <> t -> table_rows db' t' = table_rows db t')
     /\ (exists records,
            fetch_records db' table None = Ok records
            /\ In record records
            /\ length records = S (length (table_rows db t)))
     /\ ((forall r, In r (table_rows db t) -> created_at r < now) ->
         forall records,
           fetch_records db table None = Ok records ->
           fetch_records db' table None = Ok (record :: records)))
  /\ ((exists r, In r (table_rows db t) /\ row_id r = i) ->
      store_embedding db table content v meta i now =
      Raise (IntegrityError "UNIQUE constraint failed")).
Proof.
  intros Ht record. unfold store_embedding, insert_record. rewrite Ht. simpl.
  fold record. split.
  - intros Hfresh.
    assert (Hex : existsb (fun r => String.eqb (row_id r) i)
                    (table_rows db t) = false).
    { apply not_true_iff_false. intros Hex. apply existsb_exists in Hex.
      destruct Hex as (r & Hr & Heq). apply String.eqb_eq in Heq.
      apply (Hfresh r Hr). exact Heq. }
    rewrite Hex. simpl. eexists. split; [reflexivity|].
    assert (Hrows : table_rows (<[t := table_rows db t ++ [record]]> db) t
                    = table_rows db t ++ [record]).
    { unfold table_rows at 1. rewrite lookup_insert_eq. reflexivity. }
    split; [exact Hrows|]. split; [|split].
    + intros t' Hne. unfold table_rows at 1 3.
      rewrite lookup_insert_ne by congruence. reflexivity.
    + eexists. split; [exact (fetch_records_supported _ table t None Ht)|]. simpl.
      rewrite Hrows. split.
      * eapply Permutation_in; [symmetry; apply order_by_created_at_desc_perm|].
        apply in_or_app. right. left. reflexivity.
      * rewrite (Permutation_length (order_by_created_at_desc_perm _)).
        rewrite List.length_app. simpl. lia.
    + intros Hyoung records Hrec.
      rewrite (fetch_records_supported db table t None Ht) in Hrec.
      simpl in Hrec. injection Hrec as <-.
      rewrite (fetch_records_supported _ table t None Ht). simpl.
      rewrite Hrows. f_equal. apply sort_desc_snoc_greatest.
      apply List.Forall_forall. intros r Hr. apply Z.ltb_lt, Hyoung, Hr.
  - intros (r & Hr & Heq).
    assert (Hex : existsb (fun r => String.eqb (row_id r) i)
                    (table_rows db t) = true).
    { apply existsb_exists. exists r. split; [exact Hr|].
      apply String.eqb_eq. exact Heq. }
    rewrite Hex. reflexivity.
Qed.
End FetchFacts.

Lemma nodup_map_filter {A B : Type} (f : A -> B) (p : A -> bool) (l : list A) :
  List.NoDup (map f l) -> List.NoDup (map f (List.filter p l)).
Proof.
  induction l as [|x l IH]; simpl; intros Hnd; [constructor|].
  inversion Hnd as [|? ? Hx Hnd']; subst.
  destruct (p x); simpl; [|apply IH, Hnd'].
  constructor; [|apply IH, Hnd'].
  intros Hin. apply Hx. apply in_map_iff in Hin as (y & Hy & Hyl).
  apply filter_In in Hyl as [Hyl _]. apply in_map_iff. exists y. split; assumption.
Qed.

Section PruneMore.
Context {F : Type}.
Implicit Types (db : gmap string (list (row F))).

(** Deleting the ids of the records behind position [k] of the fetch
    leaves the records in front of it. *)
Lemma delete_skipped_ids_perm (l records : list (row F)) (k : nat) :
  List.NoDup (map row_id l) -> Permutation records l ->
  Permutation (delete_ids (map row_id (skipn k records)) l) (firstn k records).
Proof.
  intros Hnd Hperm.
  transitivity (delete_ids (map row_id (skipn k records)) records).
  - apply filter_perm. symmetry. exact Hperm.
  - pose proof (delete_ids_app_r (firstn k records) (skipn k records)
                  (map row_id (skipn k records))) as Hdel.
    rewrite firstn_skipn in Hdel. rewrite Hdel; [reflexivity| |reflexivity].
    eapply Permutation_NoDup; [|exact Hnd].
    apply Permutation_map. symmetry. exact Hperm.
Qed.

(** In Python's terms the table holds [records[:keep]] afterwards. *)
Lemma prune_embeddings_keeps_slice db (table t : string) (keep : Z) :
  _normalize_table_name table = Ok t ->
  List.NoDup (map row_id (table_rows db t)) ->
  exists db',
    prune_embeddings db table keep = Ok db'
    /\ (forall t', t' <> t -> table_rows db' t' = table_rows db t')
    /\ (exists ids, table_rows db' t = delete_ids ids (table_rows db t))
    /\ Permutation (table_rows db' t)
         (slice_to keep (order_by_created_at_desc (table_rows db t))).
Proof.
  intros Ht Hnd.
  destruct (prune_embeddings_rows db table t keep Ht) as (db' & Hp & Hother & Hrows).
  exists db'. split; [exact Hp|]. split; [exact Hother|].
  pose proof (order_by_created_at_desc_perm (table_rows db t)) as Hperm.
  pose proof (Permutation_length Hperm) as Hlen.
  rewrite Hrows. destruct (Z.leb_spec (Z.of_nat (length (table_rows db t))) keep)
    as [Hle | Hgt].
  - split.
    + exists []. unfold delete_ids. simpl. symmetry. apply filter_all_true.
      reflexivity.
    + unfold slice_to.
      replace (keep <? 0) with false by (symmetry; apply Z.ltb_ge; lia).
      rewrite firstn_all2 by lia. symmetry. exact Hperm.
  - split; [eexists; reflexivity|].
    unfold slice_from, slice_to. destruct (keep <? 0);
      apply delete_skipped_ids_perm; assumption.
Qed.

(** X4: pruning with [keep >= 0] is idempotent and only removes: a
    second [prune_embeddings] with the same [keep] changes nothing,
    the other tables are untouched, the pruned table is the old one
    with some rows deleted (the order of the rest is kept) and its ids
    are still unique. *)
Theorem prune_embeddings_idempotent db db' (table t : string) (keep : Z) :
  _normalize_table_name table = Ok t ->
  0 <= keep ->
  List.NoDup (map row_id (table_rows db t)) ->
  prune_embeddings db table keep = Ok db' ->
  prune_embeddings db' table keep = Ok db'
  /\ (forall t', t' <> t -> table_rows db' t' = table_rows db t')
  /\ (exists ids, table_rows db' t = delete_ids ids (table_rows db t))
  /\ List.NoDup (map row_id (table_rows db' t)).
Proof.
  intros Ht Hkeep Hnd Hprune.
  destruct (prune_embeddings_keeps_slice db table t keep Ht Hnd)
    as (db'' & Hp & Hother & (ids & Hsub) & Hperm).
  rewrite Hprune in Hp. injection Hp as <-.
  split; [|split; [exact Hother|split; [exists ids; exact Hsub|]]].
  - unfold prune_embeddings.
    rewrite (fetch_records_supported db' table t None Ht). simpl.
    rewrite (Permutation_length (order_by_created_at_desc_perm _)).
    rewrite (Permutation_length Hperm).
    rewrite slice_to_nonneg by exact Hkeep.
    pose proof (firstn_le_length (Z.to_nat keep)
                  (order_by_created_at_desc (table_rows db t))) as Hle.
    replace (Z.of_nat _ <=? keep) with true; [reflexivity|].
    symmetry. apply Z.leb_le. lia.
  - rewrite Hsub. apply nodup_map_filter, Hnd.
Qed.

(** X5: a negative [keep] is read as Python reads a negative slice
    bound: [prune_embeddings(table, -m)] deletes the [m] oldest
    records and keeps the others, so [n - m] records stay (none when
    [m > n]) and no record that stays is older than one that goes. *)
Theorem prune_embeddings_negative_keep db (table t : string) (m : nat) :
  _normalize_table_name table = Ok t ->
  (0 < m)%nat ->
  List.NoDup (map row_id (table_rows db t)) ->
  exists db',
    prune_embeddings db table (- Z.of_nat m) = Ok db'
    /\ length (table_rows db' t) = (length (table_rows db t) - m)%nat
    /\ Permutation (table_rows db' t)
         (firstn (length (table_rows db t) - m)
            (order_by_created_at_desc (table_rows db t)))
    /\ (forall r r', In r (table_rows db' t) -> In r' (table_rows db t) ->
          ~ In r' (table_rows db' t) -> created_at r' <= created_at r).
Proof.
  intros Ht Hm Hnd.
  destruct (prune_embeddings_keeps_slice db table t (- Z.of_nat m) Ht Hnd)
    as (db' & Hp & _ & _ & Hperm).
  exists db'. split; [exact Hp|].
  pose proof (order_by_created_at_desc_perm (table_rows db t)) as Hfetch.
  pose proof (Permutation_length Hfetch) as Hlen.
  set (records := order_by_created_at_desc (table_rows db t)) in *.
  assert (Hslice : slice_to (- Z.of_nat m) records
                   = firstn (length (table_rows db t) - m) records).
  { unfold slice_to.
    replace (- Z.of_nat m <? 0) with true by (symmetry; apply Z.ltb_lt; lia).
    rewrite Z.opp_involutive, Nat2Z.id, Hlen. reflexivity. }
  rewrite Hslice in Hperm. split; [|split; [exact Hperm|]].
  - rewrite (Permutation_length Hperm), List.length_firstn. lia.
  - intros r r' Hr Hr' Hnr'.
    set (k := (length (table_rows db t) - m)%nat) in *.
    assert (Hr1 : In r (firstn k records))
      by (eapply Permutation_in; [exact Hperm | exact Hr]).
    assert (Hr2 : In r' (skipn k records)).
    { assert (Hrec : In r' (firstn k records ++ skipn k records)).
      { rewrite firstn_skipn. eapply Permutation_in; [symmetry; exact Hfetch|].
        exact Hr'. }
      apply in_app_or in Hrec as [Hrec | Hrec]; [|exact Hrec].
      exfalso. apply Hnr'. eapply Permutation_in; [symmetry; exact Hperm|].
      exact Hrec. }
    pose proof (sorted_firstn_skipn _ k records r r'
                  (order_by_created_at_desc_sorted (table_rows db t)) Hr1 Hr2)
      as Hord.
    unfold not_less, older in Hord. apply Z.ltb_ge in Hord. exact Hord.
Qed.
End PruneMore.

Lemma in_slice_to {A : Type} (x : A) (k : Z) (l : list A) :
  In x (slice_to k l) -> In x l.
Proof. unfold slice_to. destruct (k <? 0); apply in_firstn. Qed.

Lemma strongly_sorted_slice_to {A : Type} (R : A -> A -> Prop) (k : Z)
    (l : list A) :
  StronglySorted R l -> StronglySorted R (slice_to k l).
Proof. unfold slice_to. destruct (k <? 0); apply strongly_sorted_firstn. Qed.

Lemma existsb_perm {A : Type} (p : A -> bool) (l l' : list A) :
  Permutation l l' -> existsb p l = existsb p l'.
Proof.
  intros Hperm. destruct (existsb p l) eqn:H1, (existsb p l') eqn:H2;
    try reflexivity.
  - apply existsb_exists in H1 as (x & Hx & Hp).
    apply not_true_iff_false in H2. exfalso. apply H2. apply existsb_exists.
    exists x. split; [eapply Permutation_in; eassumption | exact Hp].
  - apply existsb_exists in H2 as (x & Hx & Hp).
    apply not_true_iff_false in H1. exfalso. apply H1. apply existsb_exists.
    exists x. split; [eapply Permutation_in; [symmetry|]; eassumption | exact Hp].
Qed.

Section SearchMore.
Context {F : Type} `{PyFloat F}.
Implicit Types (db : gmap string (list (row F))).

Lemma score_records_length (q : list F) (records : list (row F))
    (scored : list (F * row F)) :
  score_records q records = Ok scored ->
  length scored = length (List.filter has_vector records).
Proof.
  revert scored. induction records as [|r rest IH]; intros scored; simpl.
  - intros [= <-]. reflexivity.
  - unfold has_vector at 1. destruct (embedding r) as [v|]; [|apply IH].
    destruct (cosine_similarity q v) as [s|]; [|discriminate]. simpl.
    destruct (score_records q rest) as [scored'|]; [|discriminate]. simpl.
    intros [= <-]. simpl. f_equal. apply IH. reflexivity.
Qed.

(** [cosine_similarity] raises exactly on two non-empty vectors of
    different lengths. *)
Lemma cosine_similarity_raises_iff (q v : list F) :
  if negb (is_empty q) && negb (is_empty v) && negb (length q =? length v)%nat
  then cosine_similarity q v = Raise length_mismatch
  else exists s, cosine_similarity q v = Ok s.
Proof.
  unfold cosine_similarity.
  destruct (is_empty q), (is_empty v); simpl; try (eexists; reflexivity).
  destruct (length q =? length v)%nat; simpl; [|reflexivity].
  destruct (feqb (norm q) f0 || feqb (norm v) f0); eexists; reflexivity.
Qed.

Lemma score_records_raises_iff (q : list F) (records : list (row F)) :
  if existsb (mismatched q) records
  then score_records q records = Raise length_mismatch
  else exists scored, score_records q records = Ok scored.
Proof.
  induction records as [|r rest IH]; simpl; [eexists; reflexivity|].
  unfold mismatched at 1. destruct (embedding r) as [v|]; simpl; [|exact IH].
  pose proof (cosine_similarity_raises_iff q v) as Hcos.
  destruct (negb (is_empty q) && negb (is_empty v)
            && negb (length q =? length v)%nat); simpl.
  - rewrite Hcos. reflexivity.
  - destruct Hcos as [s ->]. simpl.
    destruct (existsb (mismatched q) rest).
    + rewrite IH. reflexivity.
    + destruct IH as [scored ->]. simpl. eexists. reflexivity.
Qed.

(** Where a hit comes from. *)
Lemma top_k_embeddings_hit_source db (table t : string) (q : list F) (k : Z)
    (hits : list (hit F)) (h : hit F) :
  _normalize_table_name table = Ok t ->
  top_k_embeddings db table q k = Ok hits ->
  In h hits ->
  In (hit_row h) (table_rows db t)
  /\ exists v, embedding (hit_row h) = Some v
               /\ cosine_similarity q v = Ok (similarity h).
Proof.
  intros Ht. rewrite (top_k_embeddings_supported db table t q k Ht).
  destruct (score_records q (order_by_created_at_desc (table_rows db t)))
    as [scored|] eqn:Hscored; [|discriminate].
  simpl. intros [= <-] Hh.
  apply in_map_iff in Hh as ([s r] & <- & Hx).
  apply in_slice_to in Hx. apply sort_desc_in in Hx.
  destruct (score_records_in q _ scored s r Hscored Hx) as [Hr Hv].
  split; [|exact Hv]. simpl.
  eapply Permutation_in; [apply order_by_created_at_desc_perm | exact Hr].
Qed.

(** X6: what [top_k_embeddings] returns.  Every hit is a record of the
    table that has a vector, and its similarity is the cosine
    similarity of the query and that vector; with [top_k >= 0] there
    are [min(top_k, m)] hits, [m] the number of records with a vector,
    and with a negative [top_k] the [|top_k|] lowest-ranked records
    are left out; in exact arithmetic the similarities never increase
    along the list. *)
Theorem top_k_embeddings_hits db (table t : string) (q : list F) (k : Z)
    (hits : list (hit F)) :
  _normalize_table_name table = Ok t ->
  top_k_embeddings db table q k = Ok hits ->
  (forall h, In h hits ->
     In (hit_row h) (table_rows db t)
     /\ exists v, embedding (hit_row h) = Some v
                  /\ cosine_similarity q v = Ok (similarity h))
  /\ (0 <= k ->
      length hits =
      Nat.min (Z.to_nat k) (length (List.filter has_vector (table_rows db t))))
  /\ (k < 0 ->
      length hits =
      (length (List.filter has_vector (table_rows db t)) - Z.to_nat (- k))%nat)
  /\ (ExactOrder F ->
      StronglySorted
        (fun h1 h2 => fltb (similarity h1) (similarity h2) = false) hits).
Proof.
  intros Ht Htop.
  assert (Hsource := fun h => top_k_embeddings_hit_source db table t q k hits h
                                Ht Htop).
  revert Htop Hsource.
  rewrite (top_k_embeddings_supported db table t q k Ht).
  destruct (score_records q (order_by_created_at_desc (table_rows db t)))
    as [scored|] eqn:Hscored; [|discriminate].
  simpl. intros [= <-] Hsource.
  assert (Hlen : length (sort_by_score scored)
                 = length (List.filter has_vector (table_rows db t))).
  { unfold sort_by_score. rewrite sort_desc_length.
    rewrite (score_records_length q _ scored Hscored).
    apply Permutation_length, filter_perm, order_by_created_at_desc_perm. }
  split; [|split; [|split]].
  - exact Hsource.
  - intros Hk. rewrite length_map, slice_to_nonneg by exact Hk.
    rewrite List.length_firstn, Hlen. reflexivity.
  - intros Hk. rewrite length_map. unfold slice_to.
    replace (k <? 0) with true by (symmetry; apply Z.ltb_lt; lia).
    rewrite List.length_firstn, Hlen. lia.
  - intros Hlaws. apply strongly_sorted_map, strongly_sorted_slice_to.
    apply (sort_desc_sorted score_lt).
    + intros x y. apply fltb_asym.
    + intros x y z. apply fge_trans.
Qed.

(** X7: one record is enough to fail a search.  [top_k_embeddings]
    raises the [ValueError] of the length check exactly when the
    query is non-empty and some record of the table has a non-empty
    vector of another length; otherwise it returns a list. *)
Theorem top_k_embeddings_raises_iff_mismatch db (table t : string)
    (q : list F) (k : Z) :
  _normalize_table_name table = Ok t ->
  if existsb (mismatched q) (table_rows db t)
  then top_k_embeddings db table q k = Raise length_mismatch
  else exists hits, top_k_embeddings db table q k = Ok hits.
Proof.
  intros Ht. rewrite (top_k_embeddings_supported db table t q k Ht).
  rewrite <- (existsb_perm (mismatched q) _ _
                (order_by_created_at_desc_perm (table_rows db t))).
  pose proof (score_records_raises_iff q
                (order_by_created_at_desc (table_rows db t))) as Hs.
  destruct (existsb (mismatched q) (order_by_created_at_desc (table_rows db t))).
  - rewrite Hs. reflexivity.
  - destruct Hs as [scored ->]. simpl. eexists. reflexivity.
Qed.
End SearchMore.

(** ** More about the similarity *)

Lemma dot_comm {F : Type} `{PyFloat F} (a b : list F) :
  (forall x y : F, fmul x y = fmul y x) -> dot a b = dot b a.
Proof.
  intros Hcomm. unfold dot. f_equal. revert b.
  induction a as [|x a IH]; intros [|y b]; simpl; try reflexivity.
  rewrite IH, Hcomm. reflexivity.
Qed.

(** X8: the similarity is symmetric in every arithmetic whose
    multiplication is commutative. *)
Theorem cosine_similarity_symmetric {F : Type} `{PyFloat F} (a b : list F) :
  (forall x y : F, fmul x y = fmul y x) ->
  cosine_similarity a b = cosine_similarity b a.
Proof.
  intros Hcomm. unfold cosine_similarity.
  rewrite (orb_comm (is_empty b)), (Nat.eqb_sym (length b)).
  rewrite (dot_comm b a Hcomm), (Hcomm (norm b)).
  rewrite (orb_comm (feqb (norm b) f0)). reflexivity.
Qed.

(** ** More about identifiers *)

Section StatementsSent.
Context {F : Type} `{PyFloat F}.

(** X12: what reaches the server.  An identifier that
    [_identifier_parts] accepts has one or two parts, each a letter or
    underscore followed by letters, digits and underscores only;
    [insert_embedding] and [search_embeddings] of the remote store
    then send exactly one statement, for the table of these parts,
    and the search asks for [top_k] rows; for any identifier
    whatsoever, a statement that is sent names a table of such parts
    only. *)
Theorem statements_name_clean_tables (svc : Services F) (name : string) :
  (forall parts,
      _identifier_parts name = Ok parts ->
      (length parts = 1 \/ length parts = 2)%nat
      /\ Forall (fun part => clean_part part = true) parts
      /\ (forall content embedding metadata,
             snd (PGVectorClient.insert_embedding svc name content embedding
                    metadata)
             = [InsertEmbedding parts content embedding (default "{}" metadata)])
      /\ (forall embedding top_k,
             snd (PGVectorClient.search_embeddings svc name embedding top_k)
             = [SelectNearest parts embedding top_k]))
  /\ (forall content embedding metadata stmt,
         In stmt (snd (PGVectorClient.insert_embedding svc name content
                         embedding metadata)) ->
         Forall (fun part => clean_part part = true) (statement_table stmt))
  /\ (forall embedding top_k stmt,
         In stmt (snd (PGVectorClient.search_embeddings svc name embedding
                         top_k)) ->
         Forall (fun part => clean_part part = true) (statement_table stmt)).
Proof.
  split; [|split].
  - intros parts Hparts.
    destruct (identifier_parts_clean name parts Hparts) as [Hlen Hclean].
    repeat split; try assumption.
    + intros content embedding metadata.
      unfold PGVectorClient.insert_embedding. rewrite Hparts. reflexivity.
    + intros embedding top_k.
      unfold PGVectorClient.search_embeddings. rewrite Hparts. reflexivity.
  - intros content embedding metadata stmt.
    unfold PGVectorClient.insert_embedding.
    destruct (_identifier_parts name) as [parts|] eqn:Hparts; simpl; [|tauto].
    intros [<- | []]. simpl. apply (identifier_parts_clean name parts Hparts).
  - intros embedding top_k stmt.
    unfold PGVectorClient.search_embeddings.
    destruct (_identifier_parts name) as [parts|] eqn:Hparts; simpl; [|tauto].
    intros [<- | []]. simpl. apply (identifier_parts_clean name parts Hparts).
Qed.
End StatementsSent.

(** X13: the identifiers that are meant are accepted: a clean name
    is accepted as it is, and two clean names joined by a dot are
    accepted as schema and table. *)
Theorem clean_identifiers_accepted (schema table : string) :
  clean_part schema = true -> clean_part table = true ->
  _identifier_parts table = Ok [table]
  /\ _identifier_parts (schema ++ "." ++ table)%string = Ok [schema; table].
Proof.
  intros Hs Ht.
  destruct (clean_part_word_chars schema Hs) as [Hsw Hsne].
  destruct (clean_part_word_chars table Ht) as [Htw Htne].
  pose proof (strip_clean schema Hsw) as Hss.
  pose proof (strip_clean table Htw) as Hst.
  assert (Hsplit1 : split_dot table = [table]).
  { unfold split_dot. rewrite (split_chars_no_sep _ _ (clean_part_no_dot table Ht)).
    simpl. rewrite string_of_list_ascii_of_string. reflexivity. }
  assert (Hsplit2 : split_dot (schema ++ "." ++ table)%string = [schema; table]).
  { unfold split_dot. rewrite list_ascii_of_string_app.
    change (list_ascii_of_string ("." ++ table)%string)
      with ("."%char :: list_ascii_of_string table).
    rewrite split_chars_app_sep.
    rewrite (split_chars_no_sep _ _ (clean_part_no_dot schema Hs)).
    rewrite (split_chars_no_sep _ _ (clean_part_no_dot table Ht)).
    simpl. rewrite !string_of_list_ascii_of_string. reflexivity. }
  assert (Hnb : forall s, strip s = s -> s <> "" ->
                  negb (String.eqb (strip s) "") = true).
  { intros s -> Hne. apply negb_true_iff, String.eqb_neq, Hne. }
  split.
  - unfold _identifier_parts. rewrite Hsplit1. simpl.
    rewrite (Hnb table Hst Htne). simpl. rewrite Hst.
    rewrite (clean_part_matches table Ht). reflexivity.
  - unfold _identifier_parts. rewrite Hsplit2. simpl.
    rewrite (Hnb schema Hss Hsne), (Hnb table Hst Htne). simpl.
    rewrite Hss, Hst.
    rewrite (clean_part_matches schema Hs), (clean_part_matches table Ht).
    reflexivity.
Qed.

(** ** More about the retry decorator *)

Section RetryShape.
Context {W A : Type} (fn : W -> result A * W).

(** Called again and again, [fn] fails [n] times in a row or succeeds
    before. *)
Lemma failures_or_success (n : nat) (w : W) :
  (exists es w1, length es = n /\ consecutive_failures fn w es w1)
  \/ (exists es w1 a w2,
         (length es < n)%nat /\ consecutive_failures fn w es w1
         /\ fn w1 = (Ok a, w2)).
Proof.
  revert w. induction n as [|n IH]; intros w.
  - left. exists [], w. split; [reflexivity | constructor].
  - destruct (fn w) as [[a | e] w1] eqn:Hfn.
    + right. exists [], w, a, w1. simpl. repeat split; [lia | constructor | exact Hfn].
    + destruct (IH w1) as [(es & w2 & Hlen & Hf) | (es & w2 & a & w3 & Hlen & Hf & Hok)].
      * left. exists (e :: es), w2. simpl. split; [lia|].
        econstructor; eassumption.
      * right. exists (e :: es), w2, a, w3. simpl. repeat split; [lia | | exact Hok].
        econstructor; eassumption.
Qed.

(** With attempts to make, the decorator returns the value of the
    first call that succeeds or raises the exception of the last
    call. *)
Lemma retry_positive_cases (times : Z) (delay : Q) (w : W) :
  0 < times ->
  (exists es w1 a w2 trace,
      consecutive_failures fn w es w1 /\ fn w1 = (Ok a, w2)
      /\ Z.of_nat (length es) < times
      /\ retry times delay fn w = (Returned a, w2, trace)
      /\ sleeps trace = backoff delay 0 (length es))
  \/ (exists es w1 e w2 trace,
         consecutive_failures fn w es w1 /\ fn w1 = (Raise e, w2)
         /\ Z.of_nat (length es) = times - 1
         /\ retry times delay fn w = (Raised e, w2, trace)
         /\ sleeps trace = backoff delay 0 (length es)).
Proof.
  intros Hgt.
  destruct (failures_or_success (Z.to_nat (times - 1)) w)
    as [(es & w1 & Hlen & Hf) | (es & w1 & a & w2 & Hlen & Hf & Hok)].
  - destruct (fn w1) as [[a | e] w2] eqn:Hlast.
    + left. exists es, w1, a, w2.
      destruct (retry_succeeds_after times delay fn w w1 w2 es a Hf Hlast)
        as (trace & Hrun & Hsl); [lia|].
      exists trace. repeat split; try assumption. lia.
    + right. exists es, w1, e, w2.
      destruct (retry_raises_last times delay fn w w1 w2 es e Hf Hlast)
        as (trace & Hrun & Hsl); [lia|].
      exists trace. repeat split; try assumption. lia.
  - left. exists es, w1, a, w2.
    destruct (retry_succeeds_after times delay fn w w1 w2 es a Hf Hok)
      as (trace & Hrun & Hsl); [lia|].
    exists trace. repeat split; try assumption. lia.
Qed.

(** X14: every run of the decorated function has one of three
    shapes.  With [times <= 0] the function is never called and the
    decorator returns [None]; otherwise either some call among the
    first [times] succeeds, all calls before it having failed, and its
    value is returned, or [times] calls fail and the exception of the
    last one is raised.  In both cases the sleeps are the back-off
    delays of the failures that were followed by another call. *)
Theorem retry_outcome_shape (times : Z) (delay : Q) (w : W) :
  (times <= 0 /\ retry times delay fn w = (ReturnedNone, w, []))
  \/ (exists es w1 a w2 trace,
         consecutive_failures fn w es w1 /\ fn w1 = (Ok a, w2)
         /\ Z.of_nat (length es) < times
         /\ retry times delay fn w = (Returned a, w2, trace)
         /\ sleeps trace = backoff delay 0 (length es))
  \/ (exists es w1 e w2 trace,
         consecutive_failures fn w es w1 /\ fn w1 = (Raise e, w2)
         /\ Z.of_nat (length es) = times - 1
         /\ retry times delay fn w = (Raised e, w2, trace)
         /\ sleeps trace = backoff delay 0 (length es)).
Proof.
  destruct (Z.leb_spec times 0) as [Hle | Hgt].
  - left. split; [exact Hle|]. unfold retry.
    replace (Z.to_nat times) with 0%nat by lia. reflexivity.
  - right. exact (retry_positive_cases times delay w Hgt).
Qed.

(** The sleeps of the loop are back-off delays, and none is slept once
    the last attempt is reached. *)
Lemma retry_loop_sleeps (times : Z) (delay : Q) (remaining : nat) :
  forall (attempt : Z) (last : option exn) (w : W) (trace : list effect),
  exists n : nat,
    sleeps (snd (retry_loop times delay fn remaining attempt last w trace))
    = sleeps trace ++ backoff delay attempt n
    /\ attempt + Z.of_nat n <= Z.max (times - 1) attempt.
Proof.
  induction remaining as [|remaining IH]; intros attempt last w trace.
  - exists 0%nat. simpl. rewrite app_nil_r. split; [reflexivity | lia].
  - simpl. destruct (fn w) as [[a | e] w1].
    + exists 0%nat. simpl. rewrite app_nil_r. split; [reflexivity | lia].
    + destruct (Z.ltb_spec attempt (times - 1)) as [Hlt | Hge].
      * destruct (IH (attempt + 1) (Some e) w1
                    (trace ++ [LogWarning (attempt + 1) times
                                 (delay * inject_Z (2 ^ attempt))%Q e;
                               Sleep (delay * inject_Z (2 ^ attempt))%Q]))
          as (n & Hs & Hn).
        exists (S n). split; [|lia].
        rewrite Hs, sleeps_app. simpl. rewrite <- app_assoc. reflexivity.
      * destruct (IH (attempt + 1) (Some e) w1 (trace ++ [LogError times e]))
          as (n & Hs & Hn).
        assert (n = 0%nat) as -> by lia.
        exists 0%nat. split; [|lia].
        rewrite Hs, sleeps_app. simpl. rewrite !app_nil_r. reflexivity.
Qed.
End RetryShape.

Lemma backoff_total (delay : Q) (attempt : Z) (n : nat) :
  0 <= attempt ->
  (fold_right Qplus 0 (backoff delay attempt n)
   == delay * inject_Z (2 ^ attempt) * (inject_Z (2 ^ Z.of_nat n) - 1))%Q.
Proof.
  intros Ha. revert attempt Ha. induction n as [|n IH]; intros attempt Ha.
  - cbn [backoff fold_right Z.of_nat]. rewrite Z.pow_0_r.
    change (inject_Z 1) with 1%Q. ring.
  - cbn [backoff fold_right]. rewrite (IH (attempt + 1)) by lia.
    rewrite Nat2Z.inj_succ, !Z.pow_succ_r, Z.add_1_r, Z.pow_succ_r by lia.
    rewrite !inject_Z_mult. change (inject_Z 2) with 2%Q. ring.
Qed.

(** X15: a decorated call never sleeps long.  With a delay that is
    not negative the seconds slept in all are at most
    [delay * (2 ** (times - 1) - 1)], whatever the function does:
    1.5 seconds for the three attempts and the delay 0.5 of the
    module. *)
Theorem retry_total_sleep_bounded {W A : Type} (fn : W -> result A * W)
    (times : Z) (delay : Q) (w : W) :
  (0 <= delay)%Q ->
  (total_sleep (snd (retry times delay fn w))
   <= delay * (inject_Z (2 ^ Z.max (times - 1) 0) - 1))%Q
  /\ (times = 3 -> (delay == 1 # 2)%Q ->
      (total_sleep (snd (retry times delay fn w)) <= 3 # 2)%Q).
Proof.
  intros Hdelay.
  assert (Hbound :
    (total_sleep (snd (retry times delay fn w))
     <= delay * (inject_Z (2 ^ Z.max (times - 1) 0) - 1))%Q).
  { unfold retry, total_sleep.
    destruct (retry_loop_sleeps fn times delay (Z.to_nat times) 0 None w [])
      as (n & Hs & Hn).
    rewrite Hs. simpl app. rewrite backoff_total by lia.
    change (inject_Z (2 ^ 0)) with 1%Q.
    assert (Hpow : 2 ^ Z.of_nat n <= 2 ^ Z.max (times - 1) 0).
    { apply Z.pow_le_mono_r; lia. }
    assert (Hq : (inject_Z (2 ^ Z.of_nat n)
                  <= inject_Z (2 ^ Z.max (times - 1) 0))%Q).
    { rewrite <- Zle_Qle. exact Hpow. }
    assert (Hone : (delay * 1 * (inject_Z (2 ^ Z.of_nat n) - 1)
                    == delay * (inject_Z (2 ^ Z.of_nat n) - 1))%Q) by ring.
    rewrite Hone.
    assert (Hgap : (0 <= inject_Z (2 ^ Z.max (times - 1) 0)
                         - inject_Z (2 ^ Z.of_nat n))%Q).
    { unfold Qminus. apply (proj1 (Qle_minus_iff _ _)). exact Hq. }
    apply (proj2 (Qle_minus_iff _ _)).
    assert (Hprod : (delay * (inject_Z (2 ^ Z.max (times - 1) 0) - 1)
                     + - (delay * (inject_Z (2 ^ Z.of_nat n) - 1))
                     == delay * (inject_Z (2 ^ Z.max (times - 1) 0)
                                 - inject_Z (2 ^ Z.of_nat n)))%Q) by ring.
    rewrite Hprod. apply Qmult_le_0_compat; assumption. }
  split; [exact Hbound|].
  intros -> Hhalf. eapply Qle_trans; [exact Hbound|].
  rewrite Hhalf. vm_compute. discriminate.
Qed.

(** ** The failures of [POST /retrieve] *)

Section RouteFailures.
Context {F : Type} `{PyFloat F}.
Implicit Types (db : gmap string (list (row F))).

Lemma post_retrieve_of_search (svc : Services F) (settings : Settings) db
    (payload : MemoryRetrieveRequest F) :
  valid_request payload = true ->
  String.eqb (strip (query payload)) "" = false ->
  post_retrieve svc settings db payload =
  match (embedding ← generate_embedding svc settings
                       (code_points (query payload));
         search_embeddings svc settings db (memory_table_name settings)
           embedding (top_k payload))
  with
  | Raise e => Raise (http_error e)
  | Ok results =>
      Ok (map to_result (List.filter (clears (min_similarity payload)) results))
  end.
Proof.
  intros Hvalid Hq. unfold post_retrieve. rewrite Hvalid.
  rewrite (retrieve_memories_of_search svc settings db payload Hq).
  destruct (embedding ← generate_embedding svc settings
                       (code_points (query payload));
            search_embeddings svc settings db (memory_table_name settings)
              embedding (top_k payload)) as [results | []]; reflexivity.
Qed.

(** X17: the failures of the live path, in the order in which the
    code meets them.  Without an API key the provider is not called
    and the answer is 502; an exception of the provider is answered
    400 when it is a [ValueError] and 502 otherwise; with an embedding
    at hand, a missing database URL is 502 whatever the table name,
    and only with the URL set is an identifier outside the pattern
    answered 400 with the message of [_identifier_parts]; an exception
    of the database is mapped as one of the provider; and an answer
    of the database is passed through filtered. *)
Theorem live_retrieve_failures (svc : Services F) (settings : Settings) db
    (payload : MemoryRetrieveRequest F) :
  offline_mode settings = false ->
  valid_request payload = true ->
  String.eqb (strip (query payload)) "" = false ->
  let table := memory_table_name settings in
  let answer := post_retrieve svc settings db payload in
  let unavailable := Raise (HTTPException 502 "Vector search is unavailable.") in
  (falsy_str (openai_api_key settings) = true -> answer = unavailable)
  /\ (falsy_str (openai_api_key settings) = false ->
      match openai_embeddings svc (embedding_model settings)
              (code_points (query payload)) with
      | Raise e => answer = Raise (http_error e)
      | Ok v =>
          if falsy_str (database_url settings) then answer = unavailable
          else
            match _identifier_parts table with
            | Raise _ =>
                answer = Raise (HTTPException 400
                                  ("Identifier '" ++ table
                                   ++ "' is not permitted.")%string)
            | Ok parts =>
                match pg_fetchall svc parts v (top_k payload) with
                | Raise e => answer = Raise (http_error e)
                | Ok rows =>
                    answer =
                    Ok (map to_result
                          (List.filter (clears (min_similarity payload))
                             (map (fun '(i, c, m, t, s) =>
                                     Hit (Row i c m None t) s) rows)))
                end
            end
      end).
Proof.
  intros Hlive Hvalid Hq table answer unavailable. subst answer.
  rewrite (post_retrieve_of_search svc settings db payload Hvalid Hq).
  unfold generate_embedding, get_openai_client, search_embeddings,
    get_pgvector_client. rewrite Hlive.
  split; intros Hkey; rewrite Hkey; simpl; [reflexivity|].
  destruct (openai_embeddings svc (embedding_model settings)
              (code_points (query payload)))
    as [v | e]; simpl; [|reflexivity].
  destruct (falsy_str (database_url settings)); simpl; [reflexivity|].
  unfold PGVectorClient.search_embeddings. fold table.
  destruct (_identifier_parts table) as [parts | e] eqn:Hparts; simpl.
  - destruct (pg_fetchall svc parts v (top_k payload)) as [rows | e];
      reflexivity.
  - revert Hparts. unfold _identifier_parts.
    destruct (is_empty _ || _); [intros [= <-]; reflexivity|].
    destruct (forallb _ _); [discriminate | intros [= <-]; reflexivity].
Qed.
End RouteFailures.

(** ** The Supabase gateway *)

Lemma consecutive_failures_post {W A B : Type} (f : W -> result A * W)
    (g : A -> B) (w w1 : W) (es : list exn) :
  consecutive_failures
    (fun w => let '(r, w') := f w in (x ← r; Ok (g x), w')) w es w1
  <-> consecutive_failures f w es w1.
Proof.
  split; induction 1 as [w | w w1 w' e es Hfn Hrest IH]; try constructor.
  - destruct (f w) as [[a | e0] w0] eqn:Hf; simpl in Hfn; [discriminate|].
    injection Hfn as -> ->. econstructor; eassumption.
  - apply failures_more with (w1 := w1); [|exact IH]. rewrite Hfn. reflexivity.
Qed.

Lemma or_empty_id {A : Type} (l : list A) : supabase_client.or_empty l = l.
Proof. destruct l; reflexivity. Qed.

Section Gateway.
Import supabase_client.
Context {W : Type}.
Variable getenv : string -> option string.
Variable create_client : string -> string -> result Client.
Variable execute : request -> W -> result (list Rec) * W.
Variable str : exn -> string.

(** X19: a client is made once.  When [get_supabase_client] hands out
    a client, it hands out the same client from then on, whatever has
    become of the environment and of [create_client]; the client of
    the other project is left as it was; and a call that hands out
    [None] leaves both globals as they were. *)
Theorem get_supabase_client_caches (project : string) (g g' : Clients)
    (answer : option Client) :
  get_supabase_client getenv create_client project g = (answer, g') ->
  match answer with
  | Some client =>
      (forall getenv' create_client',
          get_supabase_client getenv' create_client' project g'
          = (Some client, g'))
      /\ (lower project = "den" \/ lower project = "tepuna")
      /\ (lower project = "den" -> _tepuna_client g' = _tepuna_client g)
      /\ (lower project = "tepuna" -> _den_client g' = _den_client g)
  | None => g' = g
  end.
Proof.
  unfold get_supabase_client.
  destruct (String.eqb (lower project) "den") eqn:Hden.
  - apply String.eqb_eq in Hden.
    destruct (_den_client g) as [client|] eqn:Hcached.
    + intros [= <- <-]. rewrite Hden. simpl. rewrite Hcached.
      repeat split; auto; try congruence.
    + destruct (falsy_str (getenv "DEN_URL") || falsy_str (getenv "DEN_API_KEY"));
        [intros [= <- <-]; reflexivity|].
      destruct (create_client _ _) as [client|];
        [|intros [= <- <-]; reflexivity].
      intros [= <- <-]. rewrite Hden. simpl. repeat split; auto; try congruence.
  - destruct (String.eqb (lower project) "tepuna") eqn:Htepuna;
      [|intros [= <- <-]; reflexivity].
    apply String.eqb_eq in Htepuna.
    destruct (_tepuna_client g) as [client|] eqn:Hcached.
    + intros [= <- <-]. rewrite Htepuna. simpl. rewrite Hcached.
      repeat split; auto; try congruence.
    + destruct (falsy_str (getenv "TEPUNA_URL")
                || falsy_str (getenv "TEPUNA_API_KEY"));
        [intros [= <- <-]; reflexivity|].
      destruct (create_client _ _) as [client|];
        [|intros [= <- <-]; reflexivity].
      intros [= <- <-]. rewrite Htepuna. simpl. repeat split; auto; try congruence.
Qed.

(** What the decorated function returns, the function has returned. *)
Lemma retry_three_cases {A : Type} (fn : W -> result A * W) (w : W) :
  (exists w0 a w' trace,
      fn w0 = (Ok a, w') /\ retry 3 (1 # 2) fn w = (Returned a, w', trace))
  \/ (exists e w' trace, retry 3 (1 # 2) fn w = (Raised e, w', trace)).
Proof.
  destruct (retry_positive_cases fn 3 (1 # 2) w)
    as [(es & w1 & a & w2 & trace & _ & Hok & _ & Hrun & _)
       | (es & w1 & e & w2 & trace & _ & _ & _ & Hrun & _)]; [lia | |].
  - left. exists w1, a, w2, trace. split; assumption.
  - right. exists e, w2, trace. exact Hrun.
Qed.

(** X20: the responses are consistent.  Each of the four operations
    hands out a response that either reports a failure, with [ok]
    false, a message that is not empty, the count 0 and no rows, or
    reports a success, with [ok] true, no message and a count that
    fits the data: the number of rows for [query_table] and
    [fetch_records], 1 or 0 for [insert_record] as rows came back or
    not, and for [fetch_latest] 1 with a record that is not empty or
    0 with no data. *)
Theorem supabase_responses_consistent (project table select table_path : string)
    (limit : Z) (record : Rec) (g : Clients) (w : W) :
  let failure (r : SupabaseResponse) :=
    ok r = false /\ (exists msg, error r = Some msg /\ msg <> "")
    /\ count r = 0 /\ (data r = None \/ data r = Some (Rows [])) in
  let success (r : SupabaseResponse) := ok r = true /\ error r = None in
  let answer (run : SupabaseResponse * Clients * W * list effect) :=
    fst (fst (fst run)) in
  (let r := answer (query_table getenv create_client execute str
                      project table select limit g w) in
   failure r
   \/ (success r /\ exists rows, data r = Some (Rows rows)
                                 /\ count r = Z.of_nat (length rows)))
  /\ (let r := answer (fetch_records getenv create_client execute str
                         project table select limit g w) in
      failure r
      \/ (success r /\ exists rows, data r = Some (Rows rows)
                                    /\ count r = Z.of_nat (length rows)))
  /\ (let r := answer (insert_record getenv create_client execute str
                         project table record g w) in
      failure r
      \/ (success r /\ exists rows, data r = Some (Rows rows)
                                    /\ count r = if is_empty rows then 0 else 1))
  /\ (let r := answer (fetch_latest getenv create_client execute str
                         table_path g w) in
      failure r
      \/ (success r
          /\ ((data r = None /\ count r = 0)
              \/ exists latest, data r = Some (Single latest)
                                /\ latest <> [] /\ count r = 1))).
Proof.
  intros failure success answer. subst failure success answer.
  assert (Hmsg : forall (prefix : ascii) (s : string),
             String prefix s <> "") by (intros; discriminate).
  split; [|split; [|split]].
  - unfold query_table.
    destruct (get_supabase_client getenv create_client project g)
      as [[client|] g'].
    2: { left. simpl. repeat split; auto. eexists. split; [reflexivity|].
         apply Hmsg. }
    unfold _query_table_impl.
    destruct (retry_three_cases
                (fun w => let '(r, w') :=
                            execute (SelectRows client table select limit) w in
                          (rows ← r; Ok (rows, Z.of_nat (length rows)), w')) w)
      as [(w0 & a & w' & trace & Hfn & ->) | (e & w' & trace & ->)].
    + right. destruct (execute _ w0) as [[rows | e] w1]; [|discriminate].
      simpl in Hfn. injection Hfn as <- _. simpl.
      repeat split. exists rows. split; reflexivity.
    + left. simpl. repeat split; auto. eexists. split; [reflexivity|].
      apply Hmsg.
  - unfold fetch_records.
    destruct (get_supabase_client getenv create_client project g)
      as [[client|] g'].
    2: { left. simpl. repeat split; auto. eexists. split; [reflexivity|].
         apply Hmsg. }
    destruct (String.eqb table "").
    { left. simpl. repeat split; auto. eexists. split; [reflexivity|].
      apply Hmsg. }
    unfold _fetch_records_impl.
    destruct (retry_three_cases
                (fun w => let '(r, w') :=
                            execute (SelectRows client table select limit) w in
                          (rows ← r; Ok (or_empty rows), w')) w)
      as [(w0 & a & w' & trace & Hfn & ->) | (e & w' & trace & ->)].
    + right. simpl. repeat split. exists a. split; reflexivity.
    + left. simpl. repeat split; auto. eexists. split; [reflexivity|].
      apply Hmsg.
  - unfold insert_record.
    destruct (get_supabase_client getenv create_client project g)
      as [[client|] g'].
    2: { left. simpl. repeat split; auto. eexists. split; [reflexivity|].
         apply Hmsg. }
    unfold _insert_record_impl.
    destruct (retry_three_cases (execute (InsertRow client table record)) w)
      as [(w0 & a & w' & trace & Hfn & ->) | (e & w' & trace & ->)].
    + right. simpl. repeat split. exists a. split; reflexivity.
    + left. simpl. repeat split; auto. eexists. split; [reflexivity|].
      apply Hmsg.
  - unfold fetch_latest.
    destruct (match split_first_dot (list_ascii_of_string table_path) with
              | Some (p, t) => (string_of_list_ascii p, string_of_list_ascii t)
              | None => ("den", table_path)
              end) as [project' table'].
    destruct (get_supabase_client getenv create_client project' g)
      as [[client|] g'].
    2: { left. simpl. repeat split; auto. eexists. split; [reflexivity|].
         apply Hmsg. }
    destruct (String.eqb table' "").
    { left. simpl. repeat split; auto. eexists. split; [reflexivity|].
      apply Hmsg. }
    unfold _fetch_latest_impl.
    destruct (retry_three_cases
                (fun w => let '(r, w') :=
                            execute (SelectLatest client table') w in
                          (rows ← r; Ok (head (or_empty rows)), w')) w)
      as [(w0 & a & w' & trace & Hfn & ->) | (e & w' & trace & ->)].
    + right. destruct a as [[|field latest]|]; simpl.
      * repeat split. left. split; reflexivity.
      * repeat split. right. eexists. repeat split. discriminate.
      * repeat split. left. split; reflexivity.
    + left. simpl. repeat split; auto. eexists. split; [reflexivity|].
      apply Hmsg.
Qed.

(** X21: [fetch_records] asks the server at most three times.  With
    a client at hand and a table named, either one of the first
    three requests is answered, all before it having failed, and the
    response carries the rows of that answer and their number, after
    sleeps of 0.5 s and 1 s for the failures; or three requests fail
    and the response carries the message of the third exception,
    after both sleeps.  The world is the one the last request
    left. *)
Theorem fetch_records_asks_three_times (project table select : string)
    (limit : Z) (g g' : Clients) (client : Client) (w : W) :
  get_supabase_client getenv create_client project g = (Some client, g') ->
  table <> "" ->
  let ask := execute (SelectRows client table select limit) in
  let run := fetch_records getenv create_client execute str
               project table select limit g w in
  (exists es w1 rows w2 trace,
      consecutive_failures ask w es w1 /\ ask w1 = (Ok rows, w2)
      /\ (length es < 3)%nat
      /\ run = ({| data := Some (Rows rows);
                   count := Z.of_nat (length rows);
                   error := None; ok := true |}, g', w2, trace)
      /\ sleeps trace = backoff (1 # 2) 0 (length es))
  \/ (exists e1 e2 e3 w1 w2 w3 trace,
         ask w = (Raise e1, w1) /\ ask w1 = (Raise e2, w2)
         /\ ask w2 = (Raise e3, w3)
         /\ run = ({| data := Some (Rows []); count := 0;
                      error := Some ("Fetch failed on " ++ project ++ "."
                                     ++ table ++ ": " ++ str e3)%string;
                      ok := false |}, g', w3, trace)
         /\ sleeps trace = backoff (1 # 2) 0 2).
Proof.
  intros Hclient Htable ask run. subst run.
  unfold fetch_records. rewrite Hclient.
  replace (String.eqb table "") with false
    by (symmetry; apply String.eqb_neq; exact Htable).
  unfold _fetch_records_impl.
  set (fn := fun w => let '(r, w') := ask w in
                      (rows ← r; Ok (or_empty rows), w')).
  change (fun w0 : W =>
            let '(r, w') := execute (SelectRows client table select limit) w0 in
            (rows ← r; Ok (or_empty rows), w')) with fn.
  destruct (retry_positive_cases fn 3 (1 # 2) w)
    as [(es & w1 & a & w2 & trace & Hfail & Hok & Hlen & -> & Hsleeps)
       | (es & w1 & e & w2 & trace & Hfail & Hlast & Hlen & -> & Hsleeps)];
    [lia | |].
  - left. apply (consecutive_failures_post ask or_empty) in Hfail.
    unfold fn in Hok. destruct (ask w1) as [[rows | e] w1'] eqn:Hask;
      [|discriminate].
    simpl in Hok. injection Hok as <- <-. rewrite or_empty_id.
    exists es, w1, rows, w1', trace. repeat split; try assumption. lia.
  - right. apply (consecutive_failures_post ask or_empty) in Hfail.
    unfold fn in Hlast. destruct (ask w1) as [[rows | e'] w1'] eqn:Hask;
      [discriminate|].
    simpl in Hlast. injection Hlast as <- <-.
    destruct es as [|e1 [|e2 [|e3 es]]]; simpl in Hlen; try lia.
    inversion Hfail as [|? wa ? ? ? Hask1 Hrest]; subst.
    inversion Hrest as [|? wb ? ? ? Hask2 Hnone]; subst.
    inversion Hnone; subst.
    exists e1, e2, e', wa, w1, w1', trace. repeat split; assumption.
Qed.

(** X22: [GET /] never reaches the server.  The one argument of the
    call [fetch_records(table)] is taken for the project and the
    table stays empty: whatever the settings, the environment and
    the server, the handler hands out the response of a failure,
    with no rows, and sends no request; the world is as it was and
    nothing is slept.  The globals are as [get_supabase_client]
    leaves them when asked for the project of the table's name. *)
Theorem list_memories_never_queries (settings : Settings) (g : Clients)
    (w : W) :
  let name := if String.eqb (supabase_table_memory settings) ""
              then "ti_memory" else supabase_table_memory settings in
  list_memories getenv create_client execute str settings g w =
  ({| data := Some (Rows []); count := 0;
      error := Some ("Cannot fetch from " ++ name
                     ++ ".: client unavailable or table empty")%string;
      ok := false |},
   snd (get_supabase_client getenv create_client name g), w, []).
Proof.
  intros name. subst name. unfold list_memories, fetch_records.
  destruct (String.eqb (supabase_table_memory settings) ""); simpl;
    [reflexivity|].
  destruct (get_supabase_client _ _ _ g) as [[client|] g']; reflexivity.
Qed.
End Gateway.

(** ** The threshold of the route, for every request *)

Section ThresholdFacts.
Context {F : Type} `{PyFloat F} `{!IEEEOrder F}.
Implicit Types (db : gmap string (list (row F))).

Lemma clears_similarity (m : F) (h : hit F) :
  clears (Some m) h = negb (fltb (similarity h) m).
Proof. unfold clears. rewrite item_similarity_fltb. reflexivity. Qed.

Lemma filter_clears (m : F) (hits : list (hit F)) :
  List.filter (clears (Some m)) hits =
  List.filter (fun h => negb (fltb (similarity h) m)) hits.
Proof. apply List.filter_ext. intros h. apply clears_similarity. Qed.

(** X24: what the threshold of [POST /retrieve] guarantees.  Whatever
    the request and the store, when the endpoint answers with a list,
    the list has at most [top_k] results (the remote server is taken
    to honour [LIMIT]) and, with a threshold set, no result has a
    similarity smaller than the threshold: a result whose similarity
    is a number has a similarity greater than or equal to the
    threshold, and the other results have the similarity NaN.  When
    the store answers, the endpoint answers the hits whose similarity
    is not smaller than the threshold, in the order of the store, and
    the empty list, not an error, when every hit is below the
    threshold. *)
Theorem retrieve_at_most_k_not_below_threshold
    (svc : Services F) (settings : Settings) db
    (payload : MemoryRetrieveRequest F) :
  pg_limit_respected svc ->
  match post_retrieve svc settings db payload with
  | Ok results =>
      Z.of_nat (length results) <= top_k payload
      /\ forall m, min_similarity payload = Some m ->
           Forall (fun r =>
                     fltb (res_similarity r) m = false
                     /\ (fleb m (res_similarity r) = true
                         \/ is_nan (res_similarity r) = true))
             results
  | Raise _ => True
  end
  /\ (forall hits m,
         valid_request payload = true ->
         String.eqb (strip (query payload)) "" = false ->
         min_similarity payload = Some m ->
         (embedding ← generate_embedding svc settings
                        (code_points (query payload));
          search_embeddings svc settings db (memory_table_name settings)
            embedding (top_k payload)) = Ok hits ->
         post_retrieve svc settings db payload =
           Ok (map to_result
                 (List.filter (fun h => negb (fltb (similarity h) m)) hits))
         /\ (Forall (fun h => fltb (similarity h) m = true) hits ->
             post_retrieve svc settings db payload = Ok [])).
Proof.
  intros Hlimit. split.
  - unfold post_retrieve. destruct (valid_request payload) eqn:Hvalid; [|exact I].
    assert (Hk : 1 <= top_k payload).
    { unfold valid_request in Hvalid. rewrite !andb_true_iff in Hvalid.
      destruct Hvalid as [[[_ Hk] _] _]. apply Z.leb_le, Hk. }
    destruct (String.eqb (strip (query payload)) "") eqn:Hq.
    { unfold retrieve_memories. rewrite Hq. exact I. }
    rewrite (retrieve_memories_of_search svc settings db payload Hq).
    destruct (generate_embedding svc settings (code_points (query payload)))
      as [q|e] eqn:Hgen; simpl; [|destruct e; exact I].
    destruct (search_embeddings svc settings db (memory_table_name settings) q
                (top_k payload)) as [hits|e] eqn:Hsearch;
      [|destruct e; exact I].
    split.
    + rewrite length_map.
      pose proof (filter_length_le (clears (min_similarity payload)) hits).
      pose proof (search_embeddings_length svc settings db _ q (top_k payload)
                    hits Hlimit ltac:(lia) Hsearch).
      lia.
    + intros m Hm. rewrite Hm.
      destruct (valid_request_threshold payload m Hvalid Hm) as [Hnum _].
      apply List.Forall_forall. intros r Hr.
      apply in_map_iff in Hr as (h & <- & Hh). apply filter_In in Hh as [_ Hh].
      assert (Hlt : fltb (item_similarity h) m = false)
        by (apply negb_true_iff, Hh).
      split; [exact Hlt|]. cbn [to_result res_similarity].
      destruct (is_nan (item_similarity h)) eqn:Hnan; [right; reflexivity|].
      left. rewrite (ieee_le_lt m (item_similarity h) Hnum Hnan), Hlt.
      reflexivity.
  - intros hits m Hvalid Hq Hm Hsearch. unfold post_retrieve. rewrite Hvalid.
    rewrite (retrieve_memories_of_search svc settings db payload Hq), Hsearch.
    rewrite Hm, filter_clears. split; [reflexivity|]. intros Hnone.
    rewrite filter_all_false; [reflexivity|].
    intros h Hh. rewrite List.Forall_forall in Hnone.
    rewrite (Hnone h Hh). reflexivity.
Qed.

(** X25: the threshold and the truncation commute when no score is
    NaN.  Offline, when no record of the memory table has a similarity
    to the query that is NaN, the handler answers the first [top_k]
    of the records whose similarity is greater than or equal to the
    threshold, taken from the ranking of all the records: no record
    below the threshold takes the place of one that clears it, and
    when at most [top_k] records clear the threshold all of them are
    answered. *)
Theorem threshold_commutes_with_truncation
    (svc : Services F) (settings : Settings) db
    (payload : MemoryRetrieveRequest F) (t : string) (q : list F)
    (scored : list (F * row F)) (m : F) :
  offline_mode settings = true ->
  valid_request payload = true ->
  String.eqb (strip (query payload)) "" = false ->
  _normalize_table_name (memory_table_name settings) = Ok t ->
  generate_embedding svc settings (code_points (query payload)) = Ok q ->
  score_records q (order_by_created_at_desc (table_rows db t)) = Ok scored ->
  Forall (fun x => is_nan (fst x) = false) scored ->
  min_similarity payload = Some m ->
  let cleared :=
    List.filter (fun h => fleb m (similarity h))
      (map enrich (sort_by_score scored)) in
  post_retrieve svc settings db payload =
    Ok (map to_result (firstn (Z.to_nat (top_k payload)) cleared))
  /\ ((length cleared <= Z.to_nat (top_k payload))%nat ->
      post_retrieve svc settings db payload = Ok (map to_result cleared)).
Proof.
  intros Hoff Hvalid Hq Ht Hgen Hscored Hnum Hm cleared.
  destruct (valid_request_threshold payload m Hvalid Hm) as [Hmnum [Hk _]].
  assert (Hnum' : Forall (fun x => is_nan (fst x) = false)
                    (sort_by_score scored)).
  { eapply Permutation_Forall; [symmetry; apply sort_desc_perm | exact Hnum]. }
  assert (Hkeep : forall x, is_nan (fst x) = false ->
            clears (Some m) (enrich x) = fleb m (fst x)).
  { intros x Hx. apply (clears_number m (enrich x) Hmnum Hx). }
  assert (Hmain :
    List.filter (clears (Some m))
      (map enrich (slice_to (top_k payload) (sort_by_score scored))) =
    firstn (Z.to_nat (top_k payload)) cleared).
  { subst cleared. rewrite slice_to_nonneg by lia. rewrite !filter_map_comm.
    rewrite List.firstn_map. f_equal.
    rewrite (sorted_filter_firstn_on score_lt
               (fun x => is_nan (fst x) = false)).
    - f_equal. apply List.filter_ext_in. intros x Hx.
      rewrite List.Forall_forall in Hnum'. apply Hkeep, Hnum', Hx.
    - exact Hnum'.
    - apply (sort_desc_sorted_on score_lt (fun x => is_nan (fst x) = false)).
      + intros x y. apply ieee_lt_asym.
      + intros x y z. apply ieee_ge_trans.
      + exact Hnum.
    - intros x y Hx Hy Hxy. rewrite (Hkeep x Hx), (Hkeep y Hy).
      rewrite (ieee_le_lt m (fst x) Hmnum Hx), (ieee_le_lt m (fst y) Hmnum Hy).
      rewrite !negb_true_iff. intros Hym.
      apply (ieee_ge_trans (fst x) (fst y) m Hx Hy Hmnum Hxy Hym). }
  assert (Hrun : post_retrieve svc settings db payload =
                 Ok (map to_result (firstn (Z.to_nat (top_k payload)) cleared))).
  { unfold post_retrieve. rewrite Hvalid.
    rewrite (retrieve_memories_of_search svc settings db payload Hq), Hgen.
    cbn [mbind result_bind]. unfold search_embeddings. rewrite Hoff.
    rewrite (top_k_embeddings_supported db _ t q (top_k payload) Ht), Hscored.
    cbn [mbind result_bind]. rewrite Hm, Hmain. reflexivity. }
  split; [exact Hrun|].
  intros Hfew. rewrite Hrun, firstn_all2 by exact Hfew. reflexivity.
Qed.
End ThresholdFacts.

(** ** The zero vector in binary64 *)

Lemma float_zero_cases (x : float) :
  PrimFloat.eqb x 0 = true -> x = 0%float \/ x = (-0)%float.
Proof.
  rewrite FloatAxioms.eqb_spec. change (Prim2SF 0) with (S754_zero false).
  intros Heq. rewrite <- (SF2Prim_Prim2SF x).
  destruct (Prim2SF x) as [s | s | | s m e]; try destruct s;
    try discriminate Heq.
  - right. reflexivity.
  - left. reflexivity.
Qed.

Lemma sum_squares_of_zeros (pow_half : float -> float) (a : list float) :
  Forall (fun x => PrimFloat.eqb x 0 = true) a ->
  @py_sum float (binary64_with pow_half)
    (map (fun x => @fmul float (binary64_with pow_half) x x) a) = 0%float.
Proof.
  unfold py_sum. cbn [f0 fadd fmul binary64_with].
  induction 1 as [|x a Hx Ha IH]; [reflexivity|]. simpl.
  destruct (float_zero_cases x Hx) as [-> | ->];
    change (PrimFloat.add 0 (PrimFloat.mul 0 0)) with 0%float;
    change (PrimFloat.add 0 (PrimFloat.mul (-0) (-0))) with 0%float;
    exact IH.
Qed.

(** X26: the zero vector carries no direction.  In binary64, with a
    C library whose [pow(0.0, 0.5)] is [0.0], the similarity of a
    vector whose entries are all zero, [0.0] or [-0.0], and any vector
    of the same length is [0.0], on either side: not NaN and not an
    error. *)
Theorem cosine_similarity_of_zero_vector (pow_half : float -> float)
    (a b : list float) :
  pow_half 0%float = 0%float ->
  Forall (fun x => PrimFloat.eqb x 0 = true) a ->
  length a = length b ->
  @cosine_similarity float (binary64_with pow_half) a b = Ok 0%float
  /\ @cosine_similarity float (binary64_with pow_half) b a = Ok 0%float.
Proof.
  intros Hpow Hzero Hlen.
  assert (Hnorm : @norm float (binary64_with pow_half) a = 0%float).
  { unfold norm. rewrite (sum_squares_of_zeros pow_half a Hzero). exact Hpow. }
  destruct a as [|x a]; [destruct b; [split; reflexivity | discriminate]|].
  destruct b as [|y b]; [discriminate|].
  rewrite !cosine_similarity_nonempty by (congruence || discriminate).
  rewrite Hnorm. cbn [feqb f0 binary64_with].
  change (PrimFloat.eqb 0 0) with true. rewrite orb_true_r. split; reflexivity.
Qed.

(** ** The further properties at work *)

Lemma normalize_memory_table :
  _normalize_table_name (memory_table_name offline_settings) = Ok "ti_memory".
Proof. vm_compute. reflexivity. Qed.

(** A schema in front of the table name changes nothing. *)
Lemma qualified_table_name_witness :
  _normalize_table_name "public.ti_memory" = Ok "ti_memory"
  /\ fetch_records demo_db "public.ti_memory" None
     = fetch_records demo_db "ti_memory" None.
Proof.
  assert (Hdot : ~ In "."%char (list_ascii_of_string "ti_memory"))
    by (simpl; intuition discriminate).
  destruct (qualified_table_name_is_same_table demo_db "public" "ti_memory"
              "ti_memory" Hdot normalize_ti_memory)
    as (Hname & _ & _ & Hfetch & _).
  split; [exact Hname | apply Hfetch].
Defined.


(** A fourth memory, stored at the time 400, is fetched first. *)
Lemma store_embedding_then_fetch_witness :
  exists db',
    store_embedding demo_db "ti_memory" "aroha" [1%float; 1%float] None "d" 400
    = Ok (db', "d")
    /\ table_rows db' "ti_memory"
       = table_rows demo_db "ti_memory"
         ++ [Row "d" "aroha" "{}" (Some [1%float; 1%float]) 400].
Proof.
  assert (Hfresh : forall r : row float,
             In r (table_rows demo_db "ti_memory") -> row_id r <> "d").
  { intros r Hr. vm_compute in Hr.
    destruct Hr as [<- | [<- | [<- | []]]]; discriminate. }
  destruct (proj1 (store_embedding_then_fetch demo_db "ti_memory" "ti_memory"
                     "aroha" [1%float; 1%float] None "d" 400
                     normalize_ti_memory) Hfresh)
    as (db' & Hstore & Hrows & _).
  exists db'. split; [exact Hstore | exact Hrows].
Defined.

Lemma prune_embeddings_idempotent_witness :
  exists db',
    prune_embeddings demo_db "ti_memory" 2 = Ok db'
    /\ prune_embeddings db' "ti_memory" 2 = Ok db'.
Proof.
  destruct (prune_embeddings demo_db "ti_memory" 2) as [db'|] eqn:Hprune;
    [|vm_compute in Hprune; discriminate].
  exists db'. split; [reflexivity|].
  apply (prune_embeddings_idempotent demo_db db' "ti_memory" "ti_memory" 2
           normalize_ti_memory ltac:(lia) demo_ids_unique Hprune).
Defined.

(** [keep = -1] removes the oldest record and keeps two. *)
Lemma prune_embeddings_negative_keep_witness :
  exists db',
    prune_embeddings demo_db "ti_memory" (-1) = Ok db'
    /\ length (table_rows db' "ti_memory") = 2%nat.
Proof.
  destruct (prune_embeddings_negative_keep demo_db "ti_memory" "ti_memory" 1
              normalize_ti_memory ltac:(lia) demo_ids_unique)
    as (db' & Hprune & Hlen & _).
  exists db'. split; [exact Hprune|]. rewrite Hlen. vm_compute. reflexivity.
Defined.

Lemma top_k_embeddings_hits_witness :
  exists hits,
    top_k_embeddings demo_db "ti_memory" [1%float; 0%float] 2 = Ok hits
    /\ length hits = 2%nat.
Proof.
  destruct (top_k_embeddings demo_db "ti_memory" [1%float; 0%float] 2)
    as [hits|] eqn:Htop; [|vm_compute in Htop; discriminate].
  exists hits. split; [reflexivity|].
  destruct (top_k_embeddings_hits demo_db "ti_memory" "ti_memory"
              [1%float; 0%float] 2 hits normalize_ti_memory Htop)
    as (_ & Hlen & _).
  rewrite Hlen by lia. vm_compute. reflexivity.
Defined.

(** A query of three components against the stored vectors of two. *)
Lemma top_k_embeddings_mismatch_witness :
  top_k_embeddings demo_db "ti_memory" [1%float; 2%float; 3%float] 5
  = Raise length_mismatch.
Proof.
  pose proof (top_k_embeddings_raises_iff_mismatch demo_db "ti_memory"
                "ti_memory" [1%float; 2%float; 3%float] 5 normalize_ti_memory)
    as Hiff.
  assert (Hsome : existsb (mismatched [1%float; 2%float; 3%float])
                    (table_rows demo_db "ti_memory") = true)
    by (vm_compute; reflexivity).
  rewrite Hsome in Hiff. exact Hiff.
Defined.

Lemma cosine_similarity_symmetric_witness :
  cosine_similarity [1%float; 2%float] [3%float; 4%float]
  = cosine_similarity [3%float; 4%float] [1%float; 2%float].
Proof.
  apply (cosine_similarity_symmetric [1%float; 2%float] [3%float; 4%float]).
  exact float_mul_comm.
Defined.

Lemma clean_identifiers_accepted_witness :
  _identifier_parts "ti_memory" = Ok ["ti_memory"]
  /\ _identifier_parts "public.ti_memory" = Ok ["public"; "ti_memory"].
Proof.
  apply (clean_identifiers_accepted "public" "ti_memory"); reflexivity.
Defined.

(** Around [flaky] the decorator sleeps 1.5 s in all. *)
Lemma retry_total_sleep_witness :
  (total_sleep (snd (retry 3 (1 # 2) flaky 0%nat)) <= 3 # 2)%Q.
Proof.
  assert (Hdelay : (0 <= 1 # 2)%Q) by (unfold Qle; simpl; lia).
  apply (proj2 (retry_total_sleep_bounded flaky 3 (1 # 2) 0%nat Hdelay));
    reflexivity.
Defined.

(** Live and without an API key: 502. *)
Lemma live_retrieve_502_witness :
  post_retrieve (quiet_services float) live_settings demo_db
    {| query := "kia ora"; top_k := 5; min_similarity := None |}
  = Raise (HTTPException 502 "Vector search is unavailable.").
Proof.
  apply (proj1 (live_retrieve_failures (quiet_services float) live_settings
                  demo_db
                  {| query := "kia ora"; top_k := 5; min_similarity := None |}
                  eq_refl eq_refl eq_refl)).
  reflexivity.
Defined.

Lemma quiet_services_limit (F : Type) : pg_limit_respected (quiet_services F).
Proof. intros table embedding k rows Hk [= <-]. simpl. lia. Qed.

(** The endpoint on the three memories, with the threshold 0.875: one
    result, the stored text itself. *)
Lemma retrieve_at_most_k_witness :
  exists results,
    post_retrieve (quiet_services float) offline_settings memory_db
      {| query := "kia ora"; top_k := 2; min_similarity := Some 0.875%float |}
    = Ok results
    /\ map res_id results = ["m1"]
    /\ Z.of_nat (length results) <= 2
    /\ Forall (fun r => PrimFloat.ltb (res_similarity r) 0.875 = false) results.
Proof.
  pose proof (proj1 (retrieve_at_most_k_not_below_threshold
                       (quiet_services float) offline_settings memory_db
                       {| query := "kia ora"; top_k := 2;
                          min_similarity := Some 0.875%float |}
                       (quiet_services_limit float))) as Hbound.
  assert (Hrun :
    post_retrieve (quiet_services float) offline_settings memory_db
      {| query := "kia ora"; top_k := 2; min_similarity := Some 0.875%float |}
    = Ok [ {| res_id := "m1"; res_content := "kia ora"; res_metadata := "{}";
              res_created_at := 100; res_similarity := 1%float |} ])
    by (vm_compute; reflexivity).
  rewrite Hrun in Hbound. destruct Hbound as [Hlen Hsim].
  eexists. split; [exact Hrun|]. split; [reflexivity|]. split; [exact Hlen|].
  eapply List.Forall_impl; [|exact (Hsim _ eq_refl)].
  intros r [Hr _]. exact Hr.
Defined.

(** On the three memories, whose similarities to the query are
    numbers, the answer for [top_k = 2] and the threshold 0.5 is the
    first two of the memories that score at least 0.5. *)
Lemma threshold_commutes_witness :
  exists scored,
    score_records (offline_vector "kia ora")
      (order_by_created_at_desc (table_rows memory_db "ti_memory"))
    = Ok scored
    /\ post_retrieve (quiet_services float) offline_settings memory_db
         {| query := "kia ora"; top_k := 2; min_similarity := Some 0.5%float |}
       = Ok (map to_result
               (firstn 2
                  (List.filter (fun h => PrimFloat.leb 0.5 (similarity h))
                     (map enrich (sort_by_score scored))))).
Proof.
  eexists. split; [vm_compute; reflexivity|].
  apply (proj1 (@threshold_commutes_with_truncation float binary64
                  binary64_order (quiet_services float)
                  offline_settings memory_db
                  {| query := "kia ora"; top_k := 2;
                     min_similarity := Some 0.5%float |}
                  "ti_memory" (offline_vector "kia ora") _ 0.5%float
                  eq_refl ltac:(vm_compute; reflexivity)
                  ltac:(vm_compute; reflexivity) normalize_ti_memory
                  ltac:(vm_compute; reflexivity)
                  ltac:(vm_compute; reflexivity)
                  ltac:(repeat constructor)
                  eq_refl)).
Defined.

(** Once made, the client of [den] is handed out with the environment
    empty and [create_client] failing. *)
Lemma get_supabase_client_caches_witness :
  supabase_client.get_supabase_client (fun _ => None)
    (fun _ _ => Raise (RuntimeError "unreachable")) "DEN" den_cached
  = (Some {| supabase_client.supabase_url := "https://den.example";
             supabase_client.supabase_key := "den-key" |}, den_cached).
Proof.
  apply (proj1 (get_supabase_client_caches demo_env demo_create_client "DEN"
                  no_clients den_cached
                  (Some {| supabase_client.supabase_url := "https://den.example";
                           supabase_client.supabase_key := "den-key" |})
                  eq_refl)).
Defined.

(** The server fails twice and answers the third request. *)
Lemma fetch_records_asks_three_times_witness :
  exists rows requests trace,
    supabase_client.fetch_records demo_env demo_create_client flaky_server
      demo_str "den" "ti_memory" "*" 100 no_clients 0%nat
    = ({| supabase_client.data := Some (supabase_client.Rows rows);
          supabase_client.count := Z.of_nat (length rows);
          supabase_client.error := None;
          supabase_client.ok := true |}, den_cached, requests, trace).
Proof.
  assert (Hname : "ti_memory" <> "") by discriminate.
  destruct (fetch_records_asks_three_times demo_env demo_create_client
              flaky_server demo_str "den" "ti_memory" "*" 100 no_clients
              den_cached _ 0%nat eq_refl Hname)
    as [(es & w1 & rows & w2 & trace & _ & _ & _ & Hrun & _)
       | (e1 & e2 & e3 & w1 & w2 & w3 & trace & H1 & H2 & H3 & _)].
  - exists rows, w2, trace. exact Hrun.
  - exfalso. vm_compute in H1. injection H1 as _ <-.
    vm_compute in H2. injection H2 as _ <-.
    vm_compute in H3. discriminate H3.
Defined.

(** A qualified name reaches the server as its two parts. *)
Lemma statements_name_clean_tables_witness :
  snd (PGVectorClient.search_embeddings (quiet_services float)
         "public.ti_memory" [1%float] 5)
  = [SelectNearest ["public"; "ti_memory"] [1%float] 5]
  /\ Forall (fun part => clean_part part = true) ["public"; "ti_memory"].
Proof.
  destruct (proj1 (statements_name_clean_tables (quiet_services float)
                     "public.ti_memory") ["public"; "ti_memory"] eq_refl)
    as (_ & Hclean & _ & Hsearch).
  split; [apply Hsearch | exact Hclean].
Defined.

(** [cosine_similarity([0.0, -0.0], [1.0, 2.0])] is [0.0]. *)
Lemma cosine_similarity_of_zero_vector_witness :
  cosine_similarity [0%float; (-0)%float] [1%float; 2%float] = Ok 0%float.
Proof.
  apply (proj1 (cosine_similarity_of_zero_vector PrimFloat.sqrt
                  [0%float; (-0)%float] [1%float; 2%float] eq_refl
                  ltac:(repeat constructor) eq_refl)).
Defined.
